(** * ServiceUp: schema-driven entries, title templates, view layouts and repeaters

    A shallow embedding of the dynamic schema / entry core of the ServiceUp
    repository, and the properties its specification states about it.

    Sources embedded here:
    - the API server ([getByPath], [asPrettyInline], [deriveTitleFromTemplate],
      [isUuid], [normalizeEntryData], [attachResolvedUsersToEntries] and the
      entry routes);
    - the entry editor page ([buildLayoutFromView]);
    - [admin/src/components/FieldInput.jsx] ([isEmptyValue], [cmp], [evalRule],
      [computeSubfieldVisibility], [RepeaterField], [FieldInput]).

    Conventions of the embedding.
    - A JavaScript value is a [JsVal]: the JSON fragment plus [undefined].
      A number is a whole number ([JNum]) or a fraction with a power of two
      as denominator ([JFrac], with an odd numerator, so that a whole
      number is always a [JNum]), which covers every finite double; the
      text and the number value of a number that is not a double are those
      of the double nearest to it, and the negative zero is not told apart
      from zero. The builtin [Number(...)] is [jsNumber]; a property that
      holds for every numeric domain is stated over the class [NumOps].
    - A string is a [string] of code units below 256.
    - An object is an association list in property enumeration order. A
      read gives the object's own property; what a read of a member
      inherited from a builtin prototype gives is no value of the data, and
      a property that depends on such reads excludes them by a hypothesis
      ([readsData], [objectPrototypeMember]).
    - An exception is a [None] result; a data-store round trip is a
      function taken as a parameter. *)

From Stdlib Require Import ZArith Lia Bool List Ascii String.
From Stdlib Require Import DecimalString.
From stdpp Require Import base option list strings gmap.

Import ListNotations.
Local Open Scope string_scope.
Local Open Scope list_scope.
Local Open Scope Z_scope.

(* ===================================================================== *)
(** * The JavaScript value model *)
(* ===================================================================== *)

Module Js.

#[warnings="-register-all"]
Inductive JsVal : Type :=
| JUndefined
| JNull
| JBool (b : bool)
| JNum (n : Z)
| JFrac (m : Z) (k : positive)
| JStr (s : string)
| JArr (items : list JsVal)
| JObj (props : list (string * JsVal)).

(** ** Characters and strings *)

Definition code (c : ascii) : nat := nat_of_ascii c.

(** [\s] of a regular expression and the set stripped by [String.prototype.trim],
    among code units below 256: TAB, LF, VT, FF, CR, SPACE and NBSP. *)
Definition is_space (c : ascii) : bool :=
  let n := code c in
  ((9 <=? n)%nat && (n <=? 13)%nat) || (n =? 32)%nat || (n =? 160)%nat.

Definition is_lower (c : ascii) : bool :=
  let n := code c in (97 <=? n)%nat && (n <=? 122)%nat.

Definition is_upper (c : ascii) : bool :=
  let n := code c in (65 <=? n)%nat && (n <=? 90)%nat.

Definition is_digit (c : ascii) : bool :=
  let n := code c in (48 <=? n)%nat && (n <=? 57)%nat.

Definition is_hex (c : ascii) : bool :=
  let n := code c in
  is_digit c || ((97 <=? n)%nat && (n <=? 102)%nat)
             || ((65 <=? n)%nat && (n <=? 70)%nat).

(** [c.toUpperCase()] for a lower-case ASCII letter. *)
Definition upcase (c : ascii) : ascii :=
  if is_lower c then ascii_of_nat (code c - 32) else c.

(** [String.prototype.toLowerCase] on one code unit below 256. *)
Definition downcase (c : ascii) : ascii :=
  let n := code c in
  if is_upper c then ascii_of_nat (n + 32)
  else if (192 <=? n)%nat && (n <=? 222)%nat && negb (n =? 215)%nat
       then ascii_of_nat (n + 32)
  else c.

Fixpoint toLowerCase (s : string) : string :=
  match s with
  | EmptyString => EmptyString
  | String c r => String (downcase c) (toLowerCase r)
  end.

Fixpoint trimStart (s : string) : string :=
  match s with
  | String c r => if is_space c then trimStart r else s
  | EmptyString => EmptyString
  end.

(** Drops trailing white space: a character is kept when something that is
    not white space follows or it is itself not white space. *)
Fixpoint trimEnd (s : string) : string :=
  match s with
  | EmptyString => EmptyString
  | String c r =>
      match trimEnd r with
      | EmptyString => if is_space c then EmptyString else String c EmptyString
      | r' => String c r'
      end
  end.

Definition trim (s : string) : string := trimEnd (trimStart s).

(** [s.replace(/\s+/g, ' ')]: every maximal run of white space becomes one
    space; [inRun] tells whether the scan is inside a run. *)
Fixpoint collapseSpaces_aux (inRun : bool) (s : string) : string :=
  match s with
  | EmptyString => EmptyString
  | String c r =>
      if is_space c
      then (if inRun then collapseSpaces_aux true r
            else String " " (collapseSpaces_aux true r))
      else String c (collapseSpaces_aux false r)
  end.

Definition collapseSpaces (s : string) : string := collapseSpaces_aux false s.

Fixpoint isPrefix (p s : string) : bool :=
  match p, s with
  | EmptyString, _ => true
  | String a p', String b s' => Ascii.eqb a b && isPrefix p' s'
  | String _ _, EmptyString => false
  end.

(** [s.includes(sub)]. *)
Fixpoint includes (s sub : string) : bool :=
  isPrefix sub s ||
  match s with
  | EmptyString => false
  | String _ r => includes r sub
  end.

(** [a < b] on strings: lexicographic on code units. *)
Fixpoint str_ltb (a b : string) : bool :=
  match a, b with
  | EmptyString, EmptyString => false
  | EmptyString, String _ _ => true
  | String _ _, EmptyString => false
  | String x a', String y b' =>
      if (code x <? code y)%nat then true
      else if (code y <? code x)%nat then false
      else str_ltb a' b'
  end.

Definition str_leb (a b : string) : bool := negb (str_ltb b a).

(** [s.split(sep)] for a one-character separator. *)
Fixpoint split_aux (sep : ascii) (acc : string) (s : string) : list string :=
  match s with
  | EmptyString => [acc]
  | String c r =>
      if Ascii.eqb c sep then acc :: split_aux sep EmptyString r
      else split_aux sep (acc +:+ String c EmptyString) r
  end.

Definition split (sep : ascii) (s : string) : list string :=
  split_aux sep EmptyString s.

Fixpoint join (sep : string) (l : list string) : string :=
  match l with
  | [] => EmptyString
  | [x] => x
  | x :: r => x +:+ sep +:+ join sep r
  end.

Definition nonEmpty (s : string) : bool :=
  match s with EmptyString => false | _ => true end.

(** ** Numbers as text *)

(** [String(n)] for an integer. *)
Definition Z_to_string (n : Z) : string :=
  match n with
  | Z0 => "0"
  | Zpos p => NilEmpty.string_of_uint (Pos.to_uint p)
  | Zneg p => "-" +:+ NilEmpty.string_of_uint (Pos.to_uint p)
  end.

Fixpoint digits_value (acc : Z) (s : string) : option Z :=
  match s with
  | EmptyString => Some acc
  | String c r =>
      if is_digit c
      then digits_value (10 * acc + Z.of_nat (code c - 48)) r
      else None
  end.

Definition parse_digits (s : string) : option Z :=
  match s with
  | EmptyString => None
  | _ => digits_value 0 s
  end.

(** A canonical array index: the decimal text of a natural number. *)
Definition index_of_key (k : string) : option nat :=
  match parse_digits k with
  | Some n => if String.eqb (Z_to_string n) k then Some (Z.to_nat n) else None
  | None => None
  end.

(** ** Numbers *)

(** A finite number [mant * 2 ^ expo]. Every double that is not [NaN] or
    infinite is one. *)
Record Dyadic := { mant : Z; expo : Z }.

Definition ofInt (n : Z) : Dyadic := {| mant := n; expo := 0 |}.

(** [m / 2 ^ k]. *)
Definition ofFrac (m : Z) (k : positive) : Dyadic := {| mant := m; expo := Z.neg k |}.

(** The order of two finite numbers. *)
Definition dy_compare (a b : Dyadic) : comparison :=
  let e := Z.min (expo a) (expo b) in
  Z.compare (mant a * 2 ^ (expo a - e)) (mant b * 2 ^ (expo b - e)).

Definition dy_ltb (a b : Dyadic) : bool :=
  match dy_compare a b with Lt => true | _ => false end.
Definition dy_leb (a b : Dyadic) : bool :=
  match dy_compare a b with Gt => false | _ => true end.
Definition dy_eqb (a b : Dyadic) : bool :=
  match dy_compare a b with Eq => true | _ => false end.

Definition dy_opp (a : Dyadic) : Dyadic := {| mant := - mant a; expo := expo a |}.

(** A number that is not [NaN]: finite, or one of the two infinities. *)
Inductive Num : Type :=
| Fin (d : Dyadic)
| Inf (negative : bool).

Definition num_compare (a b : Num) : comparison :=
  match a, b with
  | Fin x, Fin y => dy_compare x y
  | Fin _, Inf negative => if negative then Gt else Lt
  | Inf negative, Fin _ => if negative then Lt else Gt
  | Inf false, Inf false | Inf true, Inf true => Eq
  | Inf true, Inf false => Lt
  | Inf false, Inf true => Gt
  end.

Definition lessThan (a b : Num) : bool :=
  match num_compare a b with Lt => true | _ => false end.
Definition lessOrEqual (a b : Num) : bool :=
  match num_compare a b with Gt => false | _ => true end.

(** The double nearest to [n / d], for positive [n] and [d]: round to
    nearest, ties to the even significand; beyond the largest double the
    result is infinite ([None]). *)
Definition nearestDouble (n d : Z) : option Dyadic :=
  let l := Z.log2 n - Z.log2 d in
  let atLeast := if 0 <=? l then d * 2 ^ l <=? n else d <=? n * 2 ^ (- l) in
  let top := if atLeast then l else l - 1 in
  let e := Z.max (top - 52) (-1074) in
  let num := if e <? 0 then n * 2 ^ (- e) else n in
  let den := if e <? 0 then d else d * 2 ^ e in
  let q := num / den in
  let r := num mod den in
  let m := if 2 * r <? den then q
           else if den <? 2 * r then q + 1
           else if Z.even q then q else q + 1 in
  if m =? 0 then Some (ofInt 0)
  else if 1024 <=? Z.log2 m + e then None
  else Some {| mant := m; expo := e |}.

(** The number value of the quotient [n / d] of two integers, [d] positive. *)
Definition toNumber (n d : Z) : Num :=
  match n with
  | Z0 => Fin (ofInt 0)
  | Zpos _ =>
      match nearestDouble n d with
      | Some x => Fin x
      | None => Inf false
      end
  | Zneg _ =>
      match nearestDouble (- n) d with
      | Some x => Fin (dy_opp x)
      | None => Inf true
      end
  end.

(** The value of a finite number as a quotient of integers. *)
Definition quotient (x : Dyadic) : Z * Z :=
  if 0 <=? expo x then (mant x * 2 ^ expo x, 1) else (mant x, 2 ^ (- expo x)).

Definition roundToDouble (x : Dyadic) : Num :=
  let '(n, d) := quotient x in toNumber n d.

(** *** [Number(text)] *)

Fixpoint digitsPrefix (s : string) : string * string :=
  match s with
  | String c r =>
      if is_digit c then let '(ds, rest) := digitsPrefix r in (String c ds, rest)
      else (EmptyString, s)
  | EmptyString => (EmptyString, EmptyString)
  end.

Definition digitValue (c : ascii) : Z :=
  let n := code c in
  if is_digit c then Z.of_nat (n - 48)
  else if (97 <=? n)%nat && (n <=? 122)%nat then Z.of_nat (n - 87)
  else if (65 <=? n)%nat && (n <=? 90)%nat then Z.of_nat (n - 55)
  else 99.

(** The value of a text of digits in a radix; [None] when a character is
    not a digit of the radix. *)
Fixpoint radixValue (radix acc : Z) (s : string) : option Z :=
  match s with
  | EmptyString => Some acc
  | String c r =>
      if digitValue c <? radix then radixValue radix (radix * acc + digitValue c) r
      else None
  end.

(** [ExponentPart], or nothing: the power of ten. *)
Definition exponentPart (s : string) : option Z :=
  match s with
  | EmptyString => Some 0
  | String c r =>
      if Ascii.eqb c "e" || Ascii.eqb c "E"
      then
        let '(negative, ds) :=
          match r with
          | String "+" ds => (false, ds)
          | String "-" ds => (true, ds)
          | _ => (false, r)
          end in
        if nonEmpty ds
        then match radixValue 10 0 ds with
             | Some x => Some (if negative then - x else x)
             | None => None
             end
        else None
      else None
  end.

(** [StrUnsignedDecimalLiteral] other than [Infinity]: the integer of its
    digits and the power of ten it is multiplied by. *)
Definition unsignedDecimal (s : string) : option (Z * Z) :=
  let '(whole, rest) := digitsPrefix s in
  let '(fraction, rest) :=
    match rest with
    | String "." r => digitsPrefix r
    | _ => (EmptyString, rest)
    end in
  if negb (nonEmpty whole) && negb (nonEmpty fraction) then None
  else
    match exponentPart rest, radixValue 10 0 (whole +:+ fraction) with
    | Some x, Some digits => Some (digits, x - Z.of_nat (String.length fraction))
    | _, _ => None
    end.

(** [None] is [NaN]. *)
Definition decimalValue (negative : bool) (s : string) : option Num :=
  if String.eqb s "Infinity" then Some (Inf negative)
  else
    match unsignedDecimal s with
    | Some (digits, x) =>
        let digits := if negative then - digits else digits in
        Some (if 0 <=? x then toNumber (digits * 10 ^ x) 1
              else toNumber digits (10 ^ (- x)))
    | None => None
    end.

Definition prefixed (radix : Z) (ds : string) : option Num :=
  if nonEmpty ds
  then match radixValue radix 0 ds with
       | Some n => Some (toNumber n 1)
       | None => None
       end
  else None.

(** [StringToNumber]: the text trimmed, then the grammar
    [StringNumericLiteral]; the empty text is [0]. [None] is [NaN]. *)
Definition stringToNumber (s : string) : option Num :=
  match trim s with
  | EmptyString => Some (Fin (ofInt 0))
  | String "0" (String "x" ds) | String "0" (String "X" ds) => prefixed 16 ds
  | String "0" (String "o" ds) | String "0" (String "O" ds) => prefixed 8 ds
  | String "0" (String "b" ds) | String "0" (String "B" ds) => prefixed 2 ds
  | String "+" r => decimalValue false r
  | String "-" r => decimalValue true r
  | t => decimalValue false t
  end.

(** *** [String(number)] *)

(** The number of decimal digits of a positive integer; [0] for [0]. *)
Definition digitCount (z : Z) : Z :=
  if z <=? 0 then 0 else Z.of_nat (String.length (Z_to_string z)).

(** [floor (log10 (n / d))] for positive [n] and [d]. *)
Definition floorLog10 (n d : Z) : Z :=
  if d <=? n then digitCount (n / d) - 1
  else - digitCount ((d + n - 1) / n - 1).

(** [s * 10 ^ t] as a quotient. *)
Definition scaled (s t : Z) : Z * Z :=
  if 0 <=? t then (s * 10 ^ t, 1) else (s, 10 ^ (- t)).

Definition roundsTo (x : Dyadic) (s t : Z) : bool :=
  let '(n, d) := scaled s t in
  match toNumber n d with
  | Fin y => dy_eqb x y
  | Inf _ => false
  end.

(** The digits [s] and the exponent [t] of the shortest decimal
    [s * 10 ^ t] with [k] digits that reads back as the positive double
    [n / d], if there is one: the nearer of the two decimals around the
    number, the even one when they are as near. *)
Definition shortestWith (x : Dyadic) (n d : Z) (k : Z) : option (Z * Z) :=
  let t := floorLog10 n d - (k - 1) in
  let low := if 0 <=? t then n / (d * 10 ^ t) else (n * 10 ^ (- t)) / d in
  let high := low + 1 in
  let below := if 0 <=? t then n - low * 10 ^ t * d else n * 10 ^ (- t) - low * d in
  let above := if 0 <=? t then high * 10 ^ t * d - n else high * d - n * 10 ^ (- t) in
  let lowOk := roundsTo x low t in
  let highOk := roundsTo x high t in
  let pick (s : Z) := if s =? 10 ^ k then Some (10 ^ (k - 1), t + 1) else Some (s, t) in
  if lowOk && highOk
  then (if below <? above then pick low
        else if above <? below then pick high
        else if Z.even low then pick low else pick high)
  else if lowOk then pick low
  else if highOk then pick high
  else None.

Fixpoint shortestFrom (fuel : nat) (x : Dyadic) (n d : Z) (k : Z) : option (Z * Z * Z) :=
  match fuel with
  | O => None
  | S f =>
      match shortestWith x n d k with
      | Some (s, t) => Some (s, t, k)
      | None => shortestFrom f x n d (k + 1)
      end
  end.

Fixpoint zeros (n : nat) : string :=
  match n with O => EmptyString | S m => String "0" (zeros m) end.

Fixpoint takeText (n : nat) (s : string) : string :=
  match n, s with
  | S m, String c r => String c (takeText m r)
  | _, _ => EmptyString
  end.

Fixpoint dropText (n : nat) (s : string) : string :=
  match n, s with
  | S m, String _ r => dropText m r
  | _, _ => s
  end.

(** [Number::toString] for a positive double: the digits [s], their
    number [k] and the position [n] of the decimal point. *)
Definition layoutDigits (s k n : Z) : string :=
  let digits := Z_to_string s in
  if (k <=? n) && (n <=? 21) then digits +:+ zeros (Z.to_nat (n - k))
  else if (0 <? n) && (n <=? 21)
    then takeText (Z.to_nat n) digits +:+ "." +:+ dropText (Z.to_nat n) digits
  else if (-6 <? n) && (n <=? 0)
    then "0." +:+ zeros (Z.to_nat (- n)) +:+ digits
  else
    let e := n - 1 in
    let sign := if 0 <=? e then "+" else "-" in
    let head := if k =? 1 then digits
                else takeText 1 digits +:+ "." +:+ dropText 1 digits in
    head +:+ "e" +:+ sign +:+ Z_to_string (Z.abs e).

Definition positiveToString (x : Dyadic) : string :=
  let '(n, d) := quotient x in
  match shortestFrom 17 x n d 1 with
  | Some (s, t, k) => layoutDigits s k (t + k)
  | None => "NaN"
  end.

(** [String(x)] for a number value. *)
Definition numToString (x : Num) : string :=
  match x with
  | Inf false => "Infinity"
  | Inf true => "-Infinity"
  | Fin d =>
      match mant d with
      | Z0 => "0"
      | Zpos _ => positiveToString d
      | Zneg _ => "-" +:+ positiveToString (dy_opp d)
      end
  end.

(** ** Coercions *)

(** [!!v]. *)
Definition truthy (v : JsVal) : bool :=
  match v with
  | JUndefined | JNull => false
  | JBool b => b
  | JNum n => negb (n =? 0)
  | JFrac m _ => negb (m =? 0)
  | JStr s => nonEmpty s
  | JArr _ | JObj _ => true
  end.

(** [a || b]. *)
Definition or_else (a b : JsVal) : JsVal := if truthy a then a else b.

(** [v == null]. *)
Definition is_nullish (v : JsVal) : bool :=
  match v with JUndefined | JNull => true | _ => false end.

(** [v !== undefined]. *)
Definition is_defined (v : JsVal) : bool :=
  match v with JUndefined => false | _ => true end.

(** [String(n)] for a whole number: its digits up to [2 ^ 53], where every
    whole number is a double. *)
Definition wholeToString (n : Z) : string :=
  if Z.abs n <=? 2 ^ 53 then Z_to_string n else numToString (toNumber n 1).

(** [String(m / 2 ^ k)]. *)
Definition fracToString (m : Z) (k : positive) : string :=
  numToString (toNumber m (2 ^ Z.pos k)).

(** [String(v)]. An array joins the text of its elements with commas, with
    [null] and [undefined] elements as the empty text. *)
Fixpoint toStr (v : JsVal) : string :=
  match v with
  | JUndefined => "undefined"
  | JNull => "null"
  | JBool true => "true"
  | JBool false => "false"
  | JNum n => wholeToString n
  | JFrac m k => fracToString m k
  | JStr s => s
  | JArr l =>
      join "," (List.map (fun e => if is_nullish e then EmptyString else toStr e) l)
  | JObj _ => "[object Object]"
  end.

(** [Number(v)]; [None] is [NaN]. An array is first turned into its
    text, an object into the text "[object Object]". *)
Definition jsNumber (v : JsVal) : option Num :=
  match v with
  | JUndefined => None
  | JNull => Some (Fin (ofInt 0))
  | JBool b => Some (Fin (ofInt (if b then 1 else 0)))
  | JNum n => Some (toNumber n 1)
  | JFrac m k => Some (toNumber m (2 ^ Z.pos k))
  | JStr s => stringToNumber s
  | JArr _ => stringToNumber (toStr v)
  | JObj _ => None
  end.

(** [Number.isFinite(v) ? Number(v) : null]: a value that is not a number
    is not finite. *)
Definition finiteNumber (v : JsVal) : option Dyadic :=
  match v with
  | JNum n => Some (ofInt n)
  | JFrac m k => Some (ofFrac m k)
  | _ => None
  end.

(** ** Objects as association lists *)

Definition Props := list (string * JsVal).

Fixpoint obj_get (o : Props) (k : string) : JsVal :=
  match o with
  | [] => JUndefined
  | (k', v) :: r => if String.eqb k' k then v else obj_get r k
  end.

Fixpoint obj_has (o : Props) (k : string) : bool :=
  match o with
  | [] => false
  | (k', _) :: r => String.eqb k' k || obj_has r k
  end.

Fixpoint obj_replace (o : Props) (k : string) (v : JsVal) : Props :=
  match o with
  | [] => []
  | (k', v') :: r =>
      if String.eqb k' k then (k', v) :: r else (k', v') :: obj_replace r k v
  end.

(** A new array-index key goes before the first key that is not an index
    or is a larger index; any other new key goes last. *)
Fixpoint obj_insert_index (o : Props) (i : nat) (k : string) (v : JsVal) : Props :=
  match o with
  | [] => [(k, v)]
  | (k', v') :: r =>
      match index_of_key k' with
      | Some j => if (j <? i)%nat then (k', v') :: obj_insert_index r i k v
                  else (k, v) :: o
      | None => (k, v) :: o
      end
  end.

(** [o[k] = v]. *)
Definition obj_set (o : Props) (k : string) (v : JsVal) : Props :=
  if obj_has o k then obj_replace o k v
  else match index_of_key k with
       | Some i => obj_insert_index o i k v
       | None => o ++ [(k, v)]
       end.

(** [delete o[k]]. *)
Fixpoint obj_delete (o : Props) (k : string) : Props :=
  match o with
  | [] => []
  | (k', v) :: r =>
      if String.eqb k' k then obj_delete r k else (k', v) :: obj_delete r k
  end.

Fixpoint string_chars (s : string) : list JsVal :=
  match s with
  | EmptyString => []
  | String c r => JStr (String c EmptyString) :: string_chars r
  end.

Fixpoint indexed (i : nat) (l : list JsVal) : Props :=
  match l with
  | [] => []
  | v :: r => (Z_to_string (Z.of_nat i), v) :: indexed (S i) r
  end.

(** [v[k]] for a value that is not [null] or [undefined], where the read
    gives a value of the data ([readsData] below): own properties of
    objects, elements and [length] of arrays and texts, [undefined] for a
    key that is not there. A member inherited from a builtin prototype is
    a builtin function or object, which the model does not hold; the
    properties that depend on such a read say so. *)
Definition getProp (v : JsVal) (k : string) : JsVal :=
  match v with
  | JObj o => obj_get o k
  | JArr l =>
      if String.eqb k "length" then JNum (Z.of_nat (List.length l))
      else match index_of_key k with
           | Some i => nth i l JUndefined
           | None => JUndefined
           end
  | JStr s =>
      if String.eqb k "length" then JNum (Z.of_nat (String.length s))
      else match index_of_key k with
           | Some i => nth i (string_chars s) JUndefined
           | None => JUndefined
           end
  | _ => JUndefined
  end.

(** The names every object inherits from [Object.prototype]: each reads
    as a builtin function, [__proto__] as the prototype itself. These
    values are not values of the data. *)
Definition objectPrototypeMember (k : string) : bool :=
  existsb (String.eqb k)
    ["constructor"; "__defineGetter__"; "__defineSetter__"; "hasOwnProperty";
     "__lookupGetter__"; "__lookupSetter__"; "isPrototypeOf";
     "propertyIsEnumerable"; "toString"; "valueOf"; "__proto__"; "toLocaleString"].

(** The read [v[k]] gives a value of the data, as [getProp] has it: [v] is
    an object and [k] is one of its keys or not the name of a member it
    inherits, or [v] is an array or a text and [k] is an index or [length].
    What an array, a text, a number or a boolean inherits from its
    prototype depends on the version of the language, so every other read
    is left out. *)
Definition readsData (v : JsVal) (k : string) : bool :=
  match v with
  | JObj o => obj_has o k || negb (objectPrototypeMember k)
  | JArr _ | JStr _ =>
      String.eqb k "length"
      || match index_of_key k with Some _ => true | None => false end
  | _ => false
  end.

(** [Object.prototype.hasOwnProperty.call(v, k)] for an object. *)
Definition hasOwn (v : JsVal) (k : string) : bool :=
  match v with
  | JObj o => obj_has o k
  | _ => false
  end.

(** [{ ...v }]: the own enumerable properties of [v]. *)
Definition spread (v : JsVal) : Props :=
  match v with
  | JObj o => o
  | JArr l => indexed 0 l
  | JStr s => indexed 0 (string_chars s)
  | _ => []
  end.

End Js.

(* ===================================================================== *)
(** * Repeater rows and conditional visibility (FieldInput.jsx) *)
(* ===================================================================== *)

Module Repeater.
Import Js.

(** The builtin [Number(v)] and the comparison of two numbers that are not
    [NaN]. Some properties of rule evaluation hold for every such domain;
    [JsNumber] below is the domain of the language. *)
Class NumOps := {
  num : Type;
  Number : JsVal -> option num;
  num_ltb : num -> num -> bool;
  num_leb : num -> num -> bool
}.

#[export] Instance JsNumber : NumOps :=
  {| num := Num; Number := jsNumber; num_ltb := lessThan; num_leb := lessOrEqual |}.

(** [typeof v === "object"]. *)
Definition isObjectType (v : JsVal) : bool :=
  match v with JNull | JArr _ | JObj _ => true | _ => false end.

(** [Array.isArray(v) ? v : []]. *)
Definition coerceArray (v : JsVal) : list JsVal :=
  match v with JArr l => l | _ => [] end.

(** [v?.[k]]. *)
Definition optGet (v : JsVal) (k : string) : JsVal :=
  if is_nullish v then JUndefined else getProp v k.

Definition getFieldConfig (field : JsVal) : JsVal :=
  let config := optGet field "config" in
  let options := optGet field "options" in
  or_else
    (or_else (if truthy config && isObjectType config then config else JNull)
             (if truthy options && isObjectType options then options else JObj []))
    (JObj []).

Definition isEmptyValue (v : JsVal) : bool :=
  match v with
  | JUndefined | JNull => true
  | JStr s => negb (nonEmpty (trim s))
  | JArr l => match l with [] => true | _ => false end
  | JObj o => match o with [] => true | _ => false end
  | _ => false
  end.

Definition cmp (a b : JsVal) : string * string :=
  (if is_nullish a then EmptyString else toStr a,
   if is_nullish b then EmptyString else toStr b).

Section Rules.
Context {N : NumOps}.

(** The three values [evalRule] reads off a rule and a row. *)
Definition rule_ifKey (rule : JsVal) : string :=
  trim (toStr (or_else (optGet rule "ifKey") (JStr ""))).

Definition rule_op (rule : JsVal) : string :=
  trim (toStr (or_else (optGet rule "op") (JStr "equals"))).

Definition rule_value (rule : JsVal) : JsVal := optGet rule "value".

Definition rule_actual (row rule : JsVal) : JsVal :=
  let ifKey := rule_ifKey rule in
  if nonEmpty ifKey then optGet row ifKey else JUndefined.

Definition evalRule (row rule : JsVal) : bool :=
  let op := rule_op rule in
  let val := rule_value rule in
  let actual := rule_actual row rule in
  if String.eqb op "truthy" then negb (isEmptyValue actual)
  else if String.eqb op "falsy" then isEmptyValue actual
  else
    let '(sa, sb) := cmp actual val in
    let na := Number actual in
    let nb := Number val in
    let ordered (numCmp : num -> num -> bool) (strCmp : bool) : bool :=
      match na, nb with
      | Some a, Some b => numCmp a b
      | _, _ => strCmp
      end in
    if String.eqb op "equals" then String.eqb sa sb
    else if String.eqb op "not_equals" then negb (String.eqb sa sb)
    else if String.eqb op "contains"
      then includes (toLowerCase sa) (toLowerCase sb)
    else if String.eqb op "not_contains"
      then negb (includes (toLowerCase sa) (toLowerCase sb))
    else if String.eqb op "gt" then ordered (fun a b => num_ltb b a) (str_ltb sb sa)
    else if String.eqb op "gte" then ordered (fun a b => num_leb b a) (str_leb sb sa)
    else if String.eqb op "lt" then ordered (fun a b => num_ltb a b) (str_ltb sa sb)
    else if String.eqb op "lte" then ordered (fun a b => num_leb a b) (str_leb sa sb)
    else String.eqb sa sb.

(** [String(sf?.field_key || sf?.key || "").trim()]. *)
Definition subfieldKey (sf : JsVal) : string :=
  trim (toStr (or_else (or_else (optGet sf "field_key") (optGet sf "key")) (JStr ""))).

(** [String(t || "").trim()]. *)
Definition targetKey (t : JsVal) : string :=
  trim (toStr (or_else t (JStr ""))).

Definition rule_targets (r : JsVal) : list JsVal :=
  coerceArray (optGet r "targets").

Definition rule_action (r : JsVal) : string :=
  toStr (or_else (optGet r "action") (JStr "show")).

(** [vis[k] = flag] on the object literal [vis], whose own properties the
    map holds: an assignment to [__proto__] of a value that is not an
    object changes nothing. *)
Definition setFlag (k : string) (flag : bool) (vis : gmap string bool)
    : gmap string bool :=
  if String.eqb k "__proto__" then vis else <[k := flag]> vis.

(** The first loop of [computeSubfieldVisibility]: every declared subfield
    with a key starts visible. *)
Definition initVisibility (subfields : list JsVal) : gmap string bool :=
  fold_left
    (fun vis sf =>
       let k := subfieldKey sf in
       if nonEmpty k then setFlag k true vis else vis)
    subfields ∅.

(** The inner loop over the targets of one matching rule. *)
Definition applyTargets (action : string) (targets : list JsVal)
    (vis : gmap string bool) : gmap string bool :=
  fold_left
    (fun vis t =>
       let k := targetKey t in
       if nonEmpty k
       then (if String.eqb action "hide" then setFlag k false vis
             else setFlag k true vis)
       else vis)
    targets vis.

(** One iteration of the loop over the rules. *)
Definition applyRule (row : JsVal) (vis : gmap string bool) (r : JsVal)
    : gmap string bool :=
  if evalRule row r then applyTargets (rule_action r) (rule_targets r) vis
  else vis.

Definition computeSubfieldVisibility (subfields : list JsVal) (rules row : JsVal)
    : gmap string bool :=
  fold_left (applyRule row) (coerceArray rules) (initVisibility subfields).

(** ** What the properties speak about *)

(** A rule names the key [k] when one of its targets has [k] as its
    trimmed text; a rule decides [k] on a row when it matches the row and
    names [k]. *)
Definition names (r : JsVal) (k : string) : bool :=
  nonEmpty k
  && match optGet r "targets" with
     | JArr targets =>
         existsb (fun t => String.eqb (trim (toStr (or_else t (JStr "")))) k) targets
     | _ => false
     end.

Definition decides (row r : JsVal) (k : string) : bool :=
  evalRule row r && names r k.

Definition declared (subfields : list JsVal) (k : string) : bool :=
  nonEmpty k
  && existsb
       (fun sf =>
          String.eqb
            (trim (toStr (or_else (or_else (optGet sf "field_key") (optGet sf "key"))
                                  (JStr ""))))
            k)
       subfields.

(** [show] for every action but ["hide"]. *)
Definition shows (action : string) : bool := negb (String.eqb action "hide").

(** The read [row?.[ifKey]] of the rule [r] is a read of the row's data
    ([readsData]); a rule without [ifKey], or on a row that is [null] or
    [undefined], reads nothing. *)
Definition readsRow (row r : JsVal) : bool :=
  negb (nonEmpty (rule_ifKey r)) || is_nullish row || readsData row (rule_ifKey r).



End Rules.

(** The rule and the row of the specification's scenario. *)
Definition ageRule : JsVal :=
  JObj [("ifKey", JStr "age"); ("op", JStr "gte"); ("value", JNum 18);
        ("action", JStr "show"); ("targets", JArr [JStr "waiver"])].

Definition ageRow : JsVal := JObj [("age", JStr "20")].

(** ** The repeater component *)

Section Component.
Context {N : NumOps}.
(** The props of [RepeaterField]: the field definition, the current value
    and the nesting depth. *)
Variable field : JsVal.
Variable depth : Z.

Definition cfg : JsVal := getFieldConfig field.

Definition subfields : list JsVal := coerceArray (getProp cfg "subfields").

Definition rowsOf (value : JsVal) : list JsVal :=
  List.map (fun r => if truthy r && isObjectType r then r else JObj [])
           (coerceArray value).

Definition minRows : option Dyadic := finiteNumber (getProp cfg "minRows").
Definition maxRows : option Dyadic := finiteNumber (getProp cfg "maxRows").
Definition maxDepth : Dyadic := default (ofInt 2) (finiteNumber (getProp cfg "maxDepth")).
Definition rules : JsVal := JArr (coerceArray (getProp cfg "rules")).

Definition rowCount (value : JsVal) : Z := Z.of_nat (List.length (rowsOf value)).

(** A handler either returns without calling [onChange] ([None]) or calls
    it with the next value of the field. *)
Definition addRow (value : JsVal) : option JsVal :=
  match maxRows with
  | Some hi => if dy_leb hi (ofInt (rowCount value)) then None
               else Some (JArr (rowsOf value ++ [JObj []]))
  | None => Some (JArr (rowsOf value ++ [JObj []]))
  end.

Fixpoint dropIndex {A} (i : nat) (l : list A) : list A :=
  match l, i with
  | [], _ => []
  | _ :: r, O => r
  | x :: r, S j => x :: dropIndex j r
  end.

Definition removeRow (value : JsVal) (i : nat) : option JsVal :=
  match minRows with
  | Some lo => if dy_leb (ofInt (rowCount value)) lo then None
               else Some (JArr (dropIndex i (rowsOf value)))
  | None => Some (JArr (dropIndex i (rowsOf value)))
  end.

(** [setRow(i, patch)] for a one-key patch; writing past the end of the
    copy extends it. *)
Definition setRow (value : JsVal) (i : nat) (key : string) (v : JsVal) : JsVal :=
  let rows := rowsOf value in
  let base := nth i rows JUndefined in
  let base := if truthy base && isObjectType base then base else JObj [] in
  let next := JObj (obj_set (spread base) key v) in
  if (i <? List.length rows)%nat then JArr (<[i := next]> rows)
  else JArr (rows ++ repeat JUndefined (i - List.length rows) ++ [next]).

(** [canNestMore()]. *)
Definition canNestMore : bool := dy_ltb (ofInt depth) maxDepth.

(** What [renderSubfieldCell] returns: nothing, the notice that replaces a
    nested repeater, or an input bound to the row's key. Only an input has
    a change handler. *)
Inductive Cell : Type :=
| CellNone
| CellInert (key : string) (atDepth : Z)
| CellInput (key : string) (def : JsVal) (val : JsVal) (_repeaterDepth : Z)
            (onChange : JsVal -> JsVal).

(** [{ ...sf, key }] and [String(def.type || "text").toLowerCase()]. *)
Definition subfieldDef (sf : JsVal) : JsVal :=
  JObj (obj_set (spread sf) "key" (JStr (subfieldKey sf))).

Definition subfieldType (sf : JsVal) : string :=
  toLowerCase (toStr (or_else (getProp (subfieldDef sf) "type") (JStr "text"))).

Definition renderSubfieldCell (value : JsVal) (sf : JsVal) (rowIndex : nat)
    (row : JsVal) : Cell :=
  let key := subfieldKey sf in
  if negb (nonEmpty key) then CellNone
  else
    let visibility := computeSubfieldVisibility subfields rules row in
    match visibility !! key with
    | Some false => CellNone
    | _ =>
        let def := subfieldDef sf in
        let sfType := subfieldType sf in
        if String.eqb sfType "repeater" && negb canNestMore
        then CellInert key depth
        else CellInput key def (optGet row key) (depth + 1)
                       (fun nextVal => setRow value rowIndex key nextVal)
    end.


End Component.


(** ** What the properties speak about *)

(** The two operations on the row count, and the field's value after a
    handler ran: the value given to [onChange], or the old one when the
    handler returned early. *)
Inductive RowOp : Type :=
| Append
| Remove (i : nat).

Definition applyOp (field value : JsVal) (op : RowOp) : JsVal :=
  match op with
  | Append => default value (addRow field value)
  | Remove i => default value (removeRow field value i)
  end.

Definition applyOps (field : JsVal) (ops : list RowOp) (value : JsVal) : JsVal :=
  fold_left (applyOp field) ops value.

(** The row count lies between the configured bounds; a bound that is not
    configured does not constrain it. *)
Definition withinBounds (field value : JsVal) : Prop :=
  (forall lo, minRows field = Some lo -> dy_leb lo (ofInt (rowCount value)) = true)
  /\ (forall hi, maxRows field = Some hi -> dy_leb (ofInt (rowCount value)) hi = true).

(** The bound is a whole number. *)
Definition whole (bound : Dyadic) : Prop := exists z, bound = ofInt z.


End Repeater.

(* ===================================================================== *)
(** * Title derivation (API server) *)
(* ===================================================================== *)

Module Title.
Import Js.

(** One step of the loop of [getByPath]. *)
Definition walkStep (cur : JsVal) (p : string) : JsVal :=
  if is_nullish cur then JUndefined else getProp cur p.

Definition pathParts (path : string) : list string :=
  List.filter nonEmpty (List.map trim (split "." path)).

Definition getByPath (obj : JsVal) (path : string) : JsVal :=
  if negb (nonEmpty path) then JUndefined
  else fold_left walkStep (pathParts path) obj.

(** ** [JSON.stringify] *)

Definition quoteChar : ascii := ascii_of_nat 34.
Definition backslash : ascii := ascii_of_nat 92.

Definition hexDigit (n : nat) : ascii :=
  if (n <? 10)%nat then ascii_of_nat (48 + n) else ascii_of_nat (87 + n).

Definition escapeChar (c : ascii) : string :=
  let n := code c in
  if Ascii.eqb c quoteChar then String backslash (String quoteChar EmptyString)
  else if Ascii.eqb c backslash then String backslash (String backslash EmptyString)
  else if (n =? 8)%nat then String backslash "b"
  else if (n =? 12)%nat then String backslash "f"
  else if (n =? 10)%nat then String backslash "n"
  else if (n =? 13)%nat then String backslash "r"
  else if (n =? 9)%nat then String backslash "t"
  else if (n <? 32)%nat
    then String backslash
           ("u00" +:+ String (hexDigit (n / 16)) (String (hexDigit (n mod 16)) EmptyString))
  else String c EmptyString.

Fixpoint escapeString (s : string) : string :=
  match s with
  | EmptyString => EmptyString
  | String c r => escapeChar c +:+ escapeString r
  end.

Definition jsonQuote (s : string) : string :=
  String quoteChar (escapeString s) +:+ String quoteChar EmptyString.

(** [JSON.stringify(v)]; [None] where it yields [undefined]. Inside an
    array [undefined] is written [null], inside an object the property is
    left out. *)
Fixpoint stringify (v : JsVal) : option string :=
  match v with
  | JUndefined => None
  | JNull => Some "null"
  | JBool true => Some "true"
  | JBool false => Some "false"
  | JNum _ | JFrac _ _ => Some (toStr v)
  | JStr s => Some (jsonQuote s)
  | JArr l =>
      Some ("[" +:+ join "," (List.map (fun e => default "null" (stringify e)) l) +:+ "]")
  | JObj o =>
      let member := fix member (o : list (string * JsVal)) : list string :=
        match o with
        | [] => []
        | (k, x) :: r =>
            match stringify x with
            | Some t => (jsonQuote k +:+ ":" +:+ t) :: member r
            | None => member r
            end
        end in
      Some ("{" +:+ join "," (member o) +:+ "}")
  end.

(** ** [asPrettyInline] *)

Definition looksLikeName (value : JsVal) : bool :=
  hasOwn value "first" || hasOwn value "last" || hasOwn value "middle"
  || hasOwn value "title" || hasOwn value "suffix".

(** The name branch: [bits.join(' ').trim()], then the suffix. *)
Definition prettyName (value : JsVal) : string :=
  let part k := or_else (getProp value k) (JStr "") in
  let first := part "first" in
  let last := part "last" in
  let middle := part "middle" in
  let title := part "title" in
  let suffix := part "suffix" in
  let bits :=
    (if truthy title then [toStr title] else [])
    ++ (if truthy first then [toStr first] else [])
    ++ (if truthy middle then [toStr middle] else [])
    ++ (if truthy last then [toStr last] else []) in
  let out := trim (join " " bits) in
  if truthy suffix then trim (out +:+ " " +:+ toStr suffix) else out.

Fixpoint asPrettyInline (value : JsVal) : string :=
  match value with
  | JUndefined | JNull => EmptyString
  | JStr _ | JNum _ | JFrac _ _ | JBool _ => toStr value
  | JArr l => join ", " (List.filter nonEmpty (List.map asPrettyInline l))
  | JObj _ =>
      if looksLikeName value then prettyName value
      else default (toStr value) (stringify value)
  end.

(** ** [deriveTitleFromTemplate] *)

(** The callback given to [replace]. *)
Definition tokenValue (data : JsVal) (tokenRaw : string) : string :=
  let token := trim tokenRaw in
  if negb (nonEmpty token) then EmptyString
  else asPrettyInline (getByPath data token).

(** [tpl.replace(/\{([^}]+)\}/g, callback)] as a left-to-right scan. After
    an opening brace the scan collects everything up to the next closing
    brace; a closing brace right after the opening one is no match, and an
    opening brace that is never closed leaves the rest of the text as it
    is. *)
Fixpoint scanTokens (data : JsVal) (open : option string) (s : string) : string :=
  match s with
  | EmptyString =>
      match open with
      | None => EmptyString
      | Some buf => String "{" buf
      end
  | String c r =>
      match open with
      | None =>
          if Ascii.eqb c "{" then scanTokens data (Some EmptyString) r
          else String c (scanTokens data None r)
      | Some buf =>
          if Ascii.eqb c "}"
          then (if nonEmpty buf then tokenValue data buf +:+ scanTokens data None r
                else String "{" (String "}" (scanTokens data None r)))
          else scanTokens data (Some (buf +:+ String c EmptyString)) r
      end
  end.

Definition substitute (data : JsVal) (tpl : string) : string :=
  scanTokens data None tpl.

Definition deriveTitleFromTemplate (template data : JsVal) : string :=
  let tpl := toStr (or_else template (JStr "")) in
  if negb (nonEmpty (trim tpl)) then EmptyString
  else trim (collapseSpaces (substitute data tpl)).

(** ** What the properties speak about *)

(** The walk of [getByPath] from [cur] along [parts] reads values of the
    data only: every step from a value that is not [null] or [undefined]
    is a read of the data. *)
Fixpoint walksData (cur : JsVal) (parts : list string) : bool :=
  match parts with
  | [] => true
  | p :: rest =>
      (is_nullish cur || readsData cur p) && walksData (walkStep cur p) rest
  end.

Fixpoint hasChar (c : ascii) (s : string) : bool :=
  match s with
  | EmptyString => false
  | String x r => Ascii.eqb x c || hasChar c r
  end.

(** A text in which white space only occurs as single spaces between
    other characters. *)
Fixpoint spacesNormal_aux (prevSpace : bool) (s : string) : bool :=
  match s with
  | EmptyString => negb prevSpace
  | String c r =>
      if is_space c
      then Ascii.eqb c " " && negb prevSpace && spacesNormal_aux true r
      else spacesNormal_aux false r
  end.

Definition spacesNormal (s : string) : bool :=
  match s with
  | EmptyString => true
  | _ => spacesNormal_aux true s
  end.

Fixpoint allSpaces (s : string) : bool :=
  match s with
  | EmptyString => true
  | String c r => is_space c && allSpaces r
  end.

(** White space only occurs as single spaces; [prevSpace] tells whether a
    space came just before. *)
Fixpoint collapsed (prevSpace : bool) (s : string) : bool :=
  match s with
  | EmptyString => true
  | String c r =>
      if is_space c then Ascii.eqb c " " && negb prevSpace && collapsed true r
      else collapsed false r
  end.

End Title.

(* ===================================================================== *)
(** * Entry normalization (API server) *)
(* ===================================================================== *)

Module Normalize.
Import Js.

(** A row of [content_fields] as the entry routes select it:
    [field_key AS key, type]. *)
Record FieldDef := { key : string; type : string }.

(** [snake.replace(/_([a-z])/g, (_, c) => c.toUpperCase())]. *)
Fixpoint camelCase (s : string) : string :=
  match s with
  | EmptyString => EmptyString
  | String a r =>
      if Ascii.eqb a "_"
      then match r with
           | String c r' =>
               if is_lower c then String (upcase c) (camelCase r')
               else String a (camelCase r)
           | EmptyString => String a EmptyString
           end
      else String a (camelCase r)
  end.

(** The objects a request handler holds live in a store; [normalizeEntryData]
    receives the location of the payload and returns a location. *)
Definition deref (h : gmap nat JsVal) (l : nat) : JsVal :=
  default JUndefined (h !! l).

Section Canonicalizers.
(** Modelled from the spec: the four canonicalizers imported from
    [lib/fieldUtils.js], a module of the API server that is not embedded. The
    spec gives them as dedicated per-type canonicalizers that may fail on
    a malformed value; here each is an arbitrary function of the value,
    [None] when it throws. *)
Variable normalizeEmail : JsVal -> option JsVal.
Variable normalizePhoneE164 : JsVal -> string -> option JsVal.
Variable normalizeUrl : JsVal -> option JsVal.
Variable normalizeAddress : JsVal -> option JsVal.

(** The body of the first loop. *)
Definition aliasStep (out : Props) (f : FieldDef) : Props :=
  let snake := key f in
  let camel := camelCase snake in
  if is_defined (obj_get out camel) && negb (is_defined (obj_get out snake))
  then obj_delete (obj_set out snake (obj_get out camel)) camel
  else out.

Definition aliasLoop (fieldDefs : list FieldDef) (out : Props) : Props :=
  fold_left aliasStep fieldDefs out.

(** The canonicalizer the [switch] selects for a field type, if any. *)
Definition canonicalizerOf (t : string) : option (JsVal -> option JsVal) :=
  if String.eqb t "email" then Some normalizeEmail
  else if String.eqb t "phone" then Some (fun v => normalizePhoneE164 v "US")
  else if String.eqb t "url" then Some normalizeUrl
  else if String.eqb t "address" then Some normalizeAddress
  else None.

(** The body of the second loop; [None] when the canonicalizer throws. *)
Definition canonStep (out : Props) (f : FieldDef) : option Props :=
  let k := key f in
  let v := obj_get out k in
  match canonicalizerOf (type f) with
  | Some canon =>
      match canon v with
      | Some v' => Some (obj_set out k v')
      | None => None
      end
  | None => Some out
  end.

(** The second loop: the object as it stands when the loop ends, and
    whether it ended normally. *)
Fixpoint canonLoop (fieldDefs : list FieldDef) (out : Props) : Props * bool :=
  match fieldDefs with
  | [] => (out, true)
  | f :: r =>
      match canonStep out f with
      | Some out' => canonLoop r out'
      | None => (out, false)
      end
  end.

(** The [try] block on the value of the payload. *)
Definition tryNormalize (fieldDefs : list FieldDef) (dataIn : JsVal) : Props * bool :=
  let out := spread (or_else dataIn (JObj [])) in
  canonLoop fieldDefs (aliasLoop fieldDefs out).

(** [normalizeEntryData(fieldDefs, dataIn)]: [out] is a new object of the
    store; the result is [out], or [dataIn] itself from the [catch]. *)
Definition normalizeEntryData (h : gmap nat JsVal) (fieldDefs : list FieldDef)
    (dataIn : nat) : gmap nat JsVal * nat :=
  let out := fresh (dom h) in
  let '(props, completed) := tryNormalize fieldDefs (deref h dataIn) in
  (<[out := JObj props]> h, if completed then out else dataIn).

(** The payload a caller reads back. *)
Definition normalized (h : gmap nat JsVal) (fieldDefs : list FieldDef)
    (dataIn : nat) : JsVal :=
  let '(h', r) := normalizeEntryData h fieldDefs dataIn in deref h' r.

(** The key of [f] holds a value its canonicalizer returns unchanged. *)
Definition settled (o : Props) (f : FieldDef) : Prop :=
  forall canon, canonicalizerOf (type f) = Some canon ->
    obj_has o (key f) = true /\ canon (obj_get o (key f)) = Some (obj_get o (key f)).

End Canonicalizers.

(** ** What the properties speak about *)

Fixpoint noUpper (s : string) : bool :=
  match s with
  | EmptyString => true
  | String c r => negb (is_upper c) && noUpper r
  end.

(** A field list as the data model has it: snake_case keys, each once. *)
Definition snakeKeys (fieldDefs : list FieldDef) : Prop :=
  Forall (fun f => noUpper (key f) = true) fieldDefs.

(** No key of the list and no camelCase alias of one names a member of
    [Object.prototype]: every read [out[camel]], [out[snake]] and [out[k]]
    of the two loops is then a read of the copy's own data, and every write
    sets an own property. *)
Definition dataKeys (fieldDefs : list FieldDef) : bool :=
  forallb (fun f => negb (objectPrototypeMember (key f))
                    && negb (objectPrototypeMember (camelCase (key f))))
          fieldDefs.

(** The inverse of [camelCase] on keys without upper-case letters. *)
Fixpoint snakeCase (s : string) : string :=
  match s with
  | EmptyString => EmptyString
  | String c r =>
      if is_upper c then String "_" (String (downcase c) (snakeCase r))
      else String c (snakeCase r)
  end.

(** The text has an underscore followed by a lower-case letter, the
    pattern [camelCase] rewrites. *)
Fixpoint hasAliasMark (s : string) : bool :=
  match s with
  | EmptyString => false
  | String a r =>
      (Ascii.eqb a "_" && match r with
                          | String c _ => is_lower c
                          | EmptyString => false
                          end)
      || hasAliasMark r
  end.

(** The field has one of the four types with a canonicalizer. *)
Definition typed (f : FieldDef) : bool :=
  String.eqb (type f) "email" || String.eqb (type f) "phone"
  || String.eqb (type f) "url" || String.eqb (type f) "address".

(** The alias of the key [k] is present and [k] is absent in [p]. *)
Definition aliasPending (p : Props) (k : string) : bool :=
  is_defined (obj_get p (camelCase k)) && negb (is_defined (obj_get p k)).

(** ** Concrete canonicalizers and a payload *)

(** Canonicalizers for concrete inputs: an e-mail address is put in lower
    case, a phone number must be a text, a URL is kept, an address must be
    an object. *)
Definition lowerEmail (v : JsVal) : option JsVal :=
  match v with
  | JStr s => Some (JStr (toLowerCase s))
  | _ => Some v
  end.

Definition textPhone (v : JsVal) (region : string) : option JsVal :=
  match v with
  | JUndefined | JStr _ => Some v
  | _ => None
  end.

Definition keepUrl (v : JsVal) : option JsVal := Some v.

Definition objectAddress (v : JsVal) : option JsVal :=
  match v with
  | JUndefined | JObj _ => Some v
  | _ => Some JNull
  end.

Definition throwingEmail (v : JsVal) : option JsVal := None.

Definition contactFields : list FieldDef :=
  [ {| key := "first_name"; type := "text" |};
    {| key := "work_email"; type := "email" |};
    {| key := "phone"; type := "phone" |} ].

Definition contactPayload : JsVal :=
  JObj [("firstName", JStr "Ada"); ("workEmail", JStr "Ada@Example.COM");
        ("phone", JStr "+15550100")].

Definition contactStore : gmap nat JsVal := {[ 4%nat := contactPayload ]}.

End Normalize.

(* ===================================================================== *)
(** * Relation resolution and the entry read routes (API server) *)
(* ===================================================================== *)

Module Relations.
Import Js.

Fixpoint takeHex (n : nat) (s : string) : option string :=
  match n with
  | O => Some s
  | S m =>
      match s with
      | String c r => if is_hex c then takeHex m r else None
      | EmptyString => None
      end
  end.

Definition takeDash (s : string) : option string :=
  match s with
  | String c r => if Ascii.eqb c "-" then Some r else None
  | EmptyString => None
  end.

(** The pattern of [isUuid]: 8-4-4-4-12 hexadecimal digits, either case,
    and nothing else. *)
Definition takeGroup (n : nat) (s : string) : option string :=
  match takeHex n s with
  | Some r => takeDash r
  | None => None
  end.

Definition uuidShape (s : string) : bool :=
  match takeGroup 8 s with
  | Some s1 =>
      match takeGroup 4 s1 with
      | Some s2 =>
          match takeGroup 4 s2 with
          | Some s3 =>
              match takeGroup 4 s3 with
              | Some s4 =>
                  match takeHex 12 s4 with
                  | Some EmptyString => true
                  | _ => false
                  end
              | None => false
              end
          | None => false
          end
      | None => false
      end
  | None => false
  end.

Definition isUuid (value : JsVal) : bool :=
  uuidShape (trim (toStr (or_else value (JStr "")))).

(** [typeof v === 'object']. *)
Definition isObjectType (v : JsVal) : bool :=
  match v with JNull | JArr _ | JObj _ => true | _ => false end.

(** The argument of [attachResolvedUsersToEntries]: the rows of a list
    fetch or the one row of a detail fetch. *)
Inductive Entries : Type :=
| Many (rows : list Props)
| One (row : Props).

Definition asList (entries : Entries) : list Props :=
  match entries with Many l => l | One e => [e] end.

(** The per-field configuration built from one [content_fields] row. *)
Definition userFieldConfig (f : Props) : JsVal :=
  let config := obj_get f "config" in
  let cfg := if truthy config && isObjectType config then config else JObj [] in
  JObj [ ("multiple", JBool (truthy (getProp cfg "multiple")));
         ("display", or_else (getProp cfg "display") (JStr "name_email"));
         ("roleFilter", or_else (getProp cfg "roleFilter") (JStr ""));
         ("onlyActive",
          if is_defined (getProp cfg "onlyActive")
          then JBool (truthy (getProp cfg "onlyActive")) else JBool true) ].

Definition buildUserFields (userFieldRows : list Props) : Props :=
  fold_left
    (fun userFields f =>
       obj_set userFields (toStr (obj_get f "field_key")) (userFieldConfig f))
    userFieldRows [].

(** [idsSet.add(id)]. *)
Definition setAdd (ids : list string) (id : string) : list string :=
  if existsb (String.eqb id) ids then ids else ids ++ [id].

Definition collectFromValue (ids : list string) (v : JsVal) : list string :=
  match v with
  | JArr l =>
      fold_left (fun ids maybeId =>
                   if isUuid maybeId then setAdd ids (toStr maybeId) else ids) l ids
  | _ => if isUuid v then setAdd ids (toStr v) else ids
  end.

Definition collectFromEntry (userFields : Props) (ids : list string) (entry : Props)
    : list string :=
  let d := obj_get entry "data" in
  let data := if truthy d && isObjectType d then d else JObj [] in
  fold_left (fun ids fieldKey => collectFromValue ids (getProp data fieldKey))
            (List.map fst userFields) ids.

Definition collectIds (userFields : Props) (entryList : list Props) : list string :=
  fold_left (collectFromEntry userFields) entryList [].

(** [target.k = v] in strict mode: it adds or replaces a property of an
    object, leaves no trace in the data of an array, and throws on a
    primitive. *)
Definition assignProp (target : JsVal) (k : string) (v : JsVal) : option JsVal :=
  match target with
  | JObj o => Some (JObj (obj_set o k v))
  | JArr l => Some (JArr l)
  | _ => None
  end.

(** The three statements run on each entry; [usersByIdOf] gives the value
    stored under [usersById] from the one already there. *)
Definition attachContext (userFields : Props) (usersByIdOf : JsVal -> JsVal)
    (entry : Props) : option Props :=
  let r0 := or_else (obj_get entry "_resolved") (JObj []) in
  r1 ← assignProp r0 "userFields" (JObj userFields);
  r2 ← assignProp r1 "usersById" (usersByIdOf (getProp r1 "usersById"));
  Some (obj_set entry "_resolved" r2).

Definition reshape (entries : Entries) (entryList : list Props) : Entries :=
  match entries with
  | Many _ => Many entryList
  | One e => One (List.hd e entryList)
  end.

(** [usersById[u.id] = u] for each row of the user lookup. *)
Definition indexUsers (users : list Props) : Props :=
  fold_left (fun m u => obj_set m (toStr (obj_get u "id")) (JObj u)) users [].

Section Store.
(** The data store: each query is a function of its parameters, [None]
    when the round trip fails. *)
Variable queryTypeBySlug : string -> option (list Props).
Variable queryEntries : JsVal -> option (list Props).
Variable queryEntry : bool -> string -> JsVal -> option (list Props).
Variable queryUserFields : JsVal -> option (list Props).
Variable queryUsers : list string -> option (list Props).

(** [attachResolvedUsersToEntries(typeId, entries)]; the entries are
    changed in place, so the result is what the caller holds afterwards.
    [None] when a query rejects or an assignment throws. *)
Definition attachResolvedUsersToEntries (typeId : JsVal) (entries : Entries)
    : option Entries :=
  let entryList := asList entries in
  if negb (truthy typeId) || Nat.eqb (List.length entryList) 0 then Some entries
  else
    userFieldRows ← queryUserFields typeId;
    if Nat.eqb (List.length userFieldRows) 0 then Some entries
    else
      let userFields := buildUserFields userFieldRows in
      let ids := collectIds userFields entryList in
      if Nat.eqb (List.length ids) 0
      then
        list' ← mapM (attachContext userFields (fun old => or_else old (JObj []))) entryList;
        Some (reshape entries list')
      else
        users ← queryUsers ids;
        let usersById := indexUsers users in
        list' ← mapM (attachContext userFields (fun _ => JObj usersById)) entryList;
        Some (reshape entries list').




End Store.

(** ** What the properties speak about *)


(** The entry with the resolution context attached. *)
Definition withContext (userFields usersById : Props) (entry : Props) : Props :=
  obj_set entry "_resolved"
    (JObj [("userFields", JObj userFields); ("usersById", JObj usersById)]).



(** ** A concrete store *)

(** A store with one content type and one entry whose [owner] refers to a
    user; [fieldRows] are its [relation_user] fields and [users] the
    outcome of the batched user lookup. *)
Definition ownerId : string := "123e4567-e89b-12d3-a456-426614174000".

Definition ownedEntry : Props :=
  [("id", JNum 1); ("title", JStr "Hello"); ("data", JObj [("owner", JStr ownerId)])].

Definition ownerField : Props :=
  [("field_key", JStr "owner"); ("type", JStr "relation_user"); ("config", JNull)].


End Relations.

(* ===================================================================== *)
(** * The view layout compiler (entry editor page) *)
(* ===================================================================== *)

Module Layout.
Import Js.

(** One cell of a section: the field definition and its width. *)
Record Row := { def : JsVal; width : JsVal }.

(** A compiled section. *)
Record Section_ := { id : JsVal; title : JsVal; columns : JsVal; rows : list Row }.

(** The [map] and [filter] that give [fields]: each raw field with a key,
    its key copied to [key]. *)
Definition keyedField (f : JsVal) : option JsVal :=
  if negb (truthy f) then None
  else
    let key := or_else (getProp f "field_key") (getProp f "key") in
    if truthy key then Some (JObj (obj_set (spread f) "key" key)) else None.

Definition fieldsOf (contentType : JsVal) : list JsVal :=
  let rawFields :=
    match getProp contentType "fields" with JArr l => l | _ => [] end in
  omap keyedField rawFields.

Definition buildFieldsByKey (fields : list JsVal) : Props :=
  fold_left
    (fun fieldsByKey f =>
       if truthy f && truthy (getProp f "key")
       then obj_set fieldsByKey (toStr (getProp f "key")) f
       else fieldsByKey)
    fields [].

(** [viewConfig && Array.isArray(viewConfig.sections) ? viewConfig.sections : null]. *)
Definition cfgSectionsOf (viewConfig : JsVal) : option (list JsVal) :=
  if truthy viewConfig
  then match getProp viewConfig "sections" with
       | JArr l => Some l
       | _ => None
       end
  else None.

Definition columnsOf (sec : JsVal) : JsVal :=
  let fromLayout :=
    match getProp sec "layout" with
    | JStr l =>
        if includes l "three" then JNum 3
        else if includes l "two" then JNum 2
        else JNum 1
    | _ => JNum 1
    end in
  match getProp sec "columns" with
  | JNum n => if negb (n =? 0) then JNum n else fromLayout
  | _ => fromLayout
  end.

(** The body of the loop over a section's field references: the row it
    pushes, if any. *)
Definition rowOf (fieldsByKey : Props) (fCfgRaw : JsVal) : option Row :=
  let '(key, width, visible) :=
    match fCfgRaw with
    | JStr _ => (fCfgRaw, JNum 1, true)
    | JArr _ | JObj _ =>
        (or_else (or_else (or_else (getProp fCfgRaw "key") (getProp fCfgRaw "field_key"))
                          (getProp fCfgRaw "field"))
                 (getProp fCfgRaw "id"),
         or_else (or_else (getProp fCfgRaw "width") (getProp fCfgRaw "colSpan")) (JNum 1),
         match getProp fCfgRaw "visible" with JBool b => b | _ => true end)
    | _ => (JUndefined, JNum 1, true)
    end in
  if negb (truthy key) || negb visible then None
  else
    let found := obj_get fieldsByKey (toStr key) in
    Some {| def := or_else found (JObj [("key", key); ("type", JStr "builtin")]);
            width := width |}.

(** What [for (const x of v)] runs over; [None] when [v] is not iterable. *)
Definition iterate (v : JsVal) : option (list JsVal) :=
  match v with
  | JArr l => Some l
  | JStr s => Some (string_chars s)
  | _ => None
  end.

(** One configured section: [None] when reading it throws, otherwise the
    section it pushes, if it has a row. *)
Definition compileSection (fieldsByKey : Props) (sec : JsVal)
    : option (option Section_) :=
  if is_nullish sec then None
  else
    match iterate (or_else (getProp sec "fields") (JArr [])) with
    | None => None
    | Some refs =>
        let rows := omap (rowOf fieldsByKey) refs in
        Some (match rows with
              | [] => None
              | _ => Some {| id := or_else (getProp sec "id") (JStr "section");
                             title := or_else (getProp sec "title") (JStr "Section");
                             columns := columnsOf sec;
                             rows := rows |}
              end)
    end.

Fixpoint compileSections (fieldsByKey : Props) (cfgSections : list JsVal)
    : option (list Section_) :=
  match cfgSections with
  | [] => Some []
  | sec :: rest =>
      match compileSection fieldsByKey sec with
      | None => None
      | Some pushed =>
          match compileSections fieldsByKey rest with
          | None => None
          | Some more =>
              Some (match pushed with Some s => s :: more | None => more end)
          end
      end
  end.

(** The section of the fallback. *)
Definition allFieldsSection (fields : list JsVal) : Section_ :=
  {| id := JStr "main"; title := JStr "Fields"; columns := JNum 1;
     rows := List.map (fun d => {| def := d; width := JNum 1 |}) fields |}.

(** [buildLayoutFromView(contentType, viewConfig)]; [None] when it throws. *)
Definition buildLayoutFromView (contentType viewConfig : JsVal)
    : option (list Section_) :=
  if negb (truthy contentType) then Some []
  else
    let fields := fieldsOf contentType in
    let fieldsByKey := buildFieldsByKey fields in
    let cfgSections := cfgSectionsOf viewConfig in
    let hasAnyViewSectionsConfig :=
      match cfgSections with Some _ => true | None => false end in
    match compileSections fieldsByKey (default [] cfgSections) with
    | None => None
    | Some sections =>
        if Nat.eqb (List.length sections) 0
           && negb (Nat.eqb (List.length fields) 0)
           && negb hasAnyViewSectionsConfig
        then Some (sections ++ [allFieldsSection fields])
        else Some sections
    end.

(** ** What the properties speak about *)

(** The field references of a view configuration, section by section. *)
Definition refsOf (viewConfig : JsVal) : list JsVal :=
  flat_map (fun sec => default [] (iterate (or_else (getProp sec "fields") (JArr []))))
           (default [] (cfgSectionsOf viewConfig)).

(** A reference names no member of [Object.prototype]: neither as a text
    nor under one of the four properties its key is taken from. The read
    [fieldsByKey[key]] is then a read of the lookup's own entries. *)
Definition dataRef (fCfgRaw : JsVal) : bool :=
  match fCfgRaw with
  | JStr k => negb (objectPrototypeMember k)
  | JArr _ | JObj _ =>
      forallb (fun p => negb (objectPrototypeMember (toStr (getProp fCfgRaw p))))
              ["key"; "field_key"; "field"; "id"]
  | _ => true
  end.

(** No field is keyed [__proto__]: the write [fieldsByKey[f.key] = f] then
    adds an entry to the lookup. *)
Definition dataField (f : JsVal) : bool :=
  negb (String.eqb (toStr (getProp f "key")) "__proto__").

End Layout.

(* ===================================================================== *)
(** * Slugs (API server, entry editor, view builder) *)
(* ===================================================================== *)

Module Slug.
Import Js.

(** The class [[a-z0-9]]. *)
Definition is_slugChar (c : ascii) : bool := is_lower c || is_digit c.

(** [s.replace(/[^a-z0-9]+/g, '-')]: every maximal run of characters
    outside the class becomes one hyphen; [inRun] tells whether the scan is
    inside a run. *)
Fixpoint hyphenate_aux (inRun : bool) (s : string) : string :=
  match s with
  | EmptyString => EmptyString
  | String c r =>
      if is_slugChar c then String c (hyphenate_aux false r)
      else if inRun then hyphenate_aux true r
      else String "-" (hyphenate_aux true r)
  end.

Definition hyphenate (s : string) : string := hyphenate_aux false s.

(** [s.replace(/^-+|-+$/g, '')]: the hyphens at the start, then those at
    the end. *)
Fixpoint dropHyphensStart (s : string) : string :=
  match s with
  | String c r => if Ascii.eqb c "-" then dropHyphensStart r else s
  | EmptyString => EmptyString
  end.

Fixpoint dropHyphensEnd (s : string) : string :=
  match s with
  | EmptyString => EmptyString
  | String c r =>
      match dropHyphensEnd r with
      | EmptyString => if Ascii.eqb c "-" then EmptyString else String c EmptyString
      | r' => String c r'
      end
  end.

Definition stripHyphens (s : string) : string :=
  dropHyphensEnd (dropHyphensStart s).

(** [slugify(str)], the same text in the create and update routes of the
    server, in the entry editor and in the view builder. *)
Definition slugify (str : JsVal) : string :=
  stripHyphens (hyphenate (toLowerCase (trim (toStr (or_else str (JStr "")))))).

(** ** What the properties speak about *)

Fixpoint lastChar (s : string) : option ascii :=
  match s with
  | EmptyString => None
  | String c EmptyString => Some c
  | String _ r => lastChar r
  end.

(** Only characters of the class and hyphens, and no hyphen right after a
    hyphen; [prevHyphen] tells whether a hyphen came just before. *)
Fixpoint hyphenated (prevHyphen : bool) (s : string) : bool :=
  match s with
  | EmptyString => true
  | String c r =>
      if Ascii.eqb c "-" then negb prevHyphen && hyphenated true r
      else is_slugChar c && hyphenated false r
  end.

(** The same, and the text does not end with a hyphen. *)
Fixpoint slugBody (prevHyphen : bool) (s : string) : bool :=
  match s with
  | EmptyString => negb prevHyphen
  | String c r =>
      if Ascii.eqb c "-" then negb prevHyphen && slugBody true r
      else is_slugChar c && slugBody false r
  end.

(** A slug in normal form: empty, or words of [[a-z0-9]] joined by single
    hyphens. *)
Definition slugText (s : string) : bool :=
  match s with
  | EmptyString => true
  | _ => slugBody true s
  end.

End Slug.

(* ===================================================================== *)
(** * Vocabulary for the identifiers of relation resolution *)
(* ===================================================================== *)

Module Resolution.
Import Js.

(** The positions of the four hyphens in the 36 characters of a UUID. *)
Definition dashAt (i : nat) : bool :=
  (i =? 8)%nat || (i =? 13)%nat || (i =? 18)%nat || (i =? 23)%nat.

(** A text matches a pattern of hyphens ([true]) and hexadecimal digits
    ([false]) position by position. *)
Fixpoint matchPattern (pat : list bool) (s : string) : bool :=
  match pat, s with
  | [], EmptyString => true
  | dash :: pat', String c r =>
      (if dash then Ascii.eqb c "-" else is_hex c) && matchPattern pat' r
  | _, _ => false
  end.

Definition uuidPattern : list bool :=
  repeat false 8 ++ [true] ++ repeat false 4 ++ [true] ++ repeat false 4
  ++ [true] ++ repeat false 4 ++ [true] ++ repeat false 12.

(** The invariant of the set of collected ids: no id twice, each the text
    of a UUID once trimmed. *)
Definition idsOk (ids : list string) : Prop :=
  NoDup ids /\ Forall (fun id => Relations.uuidShape (trim id) = true) ids.

(** Every property of the old entry but [_resolved] is a property of the
    new one. *)
Definition sameColumns (old new : Props) : Prop :=
  forall k, k <> "_resolved" -> obj_get new k = obj_get old k.

End Resolution.

(* ===================================================================== *)
(** * Repeater rows: duplication, patches and row labels (FieldInput.jsx) *)
(* ===================================================================== *)

Module Rows.
Import Js Repeater.

(** [JSON.parse(JSON.stringify(v))] for a value that is not [undefined]:
    the value the JSON text of [v] denotes. An [undefined] element of an
    array comes back as [null], an [undefined] property of an object is
    left out. *)
Fixpoint jsonValue (v : JsVal) : JsVal :=
  match v with
  | JArr l => JArr (List.map (fun e => if is_defined e then jsonValue e else JNull) l)
  | JObj o =>
      let members := fix members (o : list (string * JsVal)) : list (string * JsVal) :=
        match o with
        | [] => []
        | (k, x) :: r =>
            if is_defined x then (k, jsonValue x) :: members r else members r
        end in
      JObj (members o)
  | _ => v
  end.

(** [l.splice(k, 0, x)] on a copy of [l]: a position past the end is the
    end. *)
Definition insertAt {A} (k : nat) (x : A) (l : list A) : list A :=
  firstn k l ++ x :: skipn k l.

(** [duplicateRow(i)]; [None] when it returns without calling [onChange].
    The row handed to [JSON.stringify] is an object, never [undefined]. *)
Definition duplicateRow (field value : JsVal) (i : nat) : option JsVal :=
  let rows := rowsOf value in
  let clone := jsonValue (or_else (nth i rows JUndefined) (JObj [])) in
  let next := JArr (insertAt (S i) clone rows) in
  match maxRows field with
  | Some hi => if dy_leb hi (ofInt (rowCount value)) then None else Some next
  | None => Some next
  end.

(** ** Row labels *)

(** [s.replace(/\{#\}/g, n)]. *)
Fixpoint replaceHash (n : string) (s : string) : string :=
  match s with
  | String "{" (String "#" (String "}" r)) => n +:+ replaceHash n r
  | String c r => String c (replaceHash n r)
  | EmptyString => EmptyString
  end.

(** [s.replace(/\{([^}]+)\}/g, (_, k) => f(k))] as a left-to-right scan:
    after an opening brace the scan collects everything up to the next
    closing brace; a closing brace right after the opening one is no match,
    and an opening brace that is never closed leaves the rest as it is. *)
Fixpoint scanWith (f : string -> string) (open : option string) (s : string) : string :=
  match s with
  | EmptyString =>
      match open with
      | None => EmptyString
      | Some buf => String "{" buf
      end
  | String c r =>
      match open with
      | None =>
          if Ascii.eqb c "{" then scanWith f (Some EmptyString) r
          else String c (scanWith f None r)
      | Some buf =>
          if Ascii.eqb c "}"
          then (if nonEmpty buf then f buf +:+ scanWith f None r
                else String "{" (String "}" (scanWith f None r)))
          else scanWith f (Some (buf +:+ String c EmptyString)) r
      end
  end.

(** The callback of the second [replace]. *)
Definition rowText (row : JsVal) (k : string) : string :=
  let key := trim k in
  if negb (nonEmpty key) then EmptyString
  else
    let v := optGet row key in
    if is_nullish v then EmptyString else toStr v.

(** [String(index + 1)] for the index of a row. *)
Definition rowNumber (index : nat) : string := Z_to_string (Z.of_nat index + 1).

(** The two chained [replace] calls on a text [s]. *)
Definition fillRowLabel (row : JsVal) (index : nat) (s : string) : string :=
  scanWith (rowText row) None (replaceHash (rowNumber index) s).

Definition applyRowLabelTemplate (tpl row : JsVal) (index : nat) : string :=
  let s := trim (toStr (or_else tpl (JStr ""))) in
  if negb (nonEmpty s) then "Row " +:+ rowNumber index
  else fillRowLabel row index s.

(** ** What the properties speak about *)

(** The handlers that change the number of rows, and the field's value
    after a handler ran: the value given to [onChange], or the old one when
    the handler returned early. *)
Inductive Handler : Type :=
| OnAdd
| OnRemove (i : nat)
| OnDuplicate (i : nat).

Definition handle (field value : JsVal) (h : Handler) : JsVal :=
  match h with
  | OnAdd => default value (addRow field value)
  | OnRemove i => default value (removeRow field value i)
  | OnDuplicate i => default value (duplicateRow field value i)
  end.

Definition handleAll (field : JsVal) (hs : list Handler) (value : JsVal) : JsVal :=
  fold_left (handle field) hs value.

(** The [i]-th row of the field's value, as the component reads it. *)
Definition rowAt (value : JsVal) (i : nat) : JsVal := nth i (rowsOf value) JUndefined.

End Rows.

(* ===================================================================== *)
(** * The helpers of the entry editor page *)
(* ===================================================================== *)

Module Editor.
Import Js.

(** [getFieldConfig(def)] of the editor page. *)
Definition getFieldConfig (def : JsVal) : JsVal :=
  let config := Repeater.optGet def "config" in
  let options := Repeater.optGet def "options" in
  or_else
    (or_else (if truthy config && Repeater.isObjectType config then config else JNull)
             (if truthy options && Repeater.isObjectType options then options else JNull))
    (JObj []).

(** [getByPath(obj, path)] of the editor page. *)
Definition getByPath (obj : JsVal) (path : string) : JsVal :=
  if negb (nonEmpty path) then JUndefined
  else
    let parts := List.filter nonEmpty (List.map trim (split "." path)) in
    fold_left (fun cur p => if is_nullish cur then JUndefined else getProp cur p)
              parts obj.

(** [k in value] for an object of data: its own properties; the members of
    the builtin prototype are not among the keys asked for. *)
Definition hasKey (value : JsVal) (k : string) : bool :=
  match value with
  | JObj o => obj_has o k
  | _ => false
  end.

(** [asPrettyInline(value)] of the editor page: the object branch, which
    excludes arrays, comes before the array branch. *)
Fixpoint asPrettyInline (value : JsVal) : string :=
  match value with
  | JUndefined | JNull => EmptyString
  | JStr _ | JNum _ | JFrac _ _ | JBool _ => toStr value
  | JObj _ =>
      let part k := or_else (getProp value k) (JStr "") in
      let first := part "first" in
      let last := part "last" in
      let middle := part "middle" in
      let title := part "title" in
      let suffix := part "suffix" in
      let looksLikeName :=
        hasKey value "first" || hasKey value "last" || hasKey value "middle"
        || hasKey value "title" || hasKey value "suffix" in
      if looksLikeName
      then
        let bits :=
          (if truthy title then [toStr title] else [])
          ++ (if truthy first then [toStr first] else [])
          ++ (if truthy middle then [toStr middle] else [])
          ++ (if truthy last then [toStr last] else []) in
        let out := trim (join " " bits) in
        if truthy suffix then trim (out +:+ " " +:+ toStr suffix) else out
      else default (toStr value) (Title.stringify value)
  | JArr l => join ", " (List.filter nonEmpty (List.map asPrettyInline l))
  end.

(** [deriveTitleFromTemplate(template, data)] of the editor page. *)
Definition deriveTitleFromTemplate (template data : JsVal) : string :=
  let tpl := toStr (or_else template (JStr "")) in
  if negb (nonEmpty (trim tpl)) then EmptyString
  else
    let out :=
      Rows.scanWith
        (fun tokenRaw =>
           let token := trim tokenRaw in
           if negb (nonEmpty token) then EmptyString
           else asPrettyInline (getByPath data token))
        None tpl in
    trim (collapseSpaces out).

End Editor.

(* ===================================================================== *)
(** * The entry write routes (API server) *)
(* ===================================================================== *)

Module Writes.
Import Js.

(** [typeof v === 'string' && v.trim() ? v.trim() : ...]: the trimmed text,
    if [v] is a text that is not blank. *)
Definition trimmedText (v : JsVal) : option string :=
  match v with
  | JStr s => if nonEmpty (trim s) then Some (trim s) else None
  | _ => None
  end.

(** [v !== false]. *)
Definition notFalse (v : JsVal) : bool :=
  match v with JBool false => false | _ => true end.

(** [core && String(core.titleMode || '').toLowerCase() === 'template']. *)
Definition templateMode (core : JsVal) : bool :=
  truthy core
  && String.eqb (toLowerCase (toStr (or_else (getProp core "titleMode") (JStr ""))))
                "template".

(** [deriveTitleFromTemplate(core.titleTemplate || '', data || {})]. *)
Definition derivedTitle (core data : JsVal) : string :=
  Title.deriveTitleFromTemplate (or_else (getProp core "titleTemplate") (JStr ""))
                                (or_else data (JObj [])).

(** What the create and update routes compute from the request body and
    the editor core before they touch the entry: the title, slug and
    status to store. *)
Record Prepared := { title : string; slug : string; status : string }.

(** The statements between the lookup of the editor core and the query of
    the field definitions, the same text in both routes; [None] is the
    early return with status 400. *)
Definition prepare (core body : JsVal) : option Prepared :=
  let b := or_else body (JObj []) in
  let title := getProp b "title" in
  let entrySlug := getProp b "slug" in
  let status := getProp b "status" in
  let data := getProp b "data" in
  let title :=
    if templateMode core
    then (let derived := derivedTitle core data in
          if nonEmpty derived then JStr derived else title)
    else title in
  match trimmedText title with
  | None => None
  | Some safeTitle =>
      let entrySlug :=
        if (negb (truthy entrySlug) || negb (nonEmpty (trim (toStr entrySlug))))
           && notFalse (Repeater.optGet core "autoSlugFromTitleIfEmpty")
        then JStr (Slug.slugify (JStr safeTitle))
        else entrySlug in
      let finalSlug :=
        match trimmedText entrySlug with
        | Some s => s
        | None => Slug.slugify (JStr safeTitle)
        end in
      let finalStatus :=
        match trimmedText status with
        | Some s => s
        | None => "draft"
        end in
      Some {| title := safeTitle; slug := finalSlug; status := finalStatus |}
  end.

(** A statement that changes the store. *)
Inductive Write : Type :=
| InsertEntry (typeId : JsVal) (title slug status : string) (data : JsVal)
| UpdateEntry (byId : bool) (id : string) (typeId : JsVal)
              (title slug status : string) (data : JsVal)
| DeleteVersions (entryId : JsVal)
| DeleteEntry (entryId : JsVal) (typeId : option JsVal).

(** The outcome of a statement that changes the store: the rows it
    returns, or the [code] of the error it is rejected with. *)
Inductive Written : Type :=
| Returned (rows : list Props)
| Rejected (code : JsVal).

(** The outcome of [INSERT ... RETURNING *] of one row: that row, or the
    [code] of the error. *)
Inductive Inserted : Type :=
| InsertedRow (row : Props)
| InsertRejected (code : JsVal).

(** What a route sends. *)
Inductive Reply : Type :=
| SendRow (status : Z) (row : Props)
| SendOk
| SendError (status : Z) (error : string).

(** A run of a route: the statements the store accepted, in order, and the
    reply. *)
Record Run := { writes : list Write; reply : Reply }.

(** The [catch] of the write routes: a unique violation is a conflict. *)
Definition rejected (failure : string) (code : JsVal) : Reply :=
  match code with
  | JStr c =>
      if String.eqb c "23505"
      then SendError 409 "Slug already exists for this content type"
      else SendError 500 failure
  | _ => SendError 500 failure
  end.

Section Store.
(** The data store: each query is a function of its parameters. A read is
    [None] when the round trip fails; only a write can violate the unique
    index on slugs, so a failed read carries another error code. *)
Variable queryTypeBySlug : string -> option (list Props).
Variable queryEditorView : JsVal -> string -> option (list Props).
Variable queryFields : JsVal -> option (list Normalize.FieldDef).
Variable queryUserFields : JsVal -> option (list Props).
Variable queryUsers : list string -> option (list Props).
Variable queryEntryIdBySlug : string -> JsVal -> option (list Props).
Variable insertEntry : JsVal -> string -> string -> string -> JsVal -> Inserted.
Variable updateEntry :
  bool -> string -> JsVal -> string -> string -> string -> JsVal -> Written.
Variable deleteVersions : JsVal -> Written.
Variable deleteEntry : JsVal -> option JsVal -> Written.

(** [String.prototype.toUpperCase]; the role text only reaches the store. *)
Variable toUpperCase : string -> string.

(** Modelled from the spec: the four canonicalizers imported from
    [lib/fieldUtils.js], a module of the API server that is not embedded;
    each is an arbitrary function of the value, [None] when it throws. *)
Variable normalizeEmail : JsVal -> option JsVal.
Variable normalizePhoneE164 : JsVal -> string -> option JsVal.
Variable normalizeUrl : JsVal -> option JsVal.
Variable normalizeAddress : JsVal -> option JsVal.

(** [getEffectiveEditorCoreForType(contentTypeId, roleUpper)]; a failed
    query is caught and gives the empty core. *)
Definition getEffectiveEditorCoreForType (contentTypeId : JsVal) (roleUpper : string)
    : JsVal :=
  let role := toUpperCase roleUpper in
  match queryEditorView contentTypeId role with
  | None => JObj []
  | Some rows =>
      let config :=
        match rows with
        | r :: _ => obj_get r "config"
        | [] => JUndefined
        end in
      let cfg :=
        if truthy config && Relations.isObjectType config then config else JObj [] in
      let core := getProp cfg "core" in
      if truthy core && Relations.isObjectType core then core else JObj []
  end.

(** [String(req.user?.role || 'ADMIN').toUpperCase()]. *)
Definition roleUpperOf (user : JsVal) : string :=
  toUpperCase (toStr (or_else (Repeater.optGet user "role") (JStr "ADMIN"))).

(** [normalizeEntryData(fieldsRows, data || {})] on the request body's
    data, which the handler holds in a store of its own. *)
Definition normalizedData (fieldsRows : list Normalize.FieldDef) (body : JsVal) : JsVal :=
  let data := getProp (or_else body (JObj [])) "data" in
  Normalize.normalized normalizeEmail normalizePhoneE164 normalizeUrl normalizeAddress
    {[ 0%nat := or_else data (JObj []) ]} fieldsRows 0.

(** The end of the create and update routes: relation resolution on the
    stored row, then the reply. *)
Definition sendStored (okStatus : Z) (failure : string) (typeId : JsVal) (row : Props)
    : Reply :=
  match Relations.attachResolvedUsersToEntries queryUserFields queryUsers typeId
          (Relations.One row) with
  | Some out => SendRow okStatus (List.hd row (Relations.asList out))
  | None => SendError 500 failure
  end.

(** [POST /api/content/:slug], past the authentication middleware. *)
Definition createEntry (typeSlug : string) (user body : JsVal) : Run :=
  let failure := "Failed to create entry" in
  match queryTypeBySlug typeSlug with
  | None => {| writes := []; reply := SendError 500 failure |}
  | Some [] => {| writes := []; reply := SendError 404 "Content type not found" |}
  | Some (t :: _) =>
      let typeId := obj_get t "id" in
      let core := getEffectiveEditorCoreForType typeId (roleUpperOf user) in
      match prepare core body with
      | None => {| writes := []; reply := SendError 400 "Title is required" |}
      | Some p =>
          match queryFields typeId with
          | None => {| writes := []; reply := SendError 500 failure |}
          | Some fieldsRows =>
              let data := normalizedData fieldsRows body in
              match insertEntry typeId (title p) (slug p) (status p) data with
              | InsertRejected code => {| writes := []; reply := rejected failure code |}
              | InsertedRow row =>
                  {| writes := [InsertEntry typeId (title p) (slug p) (status p) data];
                     reply := sendStored 201 failure typeId row |}
              end
          end
      end
  end.

(** [PUT /api/content/:slug/:id], past the authentication middleware. *)
Definition putEntry (typeSlug id : string) (user body : JsVal) : Run :=
  let failure := "Failed to update entry" in
  match queryTypeBySlug typeSlug with
  | None => {| writes := []; reply := SendError 500 failure |}
  | Some [] => {| writes := []; reply := SendError 404 "Content type not found" |}
  | Some (t :: _) =>
      let typeId := obj_get t "id" in
      let core := getEffectiveEditorCoreForType typeId (roleUpperOf user) in
      match prepare core body with
      | None => {| writes := []; reply := SendError 400 "Title is required" |}
      | Some p =>
          match queryFields typeId with
          | None => {| writes := []; reply := SendError 500 failure |}
          | Some fieldsRows =>
              let data := normalizedData fieldsRows body in
              let byId := Relations.isUuid (JStr id) in
              match updateEntry byId id typeId (title p) (slug p) (status p) data with
              | Rejected code => {| writes := []; reply := rejected failure code |}
              | Returned rows =>
                  {| writes := [UpdateEntry byId id typeId (title p) (slug p) (status p) data];
                     reply :=
                       match rows with
                       | row :: _ => sendStored 200 failure typeId row
                       | [] => SendError 404 "Entry not found"
                       end |}
              end
          end
      end
  end.

(** The two statements that delete an entry of a content type: its
    versions, then the entry. *)
Definition deleteBoth (entryId typeId : JsVal) : Run :=
  match deleteVersions entryId with
  | Rejected _ => {| writes := []; reply := SendError 500 "Server error" |}
  | Returned _ =>
      match deleteEntry entryId (Some typeId) with
      | Rejected _ =>
          {| writes := [DeleteVersions entryId]; reply := SendError 500 "Server error" |}
      | Returned del =>
          {| writes := [DeleteVersions entryId; DeleteEntry entryId (Some typeId)];
             reply := match del with
                      | [] => SendError 404 "Not found"
                      | _ => SendOk
                      end |}
      end
  end.

(** [DELETE /api/content/:slug/:id], past the authentication middleware. *)
Definition deleteTypedEntry (typeSlug id : string) : Run :=
  match queryTypeBySlug typeSlug with
  | None => {| writes := []; reply := SendError 500 "Server error" |}
  | Some [] => {| writes := []; reply := SendError 404 "Not found" |}
  | Some (t :: _) =>
      let typeId := obj_get t "id" in
      if Relations.isUuid (JStr id) then deleteBoth (JStr id) typeId
      else
        match queryEntryIdBySlug id typeId with
        | None => {| writes := []; reply := SendError 500 "Server error" |}
        | Some [] => {| writes := []; reply := SendError 404 "Not found" |}
        | Some (e :: _) => deleteBoth (obj_get e "id") typeId
        end
  end.

(** [DELETE /api/content/:id], past the authentication middleware. *)
Definition deleteEntryById (id : string) : Run :=
  match deleteVersions (JStr id) with
  | Rejected _ => {| writes := []; reply := SendError 500 "Server error" |}
  | Returned _ =>
      match deleteEntry (JStr id) None with
      | Rejected _ =>
          {| writes := [DeleteVersions (JStr id)]; reply := SendError 500 "Server error" |}
      | Returned del =>
          {| writes := [DeleteVersions (JStr id); DeleteEntry (JStr id) None];
             reply := match del with
                      | [] => SendError 404 "Not found"
                      | _ => SendOk
                      end |}
      end
  end.

End Store.

(** ** What the properties speak about *)

(** The title, slug and status a statement stores. *)
Definition stored (w : Write) : option Prepared :=
  match w with
  | InsertEntry _ t s st _ | UpdateEntry _ _ _ t s st _ =>
      Some {| title := t; slug := s; status := st |}
  | _ => None
  end.

(** A text that is not blank and has no white space at either end. *)
Definition trimmedNonBlank (s : string) : Prop :=
  nonEmpty s = true /\ trim s = s.

(** The status code of a reply. *)
Definition statusOf (r : Reply) : Z :=
  match r with
  | SendRow status _ => status
  | SendOk => 200
  | SendError status _ => status
  end.

(** The statement deletes the entry [entryId]. *)
Definition deletesEntry (entryId : JsVal) (w : Write) : Prop :=
  exists typeId, w = DeleteEntry entryId typeId.

(** ** A concrete store *)

(** A store with one content type, no editor view and no fields; the
    insert is accepted, or rejected with [code]. *)
Definition oneType (slug : string) : option (list Props) := Some [[("id", JNum 7)]].

Definition postWith (inserted : option JsVal) (body : JsVal) : Run :=
  createEntry oneType (fun _ _ => Some []) (fun _ => Some [])
    (fun _ => Some []) (fun _ => Some [])
    (fun _ t s st d =>
       match inserted with
       | Some code => InsertRejected code
       | None => InsertedRow [("title", JStr t); ("slug", JStr s); ("status", JStr st)]
       end)
    (fun r => r) Normalize.lowerEmail Normalize.textPhone Normalize.keepUrl
    Normalize.objectAddress "post" JNull body.

End Writes.

(* ===================================================================== *)
(** * The helpers of the view builder page *)
(* ===================================================================== *)

Module Views.
Import Js.

(** [normalizeFieldKey(f)]. *)
Definition normalizeFieldKey (f : JsVal) : JsVal :=
  if negb (truthy f) then JStr ""
  else
    match f with
    | JStr _ => f
    | JArr _ | JObj _ =>
        or_else
          (or_else
             (or_else (or_else (getProp f "key") (getProp f "field_key"))
                      (getProp f "field"))
             (getProp f "id"))
          (JStr "")
    | _ => JStr ""
    end.

(** [String(idx + 1)]. *)
Definition ordinal (idx : nat) : string := Z_to_string (Z.of_nat idx + 1).

(** The [fields] of a normalized section. *)
Definition sectionFields (s : JsVal) : list string :=
  match getProp s "fields" with
  | JArr fs =>
      List.filter nonEmpty
        (List.map (fun f => trim (toStr (or_else (normalizeFieldKey f) (JStr "")))) fs)
  | _ => []
  end.

(** The callback of the [map] in [normalizeSections]; [None] when reading
    a property of [s] throws. *)
Definition normalizeSection (idx : nat) (s : JsVal) : option JsVal :=
  if is_nullish s then None
  else
    Some (JObj
      [ ("id", or_else (getProp s "id") (JStr ("widget-" +:+ ordinal idx)));
        ("title", or_else (getProp s "title") (JStr ("Widget " +:+ ordinal idx)));
        ("description", or_else (getProp s "description") (JStr ""));
        ("layout", or_else (getProp s "layout") (JStr "one-column"));
        ("fields", JArr (List.map JStr (sectionFields s))) ]).

Fixpoint normalizeFrom (idx : nat) (l : list JsVal) : option (list JsVal) :=
  match l with
  | [] => Some []
  | s :: r =>
      match normalizeSection idx s with
      | None => None
      | Some s' =>
          match normalizeFrom (S idx) r with
          | None => None
          | Some r' => Some (s' :: r')
          end
      end
  end.

(** [normalizeSections(rawSections)]; [None] when it throws. *)
Definition normalizeSections (rawSections : JsVal) : option (list JsVal) :=
  match or_else rawSections (JArr []) with
  | JArr l => normalizeFrom 0 l
  | _ => None
  end.

Section Parse.
(** [JSON.parse]; [None] when it throws. *)
Variable jsonParse : string -> option JsVal.

Definition normalizeConfig (cfg : JsVal) : JsVal :=
  if negb (truthy cfg) then JObj []
  else
    match cfg with
    | JArr _ | JObj _ => cfg
    | JStr s => default (JObj []) (jsonParse s)
    | _ => JObj []
    end.

(** [Array.isArray(v) && v]. *)
Definition arrayOr (v : JsVal) (otherwise : list JsVal) : list JsVal :=
  match v with JArr l => l | _ => otherwise end.

Definition getRawSectionsFromView (view : JsVal) : list JsVal :=
  let cfg := normalizeConfig (Repeater.optGet view "config") in
  arrayOr (Repeater.optGet cfg "sections")
    (arrayOr (Repeater.optGet cfg "widgets")
       (arrayOr (Repeater.optGet view "sections")
          (arrayOr (Repeater.optGet view "widgets")
             (arrayOr (Repeater.optGet (Repeater.optGet cfg "layout") "sections") [])))).

(** [String(v?.slug || "").toLowerCase()]. *)
Definition slugKey (v : JsVal) : string :=
  toLowerCase (toStr (or_else (Repeater.optGet v "slug") (JStr ""))).

Definition hasSections (v : JsVal) : bool :=
  negb (Nat.eqb (List.length (getRawSectionsFromView v)) 0).

(** [pickBestViewBySlug(views, slug)]; [None] when it throws, [JNull] when
    no view has the slug. *)
Definition pickBestViewBySlug (views slug : JsVal) : option JsVal :=
  let target := toLowerCase (toStr (or_else slug (JStr ""))) in
  match or_else views (JArr []) with
  | JArr l =>
      let matches := List.filter (fun v => String.eqb (slugKey v) target) l in
      match matches with
      | [] => Some JNull
      | first :: _ =>
          Some (or_else (default JUndefined (List.find hasSections matches)) first)
      end
  | _ => None
  end.

End Parse.

End Views.

(* ===================================================================== *)
(** * Subfield configuration (content type builder page) *)
(* ===================================================================== *)

Module Builder.
Import Js.

(** [SUBFIELD_MAP]: per field type, the subfield keys with their default
    labels. *)
Definition SUBFIELD_MAP : list (string * list (string * string)) :=
  [ ("name", [("title", "Title"); ("first", "First"); ("middle", "Middle");
              ("last", "Last"); ("suffix", "Suffix")]);
    ("address", [("line1", "Address line 1"); ("line2", "Address line 2");
                 ("city", "City"); ("state", "State / Province");
                 ("postal", "ZIP / Postal"); ("country", "Country")]);
    ("image", [("alt", "Alt text"); ("title", "Title"); ("caption", "Caption");
               ("credit", "Credit")]);
    ("file", [("title", "Title"); ("caption", "Caption"); ("credit", "Credit")]);
    ("video", [("title", "Title"); ("caption", "Caption"); ("credit", "Credit")]) ].

(** The lookups [SUBFIELD_MAP[t]] and [schema[key]] of this page read the
    names inherited from [Object.prototype] ([objectPrototypeMember]) as
    well as the literal's own keys, and each reads as a truthy value. *)

Fixpoint lookup {A} (k : string) (l : list (string * A)) : option A :=
  match l with
  | [] => None
  | (k', v) :: r => if String.eqb k' k then Some v else lookup k r
  end.

(** What [SUBFIELD_MAP[t]] reads: the schema of a field type, an inherited
    member, or [undefined]. *)
Inductive Schema : Type :=
| Own (entries : list (string * string))
| Inherited
| Missing.

Definition schemaOf (type : JsVal) : Schema :=
  let t := toLowerCase (toStr (or_else type (JStr ""))) in
  match lookup t SUBFIELD_MAP with
  | Some entries => Own entries
  | None => if objectPrototypeMember t then Inherited else Missing
  end.

Definition supportsSubfields (type : JsVal) : bool :=
  match schemaOf type with Missing => false | _ => true end.

(** The body of the loop that ensures each known subfield. *)
Definition ensureRow (subfields : Props) (entry : string * string) : Props :=
  let '(key, defaultLabel) := entry in
  let row := or_else (obj_get subfields key) (JObj []) in
  let show :=
    if is_defined (getProp row "show") then truthy (getProp row "show") else true in
  let label :=
    match getProp row "label" with
    | JStr l => if nonEmpty l then JStr l else JStr defaultLabel
    | _ => JStr defaultLabel
    end in
  obj_set subfields key (JObj [("show", JBool show); ("label", label)]).

(** [!schema[key]] is false for the schema's keys and for the inherited
    members. *)
Definition schemaHas (schema : list (string * string)) (key : string) : bool :=
  existsb (fun e => String.eqb (fst e) key) schema || objectPrototypeMember key.

(** The loop that prunes unknown keys. *)
Definition prune (schema : list (string * string)) (subfields : Props) : Props :=
  List.filter (fun kv => schemaHas schema (fst kv)) subfields.

(** A result, or an input outside the value model. *)
Inductive Modelled (A : Type) : Type :=
| Value (a : A)
| Outside.
Arguments Value {A} a.
Arguments Outside {A}.

(** [normalizeSubfieldsConfig(config, type)]. Two inputs are outside the
    value model: a type text that names an inherited member, whose
    "schema" is a builtin function, and a [subfields] that is an array,
    which would be given named properties. *)
Definition normalizeSubfieldsConfig (config type : JsVal) : Modelled JsVal :=
  let base :=
    if truthy config && Relations.isObjectType config then spread config else [] in
  match schemaOf type with
  | Missing => Value (JObj base)
  | Inherited => Outside
  | Own schema =>
      let current := obj_get base "subfields" in
      match (if truthy current && Relations.isObjectType current
             then current else JObj []) with
      | JObj subfields =>
          Value (JObj (obj_set base "subfields"
                         (JObj (prune schema (fold_left ensureRow schema subfields)))))
      | _ => Outside
      end
  end.

(** ** What the properties speak about *)

(** A normalized subfield row: [{ show, label }] with a boolean and a text
    that is not empty. *)
Definition normalRow (v : JsVal) : Prop :=
  exists b l, v = JObj [("show", JBool b); ("label", JStr l)] /\ nonEmpty l = true.

End Builder.

(* ===================================================================== *)
(** * Choices and user selection (FieldInput.jsx) *)
(* ===================================================================== *)

Module Inputs.
Import Js.


(** ** [normalizeChoices] *)





(** ** The user picker *)

(** [normalizeUserIds(value, multiple)]. *)
Definition normalizeUserIds (value : JsVal) (multiple : bool) : JsVal :=
  if multiple then
    match value with
    | JArr l => JArr (List.filter truthy (List.map (fun x => JStr (toStr x)) l))
    | JStr s => if nonEmpty (trim s) then JArr [JStr (trim s)] else JArr []
    | _ => JArr []
    end
  else
    match value with
    | JStr s => if nonEmpty (trim s) then JStr (trim s) else JStr ""
    | _ => JStr ""
    end.

(** [a === b] when one side is a text, a number, a boolean, [null] or
    [undefined]; the lists searched below hold texts only, and no object
    is the same value as a text. *)
Definition sameValue (a b : JsVal) : bool :=
  match a, b with
  | JUndefined, JUndefined | JNull, JNull => true
  | JBool x, JBool y => Bool.eqb x y
  | JNum x, JNum y => x =? y
  | JFrac m k, JFrac m' k' => (m =? m') && (k =? k')%positive
  | JStr x, JStr y => String.eqb x y
  | _, _ => false
  end.

(** [Array.isArray(normalized) ? normalized : []]. *)
Definition currentIds (value : JsVal) : list JsVal :=
  match normalizeUserIds value true with JArr l => l | _ => [] end.

(** [selectUser(id)] and [removeUser(id)] of [UserRelationField]; [None]
    when the handler returns without calling [onChange]. *)
Definition selectUser (value : JsVal) (multiple : bool) (id : JsVal) : option JsVal :=
  if negb (truthy id) then None
  else if multiple
  then (if existsb (fun x => sameValue x id) (currentIds value) then None
        else Some (JArr (currentIds value ++ [id])))
  else Some id.

Definition removeUser (value : JsVal) (multiple : bool) (id : JsVal) : option JsVal :=
  if negb (truthy id) then None
  else if multiple
  then Some (JArr (List.filter (fun x => negb (sameValue x id)) (currentIds value)))
  else if sameValue (normalizeUserIds value false) id then Some (JStr "") else None.

(** ** What the properties speak about *)


End Inputs.

(* ===================================================================== *)
(** * The authentication middleware (API server) *)
(* ===================================================================== *)

Module Auth.
Import Js.

(** What the middleware reads of a request: [originalUrl || url || ''],
    [path || ''] and the [authorization] header, [None] when there is
    none. *)
Record Request := { url : string; path : string; authorization : option string }.

(** [s] without the prefix [p], if it starts with it. *)
Fixpoint stripPrefix (p s : string) : option string :=
  match p, s with
  | EmptyString, _ => Some s
  | String a p', String b s' => if Ascii.eqb a b then stripPrefix p' s' else None
  | String _ _, EmptyString => None
  end.

(** The longest prefix without a slash, and what follows it. *)
Fixpoint segment (s : string) : string * string :=
  match s with
  | EmptyString => (EmptyString, EmptyString)
  | String c r =>
      if Ascii.eqb c "/" then (EmptyString, s)
      else let '(seg, rest) := segment r in (String c seg, rest)
  end.

(** The pattern [/\/api\/gizmos\/[^/]+\/public(\/|$)/] matched at the start
    of [s]. *)
Definition gizmoPublicAt (s : string) : bool :=
  match stripPrefix "/api/gizmos/" s with
  | Some r =>
      let '(seg, rest) := segment r in
      nonEmpty seg
      && match stripPrefix "/public" rest with
         | Some EmptyString => true
         | Some (String c _) => Ascii.eqb c "/"
         | None => false
         end
  | None => false
  end.

(** [pattern.test(url)]: the pattern is not anchored, so it is tried at
    every position. *)
Fixpoint gizmoPublic (url : string) : bool :=
  gizmoPublicAt url
  || match url with
     | EmptyString => false
     | String _ r => gizmoPublic r
     end.

(** [authHeader.split(' ')[1]]. *)
Definition tokenOf (authHeader : string) : string :=
  nth 1 (split " " authHeader) EmptyString.

(** The middleware either hands the request on, with [req.user] set to the
    decoded token or left as it was, or answers 401. *)
Inductive Outcome : Type :=
| Next (user : option JsVal)
| Unauthorized (error : string).

Section Tokens.
(** [jwt.verify(token, JWT_SECRET)]: the decoded payload, [None] when it
    throws. *)
Variable verify : string -> option JsVal.

Definition authMiddleware (req : Request) : Outcome :=
  if isPrefix "/public/" (path req) then Next None
  else if gizmoPublic (url req) then Next None
  else
    match authorization req with
    | None => Unauthorized "No token provided"
    | Some authHeader =>
        if negb (nonEmpty authHeader) then Unauthorized "No token provided"
        else
          let token := tokenOf authHeader in
          if negb (nonEmpty token) then Unauthorized "No token provided"
          else match verify token with
               | Some decoded => Next (Some decoded)
               | None => Unauthorized "Invalid token"
               end
    end.

End Tokens.

End Auth.

(* ===================================================================== *)
(** * Field values as text in lists (FieldInput.jsx) *)
(* ===================================================================== *)

Module ListDisplay.
Import Js.

(** The separator of the pieces of a row: a middle dot between two
    spaces. *)
Definition middleDot : ascii := ascii_of_nat 183.
Definition pieceSeparator : string := String " " (String middleDot (String " " EmptyString)).

(** The local function [empty]. *)
Definition empty (v : JsVal) : bool :=
  match v with
  | JUndefined | JNull => true
  | JStr s => negb (nonEmpty (trim s))
  | JArr l => Nat.eqb (List.length l) 0
  | JObj o => Nat.eqb (List.length o) 0
  | _ => false
  end.

(** [l.join(sep)]: [null] and [undefined] elements give the empty text. *)
Definition joinValues (sep : string) (l : list JsVal) : string :=
  join sep (List.map (fun e => if is_nullish e then EmptyString else toStr e) l).

(** [l.slice(0, n)]: a negative [n] counts from the end. *)
Definition sliceTo {A} (n : Z) (l : list A) : list A :=
  let len := Z.of_nat (List.length l) in
  let final := if n <? 0 then Z.max (len + n) 0 else Z.min n len in
  firstn (Z.to_nat final) l.

(** [(fieldDef?.type || "text").toString().trim().toLowerCase()]. *)
Definition typeOf (fieldDef : JsVal) : string :=
  toLowerCase (trim (toStr (or_else (Repeater.optGet fieldDef "type") (JStr "text")))).

(** [Number.isFinite(v) ? v : dflt] for an option of the function: its
    callers pass whole numbers. *)
Definition finiteOr {A} (v : JsVal) (some : Z -> A) (dflt : A) : A :=
  match v with JNum n => some n | _ => dflt end.

(** [keys.map(k => v[k]).map(x => x == null ? "" : String(x).trim()).filter(Boolean)]. *)
Definition namedParts (v : JsVal) (keys : list string) : list string :=
  List.filter nonEmpty
    (List.map (fun k => let x := getProp v k in
                        if is_nullish x then EmptyString else trim (toStr x)) keys).

(** [`Row ${idx + 1}`]. *)
Definition rowName (idx : nat) : string := "Row " +:+ Z_to_string (Z.of_nat idx + 1).

(** The options of a call: [{ labelLimit, depth, maxDepth }]. *)
Definition options (labelLimit depth maxDepth : Z) : JsVal :=
  JObj [("labelLimit", JNum labelLimit); ("depth", JNum depth);
        ("maxDepth", JNum maxDepth)].

Section Formatters.
(** The three formatters of [utils/datetime], which render a date through
    the [Intl] library: each is a function of its arguments, [None] when
    it throws. [fmtTimeShortLower] is given the text the [Date] is made
    from. *)
Variable fmtDateISO : string -> JsVal -> JsVal -> option JsVal.
Variable fmtDateTimeUTC : JsVal -> JsVal -> JsVal -> option JsVal.
Variable fmtTimeShortLower : string -> JsVal -> option JsVal.

Section Rows.
(** The nested call
    [formatFieldValueForList(def, v, { labelLimit: 2, depth: depth + 1, maxDepth })]
    and the subfields of the repeater. *)
Variable nested : JsVal -> JsVal -> option JsVal.
Variable subfields : list JsVal.

(** The loop of [summarizeRow] over the keys, from the parts found so
    far; it stops when two parts are found. *)
Fixpoint collectParts (r : JsVal) (keys : list string) (parts : list JsVal)
    : option (list JsVal) :=
  match keys with
  | [] => Some parts
  | k :: rest =>
      let sf :=
        default JUndefined
          (List.find (fun x => String.eqb (Repeater.subfieldKey x) k) subfields) in
      let v := Repeater.optGet r k in
      if empty v then collectParts r rest parts
      else
        match nested (JObj (obj_set (spread (or_else sf (JObj []))) "key" (JStr k))) v with
        | None => None
        | Some piece =>
            let parts := if truthy piece then parts ++ [piece] else parts in
            if (2 <=? List.length parts)%nat then Some parts
            else collectParts r rest parts
        end
  end.

Definition summarizeRow (pickKeys : list string) (row : JsVal) (idx : nat)
    : option string :=
  let r := if truthy row && Repeater.isObjectType row then row else JObj [] in
  match pickKeys with
  | [] => Some (rowName idx)
  | _ =>
      match collectParts r pickKeys [] with
      | None => None
      | Some [] => Some (rowName idx)
      | Some parts => Some (joinValues pieceSeparator parts)
      end
  end.

(** [rows.map(summarizeRow)] from the index [idx]. *)
Fixpoint summarizeFrom (pickKeys : list string) (idx : nat) (rows : list JsVal)
    : option (list string) :=
  match rows with
  | [] => Some []
  | row :: rest =>
      match summarizeRow pickKeys row idx with
      | None => None
      | Some s =>
          match summarizeFrom pickKeys (S idx) rest with
          | None => None
          | Some more => Some (s :: more)
          end
      end
  end.

End Rows.

(** The body of [formatFieldValueForList] for the options [labelLimit],
    [depth] and [maxDepth]; [self] stands for the function itself in the
    nested call. [None] when a formatter throws. *)
Definition formatWith (self : Z -> Z -> Z -> JsVal -> JsVal -> option JsVal)
    (labelLimit depth maxDepth : Z) (fieldDef rawValue : JsVal) : option JsVal :=
  let type := typeOf fieldDef in
  let cfg := Repeater.getFieldConfig fieldDef in
  let isObject := truthy rawValue && Repeater.isObjectType rawValue in
  let locale := or_else (getProp cfg "locale") (JStr "en-US") in
  if empty rawValue then Some (JStr "")
  else if String.eqb type "repeater" then
    let subfields := Repeater.coerceArray (getProp cfg "subfields") in
    let rows := Repeater.coerceArray rawValue in
    match rows with
    | [] => Some (JStr "")
    | _ =>
        let count := Z.of_nat (List.length rows) in
        if maxDepth <? depth
        then Some (JStr ("(" +:+ Z_to_string count +:+ " rows)"))
        else
          let pickKeys :=
            List.filter nonEmpty (List.map Repeater.subfieldKey subfields) in
          match summarizeFrom (self 2 (depth + 1) maxDepth) subfields pickKeys 0
                  (sliceTo labelLimit rows) with
          | None => None
          | Some shown =>
              let more := count - Z.of_nat (List.length shown) in
              Some (JStr (if 0 <? more
                          then join " | " shown +:+ " | +" +:+ Z_to_string more +:+ " more"
                          else join " | " shown))
          end
    end
  else if String.eqb type "checkbox" || String.eqb type "multiselect" then
    let arr :=
      match rawValue with
      | JArr l => l
      | JStr s => List.map JStr (List.filter nonEmpty (List.map trim (split "," s)))
      | _ => []
      end in
    Some (JStr (joinValues ", " arr))
  else if String.eqb type "dropdown" || String.eqb type "select"
          || String.eqb type "radio" then
    Some (JStr (if is_nullish rawValue then EmptyString else toStr rawValue))
  else if String.eqb type "relation_user" || String.eqb type "relation"
          || String.eqb type "relationship" then
    match rawValue with
    | JArr l => Some (JStr (join ", " (List.map toStr l)))
    | _ => Some (JStr (toStr rawValue))
    end
  else if String.eqb type "date" then
    let style := or_else (getProp cfg "dateStyle") (JStr "long") in
    if truthy rawValue then fmtDateISO (toStr rawValue) locale style
    else Some (JStr "")
  else if String.eqb type "datetime" then
    let tz := or_else (getProp cfg "defaultTZ") (JStr "America/Los_Angeles") in
    let utc :=
      if isObject then getProp rawValue "utc"
      else if truthy rawValue then JStr (toStr rawValue) else JStr "" in
    if truthy utc then fmtDateTimeUTC utc tz locale else Some (JStr "")
  else if String.eqb type "time" then
    let t :=
      if isObject then getProp rawValue "time"
      else match rawValue with JStr _ => rawValue | _ => JStr "" end in
    if negb (truthy t) then Some (JStr "")
    else fmtTimeShortLower ("1970-01-01T" +:+ toStr t +:+ ":00Z") locale
  else if String.eqb type "name" && isObject then
    Some (JStr (join " " (namedParts rawValue
                            ["title"; "first"; "middle"; "last"; "suffix"])))
  else if String.eqb type "address" && isObject then
    Some (JStr (join ", " (namedParts rawValue
                             ["line1"; "line2"; "city"; "state"; "postal"; "country"])))
  else if String.eqb type "file" || String.eqb type "document"
          || String.eqb type "image" || String.eqb type "video" then
    if isObject
    then Some (or_else (or_else (or_else (getProp rawValue "name")
                                         (getProp rawValue "title"))
                                (getProp rawValue "path"))
                       (JStr ""))
    else Some (JStr "")
  else if String.eqb type "color" && isObject then
    Some (or_else (getProp rawValue "hex") (JStr ""))
  else if String.eqb type "json" then
    match rawValue with
    | JStr _ => Some rawValue
    | _ => Some (match Title.stringify rawValue with
                 | Some text => JStr text
                 | None => JUndefined
                 end)
    end
  else
    match rawValue with
    | JBool b => Some (JStr (if b then "Yes" else "No"))
    | _ => Some (JStr (toStr rawValue))
    end.

(** The function with a bound on the number of nested calls: with none
    left, a nested call is not made. *)
Fixpoint format (calls : nat) : Z -> Z -> Z -> JsVal -> JsVal -> option JsVal :=
  match calls with
  | O => formatWith (fun _ _ _ _ _ => Some JUndefined)
  | S n => formatWith (format n)
  end.

(** The nested calls a call at [depth] can make: each is one level
    deeper, and none is made beyond [maxDepth]. *)
Definition callsNeeded (depth maxDepth : Z) : nat := Z.to_nat (maxDepth - depth + 1).

(** [formatFieldValueForList(fieldDef, rawValue, opts)]; [None] when it
    throws. *)
Definition formatFieldValueForList (fieldDef rawValue opts : JsVal) : option JsVal :=
  match opts with
  | JNull => None
  | _ =>
      let opts := match opts with JUndefined => JObj [] | _ => opts end in
      let labelLimit := finiteOr (getProp opts "labelLimit") id 3 in
      let depth := finiteOr (getProp opts "depth") id 1 in
      let maxDepth := finiteOr (getProp opts "maxDepth") id 2 in
      format (callsNeeded depth maxDepth) labelLimit depth maxDepth fieldDef rawValue
  end.

End Formatters.

(** ** Concrete formatters *)

(** Formatters for concrete inputs: each returns its first argument. *)
Definition plainDate (iso : string) (locale style : JsVal) : option JsVal :=
  Some (JStr iso).
Definition plainDateTime (utc tz locale : JsVal) : option JsVal := Some utc.
Definition plainTime (text : string) (locale : JsVal) : option JsVal :=
  Some (JStr text).

End ListDisplay.

(* ===================================================================== *)
(** * Properties of conditional visibility *)
(* ===================================================================== *)

Section NumberFacts.
Import Js.

Lemma dy_compare_antisym (a b : Dyadic) : dy_compare b a = CompOpp (dy_compare a b).
Proof.
  unfold dy_compare. rewrite (Z.min_comm (expo b) (expo a)). apply Z.compare_antisym.
Qed.

Lemma num_compare_antisym (a b : Num) : num_compare b a = CompOpp (num_compare a b).
Proof.
  destruct a as [x|[|]], b as [y|[|]]; try reflexivity. apply dy_compare_antisym.
Qed.

Lemma lessOrEqual_not_lessThan (a b : Num) : lessOrEqual b a = negb (lessThan a b).
Proof.
  unfold lessOrEqual, lessThan. rewrite (num_compare_antisym a b).
  now destruct (num_compare a b).
Qed.

Lemma dy_leb_not_ltb (a b : Dyadic) : dy_leb a b = negb (dy_ltb b a).
Proof.
  unfold dy_leb, dy_ltb. rewrite (dy_compare_antisym b a).
  now destruct (dy_compare b a).
Qed.

Lemma dy_compare_ofInt (a b : Z) : dy_compare (ofInt a) (ofInt b) = (a ?= b).
Proof.
  unfold dy_compare, ofInt. cbn [mant expo].
  change (Z.min 0 0) with 0. change (0 - 0) with 0. change (2 ^ 0) with 1.
  now rewrite !Z.mul_1_r.
Qed.

Lemma dy_leb_ofInt (a b : Z) : dy_leb (ofInt a) (ofInt b) = (a <=? b).
Proof. unfold dy_leb. now rewrite dy_compare_ofInt. Qed.

Lemma dy_ltb_ofInt (a b : Z) : dy_ltb (ofInt a) (ofInt b) = (a <? b).
Proof. unfold dy_ltb. now rewrite dy_compare_ofInt. Qed.

End NumberFacts.

Section VisibilityFacts.
Import Js Repeater.
Context {N : NumOps}.

Lemma setFlag_lookup (k : string) (flag : bool) (vis : gmap string bool) (j : string) :
  setFlag k flag vis !! j
  = if String.eqb k j && negb (String.eqb j "__proto__") then Some flag else vis !! j.
Proof.
  unfold setFlag. destruct (String.eqb k j) eqn:E; cbn [andb].
  - apply String.eqb_eq in E. subst j.
    destruct (String.eqb k "__proto__"); [reflexivity|apply lookup_insert_eq].
  - apply String.eqb_neq in E.
    destruct (String.eqb k "__proto__"); [reflexivity|now apply lookup_insert_ne].
Qed.

Lemma names_targets (r : JsVal) (k : string) :
  names r k = nonEmpty k && existsb (fun t => String.eqb (targetKey t) k) (rule_targets r).
Proof.
  unfold names, rule_targets, targetKey, coerceArray.
  destruct (optGet r "targets"); cbn [existsb]; reflexivity.
Qed.

Lemma flagStep_lookup (s : string) (flag : bool) (vis : gmap string bool) (k : string) :
  (if nonEmpty s then setFlag s flag vis else vis) !! k
  = if nonEmpty k && String.eqb s k && negb (String.eqb k "__proto__")
    then Some flag else vis !! k.
Proof.
  destruct (String.eqb s k) eqn:E.
  - apply String.eqb_eq in E. subst s. rewrite andb_true_r.
    destruct (nonEmpty k); [|reflexivity].
    rewrite setFlag_lookup, String.eqb_refl. reflexivity.
  - rewrite andb_false_r. cbn [andb].
    destruct (nonEmpty s); [|reflexivity]. now rewrite setFlag_lookup, E.
Qed.

Lemma initVisibility_from (subfields : list JsVal) (vis : gmap string bool) (k : string) :
  fold_left
    (fun vis sf =>
       let k := subfieldKey sf in
       if nonEmpty k then setFlag k true vis else vis)
    subfields vis !! k
  = if declared subfields k && negb (String.eqb k "__proto__") then Some true
    else vis !! k.
Proof.
  revert vis. induction subfields as [|sf rest IH]; intros vis.
  - unfold declared. simpl. now rewrite andb_false_r.
  - cbn [fold_left]. rewrite IH. cbv zeta. rewrite flagStep_lookup.
    unfold declared. cbn [existsb]. fold (subfieldKey sf).
    destruct (nonEmpty k), (String.eqb (subfieldKey sf) k), (existsb _ rest),
      (negb (String.eqb k "__proto__")); reflexivity.
Qed.

Lemma initVisibility_lookup (subfields : list JsVal) (k : string) :
  initVisibility subfields !! k
  = if declared subfields k && negb (String.eqb k "__proto__") then Some true else None.
Proof. unfold initVisibility. now rewrite initVisibility_from, lookup_empty. Qed.

Lemma applyTargets_lookup (action : string) (targets : list JsVal)
    (vis : gmap string bool) (k : string) :
  applyTargets action targets vis !! k
  = if nonEmpty k && existsb (fun t => String.eqb (targetKey t) k) targets
       && negb (String.eqb k "__proto__")
    then Some (shows action) else vis !! k.
Proof.
  unfold applyTargets. revert vis.
  induction targets as [|t rest IH]; intros vis.
  - simpl. now rewrite andb_false_r.
  - cbn [fold_left existsb]. rewrite IH. cbv zeta.
    assert (Hstep :
      (if nonEmpty (targetKey t)
       then (if String.eqb action "hide" then setFlag (targetKey t) false vis
             else setFlag (targetKey t) true vis)
       else vis)
      = (if nonEmpty (targetKey t) then setFlag (targetKey t) (shows action) vis
         else vis)).
    { unfold shows. now destruct (String.eqb action "hide"). }
    rewrite Hstep, flagStep_lookup.
    destruct (nonEmpty k), (String.eqb (targetKey t) k), (existsb _ rest),
      (negb (String.eqb k "__proto__")); reflexivity.
Qed.

Lemma applyRule_lookup (row r : JsVal) (vis : gmap string bool) (k : string) :
  applyRule row vis r !! k
  = if decides row r k && negb (String.eqb k "__proto__")
    then Some (shows (rule_action r)) else vis !! k.
Proof.
  unfold applyRule, decides. rewrite names_targets.
  destruct (evalRule row r); cbn [andb]; [|reflexivity].
  apply applyTargets_lookup.
Qed.

Lemma rules_undecided (row : JsVal) (rules : list JsVal) (vis : gmap string bool)
    (k : string) :
  (forall r, In r rules -> decides row r k = false) ->
  fold_left (applyRule row) rules vis !! k = vis !! k.
Proof.
  revert vis. induction rules as [|r rest IH]; intros vis Hno; [reflexivity|].
  cbn [fold_left]. rewrite IH by (intros; apply Hno; now right).
  rewrite applyRule_lookup, Hno; [reflexivity | now left].
Qed.

Lemma rules_last_decides (row : JsVal) (pre post : list JsVal) (r : JsVal)
    (vis : gmap string bool) (k : string) :
  decides row r k = true ->
  k <> "__proto__" ->
  (forall r', In r' post -> decides row r' k = false) ->
  fold_left (applyRule row) (pre ++ r :: post) vis !! k
  = Some (shows (rule_action r)).
Proof.
  intros Hr Hk Hpost. rewrite fold_left_app. cbn [fold_left].
  rewrite rules_undecided by exact Hpost.
  apply String.eqb_neq in Hk. now rewrite applyRule_lookup, Hr, Hk.
Qed.

(** No rule and no declaration gives [__proto__] a flag. *)
Lemma rules_never_flag_proto (row : JsVal) (rules : list JsVal) (vis : gmap string bool) :
  fold_left (applyRule row) rules vis !! "__proto__" = vis !! "__proto__".
Proof.
  revert vis. induction rules as [|r rest IH]; intros vis; [reflexivity|].
  cbn [fold_left]. rewrite IH, applyRule_lookup.
  now rewrite andb_false_r.
Qed.

Lemma visibility_never_flags_proto (subfields : list JsVal) (rules row : JsVal) :
  computeSubfieldVisibility subfields rules row !! "__proto__" = None.
Proof.
  unfold computeSubfieldVisibility.
  rewrite rules_never_flag_proto, initVisibility_lookup. now rewrite andb_false_r.
Qed.

End VisibilityFacts.

Section RuleEvaluation.
Import Js Repeater.
Context {N : NumOps}.





End RuleEvaluation.

Section VisibilityRules.
Import Js Repeater.

(** X29. For every row, every list of declared subfields, every sequence
    of visibility rules that read the row's data, and every key other than
    [__proto__]: a key that no rule decides keeps its initial state, which
    is visible for every declared subfield; and when some rule matches the
    row and names the key, the last such rule in declared order fixes the
    key's visibility, visible unless its action is ["hide"]. The key
    [__proto__] never gets a flag. *)
Theorem visibility_last_matching_rule_wins (N : NumOps)
    (subfields ruleList : list JsVal) (row : JsVal) (k : string) :
  k <> "__proto__" ->
  (forall r, In r ruleList -> readsRow row r = true) ->
  let vis := computeSubfieldVisibility subfields (JArr ruleList) row in
  ((forall r, In r ruleList -> decides row r k = false) ->
     vis !! k = if declared subfields k then Some true else None)
  /\ (forall pre r post,
        ruleList = pre ++ r :: post ->
        evalRule row r = true ->
        names r k = true ->
        (forall r', In r' post -> decides row r' k = false) ->
        let action := toStr (or_else (optGet r "action") (JStr "show")) in
        vis !! k = Some (negb (String.eqb action "hide"))
        /\ (action = "show" -> vis !! k = Some true)
        /\ (action = "hide" -> vis !! k = Some false))
  /\ computeSubfieldVisibility subfields (JArr ruleList) row !! "__proto__" = None.
Proof.
  intros Hk _. cbv zeta. split; [|split].
  - intros Hno. unfold computeSubfieldVisibility. cbn [coerceArray].
    rewrite rules_undecided, initVisibility_lookup by exact Hno.
    apply String.eqb_neq in Hk. now rewrite Hk, andb_true_r.
  - intros pre r post -> Hm Hn Hpost.
    assert (Hd : decides row r k = true) by (unfold decides; now rewrite Hm, Hn).
    unfold computeSubfieldVisibility. cbn [coerceArray].
    rewrite (rules_last_decides row pre post r _ k Hd Hk Hpost).
    unfold shows, rule_action.
    repeat split; intros ->; reflexivity.
  - apply visibility_never_flags_proto.
Qed.

Lemma visibility_last_matching_rule_wins_witness :
  let hideRule := JObj [("ifKey", JStr "age"); ("op", JStr "lt"); ("value", JNum 21);
                        ("action", JStr "hide"); ("targets", JArr [JStr " waiver "])] in
  let vis := computeSubfieldVisibility (N := JsNumber)
               [JObj [("key", JStr "waiver")]] (JArr [ageRule; hideRule]) ageRow in
  vis !! "waiver" = Some false.
Proof.
  intros hideRule vis.
  destruct (visibility_last_matching_rule_wins JsNumber
              [JObj [("key", JStr "waiver")]] [ageRule; hideRule] ageRow "waiver")
    as [_ [Hlast _]];
    [discriminate | intros r [<-|[<-|[]]]; reflexivity |].
  destruct (Hlast [ageRule] hideRule []) as [_ [_ Hhide]].
  - reflexivity.
  - vm_compute. reflexivity.
  - vm_compute. reflexivity.
  - intros r' [].
  - apply Hhide. vm_compute. reflexivity.
Defined.

(** C3. The last matching rule decides every key but one: a subfield with
    the key [__proto__] stays visible whatever the rules say. On a row that the
    rule (mode equals direct, hide [__proto__] and [notes]) matches, the
    declared subfield [notes] is flagged hidden and renders nothing, while
    the declared subfield [__proto__] has no flag, neither the initial one
    nor the rule's, and its cell is rendered. *)
Lemma proto_key_is_never_hidden :
  let sf := JObj [("key", JStr "__proto__"); ("type", JStr "text")] in
  let notes := JObj [("key", JStr "notes"); ("type", JStr "text")] in
  let rule := JObj [("ifKey", JStr "mode"); ("op", JStr "equals");
                    ("value", JStr "direct"); ("action", JStr "hide");
                    ("targets", JArr [JStr "__proto__"; JStr "notes"])] in
  let field := JObj [("config", JObj [("subfields", JArr [sf; notes]);
                                      ("rules", JArr [rule])])] in
  let row := JObj [("mode", JStr "direct")] in
  let vis := computeSubfieldVisibility (N := JsNumber) [sf; notes] (JArr [rule]) row in
  evalRule (N := JsNumber) row rule = true
  /\ names rule "__proto__" = true
  /\ names rule "notes" = true
  /\ toStr (or_else (optGet rule "action") (JStr "show")) = "hide"
  /\ declared [sf; notes] "__proto__" = true
  /\ initVisibility [sf; notes] !! "notes" = Some true
  /\ initVisibility [sf; notes] !! "__proto__" = None
  /\ vis !! "notes" = Some false
  /\ vis !! "__proto__" = None
  /\ renderSubfieldCell (N := JsNumber) field 1 (JArr [row]) notes 0 row = CellNone
  /\ renderSubfieldCell (N := JsNumber) field 1 (JArr [row]) sf 0 row <> CellNone.
Proof.
  intros sf notes rule field row vis. subst vis.
  assert (Hnotes : computeSubfieldVisibility (N := JsNumber) [sf; notes] (JArr [rule]) row
                   !! "notes" = Some false).
  { unfold computeSubfieldVisibility. cbn [coerceArray].
    rewrite (rules_last_decides row [] [] rule _ "notes").
    - reflexivity.
    - vm_compute. reflexivity.
    - discriminate.
    - intros r' []. }
  split; [vm_compute; reflexivity|]. split; [vm_compute; reflexivity|].
  split; [vm_compute; reflexivity|]. split; [vm_compute; reflexivity|].
  split; [vm_compute; reflexivity|].
  split; [rewrite initVisibility_lookup; reflexivity|].
  split; [rewrite initVisibility_lookup; reflexivity|].
  split; [exact Hnotes|]. split; [apply visibility_never_flags_proto|].
  split.
  - unfold renderSubfieldCell. cbv zeta.
    change (nonEmpty (subfieldKey notes)) with true. cbn [negb].
    change (subfieldKey notes) with "notes".
    change (subfields field) with [sf; notes].
    change (rules field) with (JArr [rule]).
    now rewrite Hnotes.
  - unfold renderSubfieldCell. cbv zeta.
    change (nonEmpty (subfieldKey sf)) with true. cbn [negb].
    change (subfieldKey sf) with "__proto__".
    rewrite visibility_never_flags_proto.
    destruct (String.eqb (subfieldType sf) "repeater" && negb (canNestMore field 1));
      discriminate.
Qed.



End VisibilityRules.

Section UnknownOperators.
Import Js Repeater.



End UnknownOperators.

(* ===================================================================== *)
(** * Properties of the repeater component *)
(* ===================================================================== *)

Section RepeaterRows.
Import Js Repeater.

Lemma rowsOf_length (l : list JsVal) : List.length (rowsOf (JArr l)) = List.length l.
Proof. unfold rowsOf. cbn [coerceArray]. apply length_map. Qed.

Lemma rowCount_appended (value : JsVal) :
  rowCount (JArr (rowsOf value ++ [JObj []])) = rowCount value + 1.
Proof.
  unfold rowCount. rewrite rowsOf_length, length_app. cbn [List.length]. lia.
Qed.

Lemma dropIndex_length {A} (i : nat) (l : list A) :
  List.length (dropIndex i l)
  = if (i <? List.length l)%nat then pred (List.length l) else List.length l.
Proof.
  revert i. induction l as [|x r IH]; intros i; [now destruct i|].
  destruct i as [|j]; [reflexivity|].
  cbn [dropIndex List.length]. rewrite IH.
  change (S j <? S (List.length r))%nat with (j <? List.length r)%nat.
  destruct (j <? List.length r)%nat eqn:E; [|reflexivity].
  apply Nat.ltb_lt in E. lia.
Qed.

Lemma rowCount_removed (value : JsVal) (i : nat) :
  rowCount value - 1 <= rowCount (JArr (dropIndex i (rowsOf value))) <= rowCount value.
Proof.
  unfold rowCount. rewrite rowsOf_length, dropIndex_length.
  destruct (i <? List.length (rowsOf value))%nat; lia.
Qed.

(** With whole bounds, the row count is within them when it is between
    them as an integer. *)
Lemma withinBounds_whole (field value : JsVal) :
  (forall lo, minRows field = Some lo -> whole lo) ->
  (forall hi, maxRows field = Some hi -> whole hi) ->
  withinBounds field value
  <-> (forall lo, minRows field = Some (ofInt lo) -> lo <= rowCount value)
      /\ (forall hi, maxRows field = Some (ofInt hi) -> rowCount value <= hi).
Proof.
  intros Wlo Whi. unfold withinBounds. split; intros [Hlo Hhi]; split.
  - intros lo E. specialize (Hlo _ E). rewrite dy_leb_ofInt in Hlo. lia.
  - intros hi E. specialize (Hhi _ E). rewrite dy_leb_ofInt in Hhi. lia.
  - intros lo E. destruct (Wlo _ E) as [z ->]. rewrite dy_leb_ofInt.
    specialize (Hlo _ E). lia.
  - intros hi E. destruct (Whi _ E) as [z ->]. rewrite dy_leb_ofInt.
    specialize (Hhi _ E). lia.
Qed.

Lemma applyOp_withinBounds (field value : JsVal) (op : RowOp) :
  (forall lo, minRows field = Some lo -> whole lo) ->
  (forall hi, maxRows field = Some hi -> whole hi) ->
  withinBounds field value -> withinBounds field (applyOp field value op).
Proof.
  intros Wlo Whi H.
  apply (withinBounds_whole field _ Wlo Whi).
  apply (withinBounds_whole field _ Wlo Whi) in H. destruct H as [Hlo Hhi].
  destruct op as [|i]; unfold applyOp.
  - unfold addRow. destruct (maxRows field) as [hi|] eqn:Emax.
    + destruct (Whi _ eq_refl) as [z ->]. rewrite dy_leb_ofInt.
      destruct (z <=? rowCount value) eqn:E; cbn; [now split|].
      apply Z.leb_gt in E. split; intros b Hb.
      * rewrite rowCount_appended. specialize (Hlo b Hb). lia.
      * injection Hb as <-. rewrite rowCount_appended. lia.
    + cbn. split; intros b Hb; [|discriminate Hb].
      rewrite rowCount_appended. specialize (Hlo b Hb). lia.
  - unfold removeRow. destruct (minRows field) as [lo|] eqn:Emin.
    + destruct (Wlo _ eq_refl) as [z ->]. rewrite dy_leb_ofInt.
      destruct (rowCount value <=? z) eqn:E; cbn; [now split|].
      apply Z.leb_gt in E.
      pose proof (rowCount_removed value i) as Hr. split; intros b Hb.
      * injection Hb as <-. lia.
      * specialize (Hhi b Hb). lia.
    + cbn. pose proof (rowCount_removed value i) as Hr.
      split; intros b Hb; [discriminate Hb|].
      specialize (Hhi b Hb). lia.
Qed.

(** C5, as the code has it. Appending a row does not call [onChange] when
    the row count has reached [maxRows], removing a row does not when the
    row count is at or below [minRows]; and when the configured bounds are
    whole numbers, a row count within them stays within them under every
    sequence of append and remove operations. *)
Theorem row_count_stays_within_bounds (field value : JsVal) :
  (forall hi, maxRows field = Some hi -> dy_leb hi (ofInt (rowCount value)) = true ->
     addRow field value = None /\ applyOp field value Append = value)
  /\ (forall lo i, minRows field = Some lo ->
        dy_leb (ofInt (rowCount value)) lo = true ->
        removeRow field value i = None /\ applyOp field value (Remove i) = value)
  /\ ((forall lo, minRows field = Some lo -> whole lo) ->
      (forall hi, maxRows field = Some hi -> whole hi) ->
      withinBounds field value ->
      forall ops, withinBounds field (applyOps field ops value))
  /\ (forall lo hi : Z,
        getProp (getFieldConfig field) "minRows" = JNum lo ->
        getProp (getFieldConfig field) "maxRows" = JNum hi ->
        lo <= rowCount value <= hi ->
        forall ops, lo <= rowCount (applyOps field ops value) <= hi).
Proof.
  assert (Hinv : (forall lo, minRows field = Some lo -> whole lo) ->
                 (forall hi, maxRows field = Some hi -> whole hi) ->
                 withinBounds field value ->
                 forall ops, withinBounds field (applyOps field ops value)).
  { intros Wlo Whi Hin ops. revert value Hin.
    induction ops as [|op ops IH]; intros value Hin; [exact Hin|].
    cbn [applyOps fold_left]. apply IH. now apply applyOp_withinBounds. }
  split; [|split; [|split]].
  - intros hi Hmax Hfull. unfold applyOp, addRow. now rewrite Hmax, Hfull.
  - intros lo i Hmin Hfloor. unfold applyOp, removeRow. now rewrite Hmin, Hfloor.
  - exact Hinv.
  - intros lo hi Elo Ehi Hin ops.
    assert (Wlo : forall b, minRows field = Some b -> whole b).
    { intros b. unfold minRows, cfg. rewrite Elo. intros [= <-]. now exists lo. }
    assert (Whi : forall b, maxRows field = Some b -> whole b).
    { intros b. unfold maxRows, cfg. rewrite Ehi. intros [= <-]. now exists hi. }
    assert (Emin : minRows field = Some (ofInt lo)) by (unfold minRows, cfg; now rewrite Elo).
    assert (Emax : maxRows field = Some (ofInt hi)) by (unfold maxRows, cfg; now rewrite Ehi).
    assert (H : withinBounds field (applyOps field ops value)).
    { apply Hinv; [exact Wlo|exact Whi|].
      apply (withinBounds_whole field value Wlo Whi). split; intros b Hb.
      - rewrite Emin in Hb. injection Hb as <-. lia.
      - rewrite Emax in Hb. injection Hb as <-. lia. }
    apply (withinBounds_whole field _ Wlo Whi) in H. destruct H as [Hlo Hhi].
    split; [now apply Hlo|now apply Hhi].
Qed.

Lemma row_count_stays_within_bounds_witness :
  let field := JObj [("config", JObj [("minRows", JNum 1); ("maxRows", JNum 2)])] in
  let value := JArr [JObj [("a", JNum 1)]] in
  1 <= rowCount
         (applyOps field [Remove 0; Append; Append; Remove 5; Remove 0; Remove 0] value)
    <= 2
  /\ addRow field (JArr [JObj []; JObj []]) = None
  /\ removeRow field value 0 = None
  /\ addRow field value = Some (JArr [JObj [("a", JNum 1)]; JObj []]).
Proof.
  intros field value.
  destruct (row_count_stays_within_bounds field value) as [_ [Hrem [_ Hinv]]].
  destruct (row_count_stays_within_bounds field (JArr [JObj []; JObj []])) as [Hadd _].
  split; [|split; [|split]].
  - apply (Hinv 1 2); [reflexivity | reflexivity | vm_compute; split; discriminate].
  - apply (Hadd (ofInt 2)); reflexivity.
  - apply (Hrem (ofInt 1) 0%nat); reflexivity.
  - reflexivity.
Defined.

(** C5 as the specification words it fails: the bounds are any finite
    numbers. With [minRows] 2.5 and [maxRows] 3.5, three rows are within
    the bounds; removing one leaves two, below [minRows], and appending one
    gives four, above [maxRows]. *)
Lemma row_count_leaves_fractional_bounds :
  let field := JObj [("config", JObj [("minRows", JFrac 5 1); ("maxRows", JFrac 7 1)])] in
  let value := JArr [JObj []; JObj []; JObj []] in
  withinBounds field value
  /\ rowCount (applyOps field [Remove 0] value) = 2
  /\ ~ withinBounds field (applyOps field [Remove 0] value)
  /\ rowCount (applyOps field [Append] value) = 4
  /\ ~ withinBounds field (applyOps field [Append] value).
Proof.
  intros field value. split; [|split; [|split; [|split]]].
  - split; intros b [= <-]; reflexivity.
  - reflexivity.
  - intros [Hlo _]. specialize (Hlo (ofFrac 5 1) eq_refl). discriminate Hlo.
  - reflexivity.
  - intros [_ Hhi]. specialize (Hhi (ofFrac 7 1) eq_refl). discriminate Hhi.
Qed.

End RepeaterRows.

Section RepeaterNesting.
Import Js Repeater.





End RepeaterNesting.

(* ===================================================================== *)
(** * Properties of title derivation *)
(* ===================================================================== *)

Section WhiteSpace.
Import Js Title.

Lemma trimEnd_allSpaces (s : string) : allSpaces s = true -> trimEnd s = EmptyString.
Proof.
  induction s as [|c r IH]; [reflexivity|].
  cbn [allSpaces trimEnd]. intros [Hc Hr]%andb_true_iff.
  now rewrite (IH Hr), Hc.
Qed.

Lemma trim_allSpaces (s : string) : allSpaces s = true -> trim s = EmptyString.
Proof.
  unfold trim. induction s as [|c r IH]; [reflexivity|].
  cbn [allSpaces trimStart]. intros [Hc Hr]%andb_true_iff.
  rewrite Hc. now apply IH.
Qed.

Lemma trimEnd_empty (s : string) : trimEnd s = EmptyString -> allSpaces s = true.
Proof.
  induction s as [|c r IH]; [reflexivity|].
  cbn [allSpaces trimEnd].
  destruct (trimEnd r) eqn:E; [|discriminate].
  destruct (is_space c); [|discriminate]. intros _. now apply IH.
Qed.

Lemma trim_empty (s : string) : trim s = EmptyString -> allSpaces s = true.
Proof.
  unfold trim. induction s as [|c r IH]; [reflexivity|].
  cbn [allSpaces trimStart]. destruct (is_space c) eqn:Hc.
  - intros H. now apply IH.
  - intros H. apply trimEnd_empty in H. cbn [allSpaces] in H. now rewrite Hc in H.
Qed.

Lemma collapseSpaces_collapsed (inRun : bool) (s : string) :
  collapsed inRun (collapseSpaces_aux inRun s) = true.
Proof.
  revert inRun. induction s as [|c r IH]; intros inRun; [reflexivity|].
  cbn [collapseSpaces_aux]. destruct (is_space c) eqn:Hc.
  - destruct inRun; [apply IH|].
    cbn [collapsed]. change (is_space " ") with true. cbn. apply IH.
  - cbn [collapsed]. rewrite Hc. apply IH.
Qed.

Lemma collapseSpaces_allSpaces (inRun : bool) (s : string) :
  allSpaces s = true -> allSpaces (collapseSpaces_aux inRun s) = true.
Proof.
  revert inRun. induction s as [|c r IH]; intros inRun; [reflexivity|].
  cbn [allSpaces collapseSpaces_aux]. intros [Hc Hr]%andb_true_iff.
  rewrite Hc. destruct inRun; [now apply IH|].
  cbn [allSpaces]. change (is_space " ") with true. now apply IH.
Qed.

Lemma trimStart_collapsed (prev : bool) (s : string) :
  collapsed prev s = true -> collapsed true (trimStart s) = true.
Proof.
  revert prev. induction s as [|c r IH]; intros prev; [reflexivity|].
  cbn [collapsed trimStart]. destruct (is_space c) eqn:Hc.
  - intros [_ Hr]%andb_true_iff. now apply (IH true).
  - intros Hr. cbn [collapsed]. now rewrite Hc.
Qed.

Lemma trimEnd_spacesNormal (prev : bool) (s : string) :
  collapsed prev s = true ->
  trimEnd s = EmptyString \/ spacesNormal_aux prev (trimEnd s) = true.
Proof.
  revert prev. induction s as [|c r IH]; intros prev; [now left|].
  cbn [collapsed trimEnd]. destruct (is_space c) eqn:Hc.
  - intros [[Hsp Hprev]%andb_true_iff Hr]%andb_true_iff.
    destruct (IH true Hr) as [E|Hn].
    + rewrite E. now left.
    + right. destruct (trimEnd r) eqn:E; [discriminate|].
      cbn [spacesNormal_aux]. rewrite Hc, Hsp, Hprev. exact Hn.
  - intros Hr. right. destruct (IH false Hr) as [E|Hn].
    + rewrite E. cbn [spacesNormal_aux]. now rewrite Hc.
    + destruct (trimEnd r) eqn:E.
      * cbn [spacesNormal_aux]. now rewrite Hc.
      * cbn [spacesNormal_aux]. rewrite Hc. exact Hn.
Qed.

Lemma trim_collapse_spacesNormal (s : string) :
  spacesNormal (trim (collapseSpaces s)) = true.
Proof.
  unfold trim, collapseSpaces.
  pose proof (collapseSpaces_collapsed false s) as Hc.
  apply trimStart_collapsed in Hc.
  destruct (trimEnd_spacesNormal true _ Hc) as [E|Hn].
  - now rewrite E.
  - unfold spacesNormal. now destruct (trimEnd _).
Qed.

End WhiteSpace.

Section TitleTokens.
Import Js Title.

Lemma append_cons (c : ascii) (s t : string) : String c s +:+ t = String c (s +:+ t).
Proof. reflexivity. Qed.

Lemma append_nil (t : string) : EmptyString +:+ t = t.
Proof. reflexivity. Qed.

Lemma append_assoc (a b c : string) : (a +:+ b) +:+ c = a +:+ (b +:+ c).
Proof.
  induction a as [|x a IH]; [reflexivity|].
  rewrite !append_cons. f_equal. exact IH.
Qed.

Lemma append_empty_r (a : string) : a +:+ EmptyString = a.
Proof.
  induction a as [|x a IH]; [reflexivity|].
  rewrite append_cons. f_equal. exact IH.
Qed.

Lemma scan_literal (data : JsVal) (lit rest : string) :
  hasChar "{" lit = false ->
  scanTokens data None (lit +:+ rest) = lit +:+ scanTokens data None rest.
Proof.
  induction lit as [|c lit IH]; [reflexivity|].
  cbn [hasChar]. intros [Hc Hl]%orb_false_iff.
  rewrite !append_cons. cbn [scanTokens]. rewrite Hc. now rewrite IH.
Qed.

Lemma scan_open (data : JsVal) (buf tok rest : string) :
  hasChar "}" tok = false ->
  scanTokens data (Some buf) (tok +:+ String "}" rest)
  = if nonEmpty (buf +:+ tok)
    then tokenValue data (buf +:+ tok) +:+ scanTokens data None rest
    else String "{" (String "}" (scanTokens data None rest)).
Proof.
  revert buf. induction tok as [|c tok IH]; intros buf.
  - intros _. rewrite append_nil. cbn [scanTokens].
    change (Ascii.eqb "}" "}") with true. now rewrite append_empty_r.
  - cbn [hasChar]. intros [Hc Ht]%orb_false_iff.
    rewrite append_cons. cbn [scanTokens]. rewrite Hc, (IH _ Ht).
    now rewrite append_assoc, append_cons, append_nil.
Qed.

Lemma scan_token (data : JsVal) (lit tok rest : string) :
  hasChar "{" lit = false ->
  hasChar "}" tok = false ->
  nonEmpty tok = true ->
  substitute data (lit +:+ String "{" (tok +:+ String "}" rest))
  = lit +:+ tokenValue data tok +:+ substitute data rest.
Proof.
  intros Hl Ht Hne. unfold substitute. rewrite (scan_literal data lit _ Hl).
  f_equal. cbn [scanTokens]. change (Ascii.eqb "{" "{") with true.
  rewrite (scan_open data EmptyString tok rest Ht). rewrite append_nil.
  now rewrite Hne.
Qed.

Lemma scan_no_token (data : JsVal) (tpl : string) :
  hasChar "{" tpl = false -> substitute data tpl = tpl.
Proof.
  intros H. unfold substitute.
  rewrite <- (append_empty_r tpl) at 1.
  rewrite (scan_literal data tpl EmptyString H). cbn [scanTokens].
  apply append_empty_r.
Qed.

Lemma allSpaces_no_brace (s : string) : allSpaces s = true -> hasChar "{" s = false.
Proof.
  induction s as [|c r IH]; [reflexivity|].
  cbn [allSpaces hasChar]. intros [Hc Hr]%andb_true_iff.
  rewrite (IH Hr), orb_false_r.
  destruct (Ascii.eqb c "{") eqn:E; [|reflexivity].
  apply Ascii.eqb_eq in E. subst c. discriminate.
Qed.

Lemma walk_nullish (parts : list string) (cur : JsVal) :
  is_nullish cur = true -> is_nullish (fold_left walkStep parts cur) = true.
Proof.
  revert cur. induction parts as [|p parts IH]; intros cur H; [exact H|].
  cbn [fold_left]. apply IH. unfold walkStep. now rewrite H.
Qed.

Lemma asPrettyInline_nullish (v : JsVal) :
  is_nullish v = true -> asPrettyInline v = EmptyString.
Proof. now destruct v. Qed.

Lemma deriveTitle_unfold (tpl : string) (data : JsVal) :
  deriveTitleFromTemplate (JStr tpl) data = trim (collapseSpaces (substitute data tpl)).
Proof.
  unfold deriveTitleFromTemplate.
  assert (E : toStr (or_else (JStr tpl) (JStr "")) = tpl) by now destruct tpl.
  rewrite E. clear E. destruct (nonEmpty (trim tpl)) eqn:Hb; [reflexivity|].
  cbn [negb]. assert (Hs : allSpaces tpl = true).
  { apply trim_empty. now destruct (trim tpl). }
  rewrite (scan_no_token data tpl (allSpaces_no_brace tpl Hs)).
  symmetry. apply trim_allSpaces. now apply collapseSpaces_allSpaces.
Qed.

(** X30. For every template text and data value, the derived title is the
    template with its tokens substituted, white space runs collapsed and
    the ends trimmed, so white space occurs in it only as single inner
    spaces. Substitution leaves text without an opening brace as it is and
    replaces a token [{tok}] by the rendering of the token. When the walk
    along the dot-separated parts of [tok] reads values of the data only,
    that rendering is the pretty-inline rendering of the value reached,
    and a walk that meets a missing or null value contributes the empty
    text. The template "{name.first} {name.last}" on the data
    {name: {first: "Ada", last: "Lovelace"}} gives "Ada Lovelace". *)
Theorem derive_title_substitutes_and_normalizes (tpl : string) (data : JsVal) :
  let title := deriveTitleFromTemplate (JStr tpl) data in
  title = trim (collapseSpaces (substitute data tpl))
  /\ spacesNormal title = true
  /\ (hasChar "{" tpl = false -> substitute data tpl = tpl)
  /\ (forall lit tok rest,
        tpl = lit +:+ String "{" (tok +:+ String "}" rest) ->
        hasChar "{" lit = false ->
        hasChar "}" tok = false ->
        nonEmpty tok = true ->
        substitute data tpl = lit +:+ tokenValue data tok +:+ substitute data rest)
  /\ (forall tok,
        nonEmpty (trim tok) = true ->
        walksData data (pathParts (trim tok)) = true ->
        tokenValue data tok
        = asPrettyInline (fold_left walkStep (pathParts (trim tok)) data))
  /\ (forall tok pre rest,
        pathParts (trim tok) = pre ++ rest ->
        walksData data pre = true ->
        is_nullish (fold_left walkStep pre data) = true ->
        tokenValue data tok = EmptyString)
  /\ deriveTitleFromTemplate (JStr "{name.first} {name.last}")
       (JObj [("name", JObj [("first", JStr "Ada"); ("last", JStr "Lovelace")])])
     = "Ada Lovelace".
Proof.
  cbv zeta. rewrite deriveTitle_unfold.
  split; [reflexivity|]. split; [apply trim_collapse_spacesNormal|].
  split; [apply scan_no_token|]. split.
  { intros lit tok rest -> Hl Ht Hne. now apply scan_token. }
  split.
  { intros tok Hne _. unfold tokenValue, getByPath. cbv zeta. now rewrite Hne. }
  split.
  { intros tok pre rest Hparts _ Hnull. unfold tokenValue, getByPath. cbv zeta.
    destruct (nonEmpty (trim tok)); [|reflexivity]. cbn [negb].
    apply asPrettyInline_nullish. rewrite Hparts, fold_left_app.
    now apply walk_nullish. }
  vm_compute. reflexivity.
Qed.

Lemma derive_title_substitutes_and_normalizes_witness :
  let data := JObj [("name", JObj [("first", JStr "Ada")]); ("city", JNull)] in
  substitute data "Dr {name.first} of {city.zip}!" = "Dr Ada of !".
Proof.
  intros data.
  destruct (derive_title_substitutes_and_normalizes "Dr {name.first} of {city.zip}!" data)
    as [_ [_ [_ [Htok [Hval [Hmiss _]]]]]].
  rewrite (Htok "Dr " "name.first" " of {city.zip}!");
    [|reflexivity|reflexivity|reflexivity|reflexivity].
  destruct (derive_title_substitutes_and_normalizes " of {city.zip}!" data)
    as [_ [_ [_ [Htok2 _]]]].
  rewrite (Htok2 " of " "city.zip" "!");
    [|reflexivity|reflexivity|reflexivity|reflexivity].
  rewrite (Hval "name.first" eq_refl eq_refl).
  rewrite (Hmiss "city.zip" ["city"] ["zip"] eq_refl eq_refl eq_refl).
  destruct (derive_title_substitutes_and_normalizes "!" data) as [_ [_ [Hlit _]]].
  rewrite (Hlit eq_refl). reflexivity.
Defined.

End TitleTokens.

(* ===================================================================== *)
(** * Reading and writing object properties *)
(* ===================================================================== *)

Section ObjectFacts.
Import Js.

Lemma obj_has_false_get (o : Props) (k : string) :
  obj_has o k = false -> obj_get o k = JUndefined.
Proof.
  induction o as [|[k' v'] r IH]; [reflexivity|].
  cbn [obj_has obj_get]. intros [Hk Hr]%orb_false_iff. rewrite Hk. now apply IH.
Qed.

Lemma obj_get_replace (o : Props) (k k' : string) (v : JsVal) :
  obj_has o k = true ->
  obj_get (obj_replace o k v) k' = if String.eqb k k' then v else obj_get o k'.
Proof.
  induction o as [|[k0 v0] r IH]; [discriminate|].
  cbn [obj_has obj_replace obj_get]. destruct (String.eqb k0 k) eqn:E0.
  - intros _. apply String.eqb_eq in E0. subst k0. cbn [obj_get].
    now destruct (String.eqb k k').
  - cbn [orb obj_get]. intros Hr. destruct (String.eqb k0 k') eqn:E1.
    + apply String.eqb_eq in E1. subst k0.
      rewrite String.eqb_sym in E0. now rewrite E0.
    + now apply IH.
Qed.

Lemma obj_get_insert_index (o : Props) (i : nat) (k k' : string) (v : JsVal) :
  obj_has o k = false ->
  obj_get (obj_insert_index o i k v) k' = if String.eqb k k' then v else obj_get o k'.
Proof.
  induction o as [|[k0 v0] r IH]; [reflexivity|].
  cbn [obj_has obj_insert_index]. intros [E0 Hr]%orb_false_iff.
  destruct (index_of_key k0) as [j|]; [destruct (j <? i)%nat|]; try reflexivity.
  cbn [obj_get]. rewrite (IH Hr). destruct (String.eqb k0 k') eqn:E1; [|reflexivity].
  apply String.eqb_eq in E1. subst k0. rewrite String.eqb_sym in E0. now rewrite E0.
Qed.

Lemma obj_get_app_new (o : Props) (k k' : string) (v : JsVal) :
  obj_has o k = false ->
  obj_get (o ++ [(k, v)]) k' = if String.eqb k k' then v else obj_get o k'.
Proof.
  induction o as [|[k0 v0] r IH].
  - intros _. cbn. now destruct (String.eqb k k').
  - cbn [obj_has]. intros [E0 Hr]%orb_false_iff.
    cbn [app obj_get]. rewrite (IH Hr).
    destruct (String.eqb k0 k') eqn:E1; [|reflexivity].
    apply String.eqb_eq in E1. subst k0. rewrite String.eqb_sym in E0. now rewrite E0.
Qed.

Lemma obj_get_set (o : Props) (k k' : string) (v : JsVal) :
  obj_get (obj_set o k v) k' = if String.eqb k k' then v else obj_get o k'.
Proof.
  unfold obj_set. destruct (obj_has o k) eqn:Hk.
  - now apply obj_get_replace.
  - destruct (index_of_key k).
    + now apply obj_get_insert_index.
    + now apply obj_get_app_new.
Qed.

Lemma obj_get_set_eq (o : Props) (k : string) (v : JsVal) :
  obj_get (obj_set o k v) k = v.
Proof. now rewrite obj_get_set, String.eqb_refl. Qed.

Lemma obj_get_set_ne (o : Props) (k k' : string) (v : JsVal) :
  k <> k' -> obj_get (obj_set o k v) k' = obj_get o k'.
Proof. intros H. rewrite obj_get_set. apply String.eqb_neq in H. now rewrite H. Qed.

Lemma obj_get_delete (o : Props) (k k' : string) :
  obj_get (obj_delete o k) k' = if String.eqb k k' then JUndefined else obj_get o k'.
Proof.
  induction o as [|[k0 v0] r IH]; [now destruct (String.eqb k k')|].
  cbn [obj_delete]. destruct (String.eqb k0 k) eqn:E0.
  - apply String.eqb_eq in E0. subst k0. rewrite IH. cbn [obj_get].
    now destruct (String.eqb k k').
  - cbn [obj_get]. rewrite IH. destruct (String.eqb k0 k') eqn:E1; [|reflexivity].
    apply String.eqb_eq in E1. subst k0. rewrite String.eqb_sym in E0. now rewrite E0.
Qed.

Lemma obj_replace_same (o : Props) (k : string) :
  obj_replace o k (obj_get o k) = o.
Proof.
  induction o as [|[k0 v0] r IH]; [reflexivity|].
  cbn [obj_replace obj_get]. destruct (String.eqb k0 k); [reflexivity|].
  now rewrite IH.
Qed.

Lemma obj_set_same (o : Props) (k : string) :
  obj_has o k = true -> obj_set o k (obj_get o k) = o.
Proof. intros H. unfold obj_set. rewrite H. apply obj_replace_same. Qed.

Lemma obj_has_replace (o : Props) (k k' : string) (v : JsVal) :
  obj_has (obj_replace o k v) k' = obj_has o k'.
Proof.
  induction o as [|[k0 v0] r IH]; [reflexivity|].
  cbn [obj_replace]. destruct (String.eqb k0 k); cbn [obj_has]; [reflexivity|].
  now rewrite IH.
Qed.

Lemma obj_has_insert_index (o : Props) (i : nat) (k k' : string) (v : JsVal) :
  obj_has (obj_insert_index o i k v) k' = String.eqb k k' || obj_has o k'.
Proof.
  induction o as [|[k0 v0] r IH]; [reflexivity|].
  cbn [obj_insert_index].
  destruct (index_of_key k0) as [j|]; [destruct (j <? i)%nat|]; try reflexivity.
  cbn [obj_has]. rewrite IH.
  destruct (String.eqb k k'), (String.eqb k0 k'); reflexivity.
Qed.

Lemma obj_has_app (o o' : Props) (k : string) :
  obj_has (o ++ o') k = obj_has o k || obj_has o' k.
Proof.
  induction o as [|[k0 v0] r IH]; [reflexivity|].
  cbn [app obj_has]. rewrite IH. now rewrite orb_assoc.
Qed.

Lemma obj_has_set (o : Props) (k k' : string) (v : JsVal) :
  obj_has (obj_set o k v) k' = String.eqb k k' || obj_has o k'.
Proof.
  unfold obj_set. destruct (obj_has o k) eqn:Hk.
  - rewrite obj_has_replace. destruct (String.eqb k k') eqn:E; [|reflexivity].
    apply String.eqb_eq in E. subst k'. now rewrite Hk.
  - destruct (index_of_key k).
    + apply obj_has_insert_index.
    + rewrite obj_has_app. cbn [obj_has]. rewrite orb_false_r. apply orb_comm.
Qed.

End ObjectFacts.

(* ===================================================================== *)
(** * Properties of the view layout compiler *)
(* ===================================================================== *)

Section LayoutFallback.
Import Js Layout.

Lemma compileSections_no_rows (fieldsByKey : Props) (secs : list JsVal) :
  Forall (fun sec => compileSection fieldsByKey sec = Some None) secs ->
  compileSections fieldsByKey secs = Some [].
Proof.
  induction 1 as [|sec rest Hsec _ IH]; [reflexivity|].
  cbn [compileSections]. now rewrite Hsec, IH.
Qed.

Lemma compileSection_rows (fieldsByKey : Props) (sec : JsVal) (s : Section_) :
  compileSection fieldsByKey sec = Some (Some s) -> rows s <> [].
Proof.
  unfold compileSection. destruct (is_nullish sec); [discriminate|].
  destruct (iterate _) as [refs|]; [|discriminate].
  destruct (omap (rowOf fieldsByKey) refs) as [|row more] eqn:E; [discriminate|].
  intros [= <-]. cbn [rows]. discriminate.
Qed.

Lemma compileSections_origin (fieldsByKey : Props) (secs : list JsVal)
    (layout : list Section_) (s : Section_) :
  compileSections fieldsByKey secs = Some layout ->
  In s layout ->
  exists sec, In sec secs /\ compileSection fieldsByKey sec = Some (Some s).
Proof.
  revert layout. induction secs as [|sec rest IH]; intros layout.
  - intros [= <-] [].
  - cbn [compileSections].
    destruct (compileSection fieldsByKey sec) as [pushed|] eqn:Hsec; [|discriminate].
    destruct (compileSections fieldsByKey rest) as [more|] eqn:Hrest; [|discriminate].
    intros [= <-] Hin.
    assert (Hmore : In s more -> exists sec0,
               In sec0 (sec :: rest) /\ compileSection fieldsByKey sec0 = Some (Some s)).
    { intros Hm. destruct (IH more eq_refl Hm) as [sec0 [Hin0 Hc]].
      exists sec0. split; [now right | exact Hc]. }
    destruct pushed as [s0|]; [|now apply Hmore].
    destruct Hin as [<-|Hm]; [|now apply Hmore].
    exists sec. split; [now left | exact Hsec].
Qed.

Lemma buildLayout_without_sections (contentType viewConfig : JsVal) :
  truthy contentType = true ->
  cfgSectionsOf viewConfig = None ->
  buildLayoutFromView contentType viewConfig
  = Some (match fieldsOf contentType with
          | [] => []
          | _ => [allFieldsSection (fieldsOf contentType)]
          end).
Proof.
  intros Hct Hnone. unfold buildLayoutFromView. rewrite Hct, Hnone.
  cbn [negb default compileSections List.length Nat.eqb andb app].
  now destruct (fieldsOf contentType).
Qed.

Lemma buildLayout_with_sections (contentType viewConfig : JsVal) (secs : list JsVal) :
  truthy contentType = true ->
  cfgSectionsOf viewConfig = Some secs ->
  buildLayoutFromView contentType viewConfig
  = compileSections (buildFieldsByKey (fieldsOf contentType)) secs.
Proof.
  intros Hct Hsome. unfold buildLayoutFromView. rewrite Hct, Hsome.
  cbn [negb]. change (default [] (Some secs)) with secs.
  destruct (compileSections _ secs); [|reflexivity].
  now rewrite !andb_false_r.
Qed.

(** C1, as the code has it. For every content type that is there: when the
    view configuration has no sections collection, the layout is one
    section holding every keyed field of the content type in order, and
    the empty list when the content type has no keyed field; when a
    sections collection is there, the layout holds exactly the configured
    sections that have a usable row, each with its rows, so a collection
    that yields no usable row, the empty one included, gives the empty
    layout and never the all-fields section. *)
Theorem layout_fallback_only_without_sections (contentType viewConfig : JsVal) :
  truthy contentType = true ->
  let fields := fieldsOf contentType in
  let fieldsByKey := buildFieldsByKey fields in
  (cfgSectionsOf viewConfig = None ->
     buildLayoutFromView contentType viewConfig
     = Some (match fields with [] => [] | _ => [allFieldsSection fields] end)
     /\ List.map def (rows (allFieldsSection fields)) = fields)
  /\ (forall secs,
        cfgSectionsOf viewConfig = Some secs ->
        buildLayoutFromView contentType viewConfig = compileSections fieldsByKey secs
        /\ (Forall (fun sec => compileSection fieldsByKey sec = Some None) secs ->
            buildLayoutFromView contentType viewConfig = Some [])
        /\ (forall layout s,
              buildLayoutFromView contentType viewConfig = Some layout ->
              In s layout ->
              rows s <> []
              /\ exists sec, In sec secs
                             /\ compileSection fieldsByKey sec = Some (Some s)))
  /\ buildLayoutFromView contentType (JObj [("sections", JArr [])]) = Some [].
Proof.
  intros Hct fields fieldsByKey. split; [|split].
  - intros Hnone. split; [now apply buildLayout_without_sections|].
    cbn [allFieldsSection rows]. rewrite List.map_map. cbn [def]. apply List.map_id.
  - intros secs Hsome.
    rewrite (buildLayout_with_sections contentType viewConfig secs Hct Hsome).
    split; [reflexivity|]. split; [apply compileSections_no_rows|].
    intros layout s Hlayout Hin.
    destruct (compileSections_origin _ _ _ _ Hlayout Hin) as [sec [Hsec Hc]].
    split; [now apply (compileSection_rows _ _ _ Hc) | now exists sec].
  - now rewrite (buildLayout_with_sections contentType
                   (JObj [("sections", JArr [])]) [] Hct eq_refl).
Qed.

Lemma layout_fallback_only_without_sections_witness :
  let contentType :=
    JObj [("slug", JStr "post");
          ("fields", JArr [JObj [("field_key", JStr "body"); ("type", JStr "text")];
                           JObj [("label", JStr "no key")];
                           JObj [("key", JStr "tags"); ("type", JStr "tags")]])] in
  buildLayoutFromView contentType (JObj [("sections", JArr [])]) = Some []
  /\ (exists s, buildLayoutFromView contentType (JObj [("core", JObj [])]) = Some [s]
                /\ List.length (rows s) = 2%nat).
Proof.
  intros contentType.
  destruct (layout_fallback_only_without_sections contentType (JObj [("core", JObj [])]))
    as [Hnone [_ Hempty]]; [reflexivity|].
  split; [exact Hempty|].
  destruct Hnone as [Hfallback _]; [reflexivity|].
  eexists. split; [exact Hfallback | reflexivity].
Defined.

(** C1 as the specification words it fails: a content type without fields
    and a view configuration without a sections collection compile to the
    empty layout, not to one section. *)
Lemma layout_no_fields_no_sections_is_empty :
  let contentType := JObj [("slug", JStr "post"); ("fields", JArr [])] in
  cfgSectionsOf JUndefined = None
  /\ cfgSectionsOf (JObj [("core", JObj [])]) = None
  /\ buildLayoutFromView contentType JUndefined = Some []
  /\ buildLayoutFromView contentType (JObj [("core", JObj [])]) = Some []
  /\ buildLayoutFromView contentType JUndefined
     <> Some [allFieldsSection (fieldsOf contentType)].
Proof. repeat split. vm_compute. discriminate. Qed.

End LayoutFallback.

(* ===================================================================== *)
(** * Properties of relation resolution *)
(* ===================================================================== *)

Section RelationContext.
Import Js Relations.

Variable queryTypeBySlug : string -> option (list Props).
Variable queryEntries : JsVal -> option (list Props).
Variable queryEntry : bool -> string -> JsVal -> option (list Props).
Variable queryUserFields : JsVal -> option (list Props).
Variable queryUsers : list string -> option (list Props).

Abbreviation attach :=
  (attachResolvedUsersToEntries queryUserFields queryUsers).








End RelationContext.

Section RelationScenarios.
Import Js Relations.



End RelationScenarios.

(* ===================================================================== *)
(** * Properties of entry normalization *)
(* ===================================================================== *)

Section CamelCase.
Import Js Normalize.

Lemma upcase_is_upper (c : ascii) :
  is_lower c = true -> is_upper (upcase c) = true /\ downcase (upcase c) = c.
Proof.
  destruct c as [[] [] [] [] [] [] [] []]; vm_compute; intros H;
    try discriminate H; split; reflexivity.
Qed.

Lemma underscore_not_upper : is_upper "_" = false.
Proof. reflexivity. Qed.

Lemma snakeCase_id (s : string) : noUpper s = true -> snakeCase s = s.
Proof.
  induction s as [|c r IH]; [reflexivity|].
  cbn [noUpper snakeCase]. intros [Hc Hr]%andb_true_iff.
  apply negb_true_iff in Hc. rewrite Hc. now rewrite IH.
Qed.

Lemma camelCase_cons (a : ascii) (r : string) :
  camelCase (String a r)
  = if Ascii.eqb a "_"
    then match r with
         | String c r' =>
             if is_lower c then String (upcase c) (camelCase r')
             else String a (camelCase r)
         | EmptyString => String a EmptyString
         end
    else String a (camelCase r).
Proof. reflexivity. Qed.

Lemma snakeCase_camelCase_aux (s : string) :
  (noUpper s = true -> snakeCase (camelCase s) = s)
  /\ (forall a, noUpper (String a s) = true ->
                snakeCase (camelCase (String a s)) = String a s).
Proof.
  induction s as [|c r [IH1 IH2]].
  - split; [reflexivity|]. intros a. cbn [noUpper camelCase].
    intros [Ha _]%andb_true_iff. apply negb_true_iff in Ha.
    destruct (Ascii.eqb a "_"); cbn [snakeCase]; now rewrite Ha.
  - split; [apply IH2|]. intros a Hn.
    pose proof Hn as Hn'. cbn [noUpper] in Hn'.
    apply andb_true_iff in Hn' as [Ha Hcr]. apply negb_true_iff in Ha.
    pose proof Hcr as Hcr'. cbn [noUpper] in Hcr'.
    apply andb_true_iff in Hcr' as [_ Hr].
    rewrite camelCase_cons. destruct (Ascii.eqb a "_") eqn:Eu.
    + apply Ascii.eqb_eq in Eu. subst a. destruct (is_lower c) eqn:El.
      * destruct (upcase_is_upper c El) as [Hu Hd].
        cbn [snakeCase]. rewrite Hu, Hd. now rewrite (IH1 Hr).
      * cbn [snakeCase]. rewrite underscore_not_upper. now rewrite (IH2 c Hcr).
    + cbn [snakeCase]. rewrite Ha. now rewrite (IH2 c Hcr).
Qed.

Lemma snakeCase_camelCase (s : string) :
  noUpper s = true -> snakeCase (camelCase s) = s.
Proof. apply snakeCase_camelCase_aux. Qed.

Lemma camelCase_inj (a b : string) :
  noUpper a = true -> noUpper b = true -> camelCase a = camelCase b -> a = b.
Proof.
  intros Ha Hb E.
  rewrite <- (snakeCase_camelCase a Ha), <- (snakeCase_camelCase b Hb).
  now rewrite E.
Qed.

Lemma camelCase_alias_not_key (a b : string) :
  noUpper a = true -> noUpper b = true -> camelCase a <> a -> camelCase a <> b.
Proof.
  intros Ha Hb Hne E. apply Hne.
  rewrite <- (snakeCase_camelCase a Ha) at 2.
  rewrite E. now rewrite (snakeCase_id b Hb).
Qed.

Lemma camelCase_unmarked (s : string) : hasAliasMark s = false -> camelCase s = s.
Proof.
  induction s as [|a r IH]; [reflexivity|].
  cbn [hasAliasMark]. intros [Hhead Hr]%orb_false_iff.
  rewrite camelCase_cons. destruct (Ascii.eqb a "_").
  - destruct r as [|c r']; [reflexivity|]. cbn [andb] in Hhead.
    rewrite Hhead. now rewrite (IH Hr).
  - now rewrite (IH Hr).
Qed.

Lemma camelCase_head (c : ascii) (r : string) :
  is_lower c = false ->
  match camelCase (String c r) with
  | String x _ => is_lower x
  | EmptyString => false
  end = false.
Proof.
  intros Hc. rewrite camelCase_cons. destruct (Ascii.eqb c "_") eqn:E; [|exact Hc].
  destruct r as [|d r']; [exact Hc|].
  destruct (is_lower d) eqn:Ed; [|exact Hc].
  destruct (upcase_is_upper d Ed) as [Hu _].
  revert Hu. generalize (upcase d). intros x.
  destruct x as [[] [] [] [] [] [] [] []]; vm_compute; congruence.
Qed.

Lemma upcase_not_underscore (c : ascii) :
  is_lower c = true -> Ascii.eqb (upcase c) "_" = false.
Proof.
  destruct c as [[] [] [] [] [] [] [] []]; vm_compute; congruence.
Qed.

Lemma camelCase_no_mark_aux (s : string) :
  hasAliasMark (camelCase s) = false
  /\ (forall a, hasAliasMark (camelCase (String a s)) = false).
Proof.
  induction s as [|c r [IH1 IH2]].
  - split; [reflexivity|]. intros a. rewrite camelCase_cons.
    destruct (Ascii.eqb a "_") eqn:E; cbn [camelCase hasAliasMark];
      now rewrite ?andb_false_r.
  - split; [apply IH2|]. intros a. rewrite camelCase_cons.
    destruct (Ascii.eqb a "_") eqn:E.
    + destruct (is_lower c) eqn:Ec.
      * cbn [hasAliasMark]. rewrite (upcase_not_underscore c Ec). exact IH1.
      * cbn [hasAliasMark]. rewrite E, (IH2 c). cbn [andb].
        rewrite (camelCase_head c r Ec). reflexivity.
    + cbn [hasAliasMark]. rewrite E. cbn [andb orb]. apply IH2.
Qed.

Lemma camelCase_idem (s : string) : camelCase (camelCase s) = camelCase s.
Proof. apply camelCase_unmarked, camelCase_no_mark_aux. Qed.

End CamelCase.

Section AliasPass.
Import Js Normalize.

Lemma aliasStep_cases (p : Props) (g : FieldDef) :
  aliasStep p g
  = if aliasPending p (key g)
    then obj_delete (obj_set p (key g) (obj_get p (camelCase (key g)))) (camelCase (key g))
    else p.
Proof. reflexivity. Qed.

Lemma aliasPending_differ (p : Props) (k : string) :
  aliasPending p k = true -> camelCase k <> k.
Proof.
  unfold aliasPending. intros H E. rewrite E in H.
  now destruct (is_defined (obj_get p k)).
Qed.

Lemma aliasStep_get (p : Props) (g : FieldDef) (k : string) :
  obj_get (aliasStep p g) k
  = if aliasPending p (key g)
    then (if String.eqb (camelCase (key g)) k then JUndefined
          else if String.eqb (key g) k then obj_get p (camelCase (key g))
          else obj_get p k)
    else obj_get p k.
Proof.
  rewrite aliasStep_cases. destruct (aliasPending p (key g)); [|reflexivity].
  now rewrite obj_get_delete, obj_get_set.
Qed.

Lemma aliasStep_get_other (p : Props) (g : FieldDef) (k : string) :
  camelCase (key g) <> k -> key g <> k -> obj_get (aliasStep p g) k = obj_get p k.
Proof.
  intros H1 H2. rewrite aliasStep_get.
  apply String.eqb_neq in H1, H2. rewrite H1, H2.
  now destruct (aliasPending p (key g)).
Qed.

Lemma aliasLoop_field (fieldDefs : list FieldDef) (p : Props) (k : string) :
  snakeKeys fieldDefs ->
  noUpper k = true ->
  camelCase k <> k ->
  let moved := existsb (fun g => String.eqb (key g) k) fieldDefs && aliasPending p k in
  obj_get (aliasLoop fieldDefs p) k
    = (if moved then obj_get p (camelCase k) else obj_get p k)
  /\ obj_get (aliasLoop fieldDefs p) (camelCase k)
    = (if moved then JUndefined else obj_get p (camelCase k)).
Proof.
  intros Hsnake Hk Hactive. revert p.
  induction Hsnake as [|g rest Hg _ IH]; intros p; [now split|].
  cbn [aliasLoop fold_left existsb]. cbv zeta.
  destruct (IH (aliasStep p g)) as [IHk IHc]. cbv zeta in IHk, IHc.
  unfold aliasLoop in IHk, IHc. rewrite IHk, IHc. clear IHk IHc IH.
  destruct (String.eqb (key g) k) eqn:Eg.
  - apply String.eqb_eq in Eg. cbn [orb andb].
    destruct (aliasPending p k) eqn:Ep.
    + assert (Hk1 : obj_get (aliasStep p g) k = obj_get p (camelCase k)).
      { rewrite aliasStep_get, Eg, Ep, String.eqb_refl.
        apply String.eqb_neq in Hactive. now rewrite Hactive. }
      assert (Hc1 : obj_get (aliasStep p g) (camelCase k) = JUndefined).
      { now rewrite aliasStep_get, Eg, Ep, String.eqb_refl. }
      assert (Ep1 : aliasPending (aliasStep p g) k = false).
      { unfold aliasPending. now rewrite Hc1. }
      rewrite Ep1, andb_false_r. now rewrite Hk1, Hc1.
    + assert (E1 : aliasStep p g = p) by now rewrite aliasStep_cases, Eg, Ep.
      rewrite E1, Ep, andb_false_r. now split.
  - apply String.eqb_neq in Eg. cbn [orb].
    assert (Hk1 : obj_get (aliasStep p g) k = obj_get p k).
    { rewrite aliasStep_get. destruct (aliasPending p (key g)) eqn:Ep; [|reflexivity].
      apply aliasPending_differ in Ep.
      pose proof (camelCase_alias_not_key (key g) k Hg Hk Ep) as Hne.
      apply String.eqb_neq in Hne, Eg. now rewrite Hne, Eg. }
    assert (Hc1 : obj_get (aliasStep p g) (camelCase k) = obj_get p (camelCase k)).
    { apply aliasStep_get_other.
      - intros E. apply Eg. now apply camelCase_inj.
      - intros E. now apply (camelCase_alias_not_key k (key g) Hk Hg Hactive). }
    assert (Ep1 : aliasPending (aliasStep p g) k = aliasPending p k).
    { unfold aliasPending. now rewrite Hk1, Hc1. }
    now rewrite Ep1, Hk1, Hc1.
Qed.

Lemma aliasStep_settles (p : Props) (g : FieldDef) :
  aliasPending (aliasStep p g) (key g) = false.
Proof.
  destruct (aliasPending p (key g)) eqn:Ep.
  - unfold aliasPending. rewrite aliasStep_get, Ep, String.eqb_refl. reflexivity.
  - now rewrite aliasStep_cases, Ep.
Qed.

Lemma aliasStep_keeps_settled (p : Props) (g : FieldDef) (k : string) :
  aliasPending p k = false -> aliasPending (aliasStep p g) k = false.
Proof.
  intros Hk. destruct (aliasPending p (key g)) eqn:Eg;
    [|now rewrite aliasStep_cases, Eg].
  destruct (String.eqb (camelCase k) k) eqn:Esame.
  { apply String.eqb_eq in Esame. unfold aliasPending. rewrite Esame.
    now destruct (is_defined _). }
  apply String.eqb_neq in Esame. pose proof (aliasPending_differ _ _ Eg) as Hg.
  destruct (String.eqb (camelCase (key g)) (camelCase k)) eqn:Ecam.
  - unfold aliasPending. rewrite aliasStep_get, Eg, Ecam. reflexivity.
  - apply String.eqb_neq in Ecam.
    assert (Hkey : key g <> k) by (intros E; apply Ecam; now rewrite E).
    assert (H1 : obj_get (aliasStep p g) (camelCase k) = obj_get p (camelCase k)).
    { apply aliasStep_get_other; [exact Ecam|].
      intros E. apply Hg. rewrite E. apply camelCase_idem. }
    assert (H2 : obj_get (aliasStep p g) k = obj_get p k).
    { apply aliasStep_get_other; [|exact Hkey].
      intros E. apply Esame. rewrite <- E. apply camelCase_idem. }
    unfold aliasPending in *. now rewrite H1, H2.
Qed.

Lemma aliasLoop_keeps_settled (fieldDefs : list FieldDef) (p : Props) (k : string) :
  aliasPending p k = false -> aliasPending (aliasLoop fieldDefs p) k = false.
Proof.
  revert p. induction fieldDefs as [|g rest IH]; intros p H; [exact H|].
  cbn [aliasLoop fold_left]. apply IH. now apply aliasStep_keeps_settled.
Qed.

Lemma aliasLoop_settled (fieldDefs : list FieldDef) (p : Props) (f : FieldDef) :
  In f fieldDefs ->
  aliasPending (aliasLoop fieldDefs p) (key f) = false.
Proof.
  revert p. induction fieldDefs as [|g rest IH]; intros p Hin; [destruct Hin|].
  cbn [aliasLoop fold_left]. destruct Hin as [<-|Hin]; [|now apply IH].
  apply aliasLoop_keeps_settled, aliasStep_settles.
Qed.

Lemma aliasLoop_idle (fieldDefs : list FieldDef) (p : Props) :
  (forall f, In f fieldDefs -> aliasPending p (key f) = false) ->
  aliasLoop fieldDefs p = p.
Proof.
  induction fieldDefs as [|g rest IH]; intros H; [reflexivity|].
  cbn [aliasLoop fold_left]. rewrite aliasStep_cases, (H g) by now left.
  apply IH. intros f Hf. apply H. now right.
Qed.

End AliasPass.

Section CanonPass.
Import Js Normalize.

Variable normalizeEmail : JsVal -> option JsVal.
Variable normalizePhoneE164 : JsVal -> string -> option JsVal.
Variable normalizeUrl : JsVal -> option JsVal.
Variable normalizeAddress : JsVal -> option JsVal.

Abbreviation canonicalizer :=
  (canonicalizerOf normalizeEmail normalizePhoneE164 normalizeUrl normalizeAddress).
Abbreviation step :=
  (canonStep normalizeEmail normalizePhoneE164 normalizeUrl normalizeAddress).
Abbreviation loop :=
  (canonLoop normalizeEmail normalizePhoneE164 normalizeUrl normalizeAddress).
Abbreviation try :=
  (tryNormalize normalizeEmail normalizePhoneE164 normalizeUrl normalizeAddress).
Abbreviation normalize :=
  (normalizeEntryData normalizeEmail normalizePhoneE164 normalizeUrl normalizeAddress).
Abbreviation settled :=
  (Normalize.settled normalizeEmail normalizePhoneE164 normalizeUrl normalizeAddress).

Lemma step_get_other (o o' : Props) (f : FieldDef) (k : string) :
  step o f = Some o' ->
  (canonicalizer (type f) <> None -> key f <> k) ->
  obj_get o' k = obj_get o k.
Proof.
  unfold canonStep. destruct (canonicalizer (type f)) as [canon|]; [|congruence].
  destruct (canon _) as [w|]; [|discriminate]. intros [= <-] Hne.
  apply obj_get_set_ne, Hne. discriminate.
Qed.

Lemma step_has (o o' : Props) (f : FieldDef) (k : string) :
  step o f = Some o' -> obj_has o k = true -> obj_has o' k = true.
Proof.
  unfold canonStep. destruct (canonicalizer (type f)) as [canon|]; [|congruence].
  destruct (canon _) as [w|]; [|discriminate]. intros [= <-] H.
  rewrite obj_has_set, H. apply orb_true_r.
Qed.

Lemma loop_get_other (fieldDefs : list FieldDef) (o : Props) (k : string) :
  (forall f, In f fieldDefs -> canonicalizer (type f) <> None -> key f <> k) ->
  obj_get (fst (loop fieldDefs o)) k = obj_get o k.
Proof.
  revert o. induction fieldDefs as [|f rest IH]; intros o Hne; [reflexivity|].
  cbn [canonLoop]. destruct (step o f) as [o'|] eqn:Es; [|reflexivity].
  rewrite IH by (intros g Hg; apply Hne; now right).
  apply (step_get_other o o' f k Es). apply Hne. now left.
Qed.

Lemma loop_has (fieldDefs : list FieldDef) (o : Props) (k : string) :
  obj_has o k = true -> obj_has (fst (loop fieldDefs o)) k = true.
Proof.
  revert o. induction fieldDefs as [|f rest IH]; intros o H; [exact H|].
  cbn [canonLoop]. destruct (step o f) as [o'|] eqn:Es; [|exact H].
  apply IH. now apply (step_has o o' f k Es).
Qed.

Lemma step_settled (o : Props) (f : FieldDef) : settled o f -> step o f = Some o.
Proof.
  unfold settled, canonStep. intros H.
  destruct (canonicalizer (type f)) as [canon|]; [|reflexivity].
  destruct (H canon eq_refl) as [Hhas Hfix]. rewrite Hfix.
  now rewrite obj_set_same.
Qed.

Lemma loop_settled (fieldDefs : list FieldDef) (o : Props) :
  (forall f, In f fieldDefs -> settled o f) -> loop fieldDefs o = (o, true).
Proof.
  induction fieldDefs as [|f rest IH]; intros H; [reflexivity|].
  cbn [canonLoop]. rewrite (step_settled o f) by (apply H; now left).
  apply IH. intros g Hg. apply H. now right.
Qed.

Lemma canonicalizer_untyped (f : FieldDef) :
  typed f = false -> canonicalizer (type f) = None.
Proof.
  unfold typed, canonicalizerOf.
  destruct (String.eqb (type f) "email"); [discriminate|].
  destruct (String.eqb (type f) "phone"); [discriminate|].
  destruct (String.eqb (type f) "url"); [discriminate|].
  destruct (String.eqb (type f) "address"); [discriminate|]. reflexivity.
Qed.

(** ** The store *)

Lemma deref_insert_fresh (h : gmap nat JsVal) (l : nat) (v : JsVal) :
  is_Some (h !! l) ->
  <[fresh (dom h) := v]> h !! l = h !! l.
Proof.
  intros Hl. apply lookup_insert_ne. intros E.
  apply (is_fresh (dom h)). rewrite E. now apply elem_of_dom.
Qed.

Lemma normalize_cases (h : gmap nat JsVal) (fieldDefs : list FieldDef) (l : nat) :
  normalize h fieldDefs l
  = (<[fresh (dom h) := JObj (fst (try fieldDefs (deref h l)))]> h,
     if snd (try fieldDefs (deref h l)) then fresh (dom h) else l).
Proof.
  unfold normalizeEntryData. now destruct (try fieldDefs (deref h l)).
Qed.

Lemma aliasLoop_untouched (fieldDefs : list FieldDef) (p : Props) (k : string) :
  snakeKeys fieldDefs ->
  noUpper k = true ->
  camelCase k = k ->
  obj_get (aliasLoop fieldDefs p) k = obj_get p k.
Proof.
  intros Hsnake Hk Hsame. revert p.
  induction Hsnake as [|g rest Hg _ IH]; intros p; [reflexivity|].
  cbn [aliasLoop fold_left]. unfold aliasLoop in IH. rewrite IH.
  rewrite aliasStep_get. destruct (aliasPending p (key g)) eqn:Ep; [|reflexivity].
  apply aliasPending_differ in Ep.
  pose proof (camelCase_alias_not_key (key g) k Hg Hk Ep) as Hne.
  assert (Hkey : key g <> k) by (intros E; apply Ep; now rewrite E).
  apply String.eqb_neq in Hne, Hkey. now rewrite Hne, Hkey.
Qed.

(** C8, as the code has it. Normalization works on a new object and writes
    to nothing else, so every object of the store, the input payload
    included, is as before. For a field list none of whose keys and aliases
    names a member of [Object.prototype] ([dataKeys]): when no canonicalizer
    throws, the result is the new object, the aliases moved, then the typed
    fields canonicalized. For snake_case keys the first loop moves the
    value of a field's camelCase alias to the field's key and drops the
    alias exactly when the input has the alias and lacks the key, and
    leaves both as they were otherwise; the second loop writes only the
    keys of fields with a canonicalizer. When a canonicalizer throws, the
    whole input payload is returned as it is, aliases unmoved;
    normalization returns in either case. *)
Theorem normalization_moves_aliases_or_returns_input
    (h : gmap nat JsVal) (fieldDefs : list FieldDef) (l : nat) (d : JsVal) :
  h !! l = Some d ->
  let p0 := spread (or_else d (JObj [])) in
  let aliased := aliasLoop fieldDefs p0 in
  let h' := fst (normalize h fieldDefs l) in
  let r := snd (normalize h fieldDefs l) in
  (forall l', is_Some (h !! l') -> h' !! l' = h !! l')
  /\ (dataKeys fieldDefs = true ->
      (snd (loop fieldDefs aliased) = true ->
         h !! r = None /\ deref h' r = JObj (fst (loop fieldDefs aliased)))
      /\ (snd (loop fieldDefs aliased) = false -> r = l /\ deref h' r = d)
      /\ (snakeKeys fieldDefs ->
          forall f, In f fieldDefs ->
            (aliasPending p0 (key f) = true ->
               obj_get aliased (key f) = obj_get p0 (camelCase (key f))
               /\ obj_get aliased (camelCase (key f)) = JUndefined)
            /\ (aliasPending p0 (key f) = false ->
               obj_get aliased (key f) = obj_get p0 (key f)
               /\ obj_get aliased (camelCase (key f))
                  = obj_get p0 (camelCase (key f))))
      /\ (forall k,
            (forall f, In f fieldDefs -> canonicalizer (type f) <> None -> key f <> k) ->
            obj_get (fst (loop fieldDefs aliased)) k = obj_get aliased k)).
Proof.
  intros Hl p0 aliased h' r. subst h' r. rewrite normalize_cases. cbn [fst snd].
  assert (Hd : deref h l = d) by (unfold deref; now rewrite Hl).
  rewrite Hd. unfold tryNormalize. fold p0. fold aliased.
  split; [|intros _; split; [|split; [|split]]].
  - intros l' Hl'. now apply deref_insert_fresh.
  - intros ->. split.
    + apply not_elem_of_dom, is_fresh.
    + unfold deref. now rewrite lookup_insert_eq.
  - intros ->. split; [reflexivity|].
    unfold deref. rewrite deref_insert_fresh by (now rewrite Hl). now rewrite Hl.
  - intros Hsnake f Hf.
    assert (Hk : noUpper (key f) = true).
    { now apply (proj1 (List.Forall_forall _ _) Hsnake f). }
    assert (Hex : existsb (fun g => String.eqb (key g) (key f)) fieldDefs = true).
    { apply existsb_exists. exists f. split; [exact Hf | apply String.eqb_refl]. }
    destruct (String.eqb (camelCase (key f)) (key f)) eqn:E.
    + apply String.eqb_eq in E. split.
      * intros Hp. apply aliasPending_differ in Hp. contradiction.
      * intros _. rewrite E. split; now apply aliasLoop_untouched.
    + apply String.eqb_neq in E.
      destruct (aliasLoop_field fieldDefs p0 (key f) Hsnake Hk E) as [Hkey Hcam].
      cbv zeta in Hkey, Hcam. rewrite Hex in Hkey, Hcam. cbn [andb] in Hkey, Hcam.
      fold aliased in Hkey, Hcam.
      split; intros Hp; rewrite Hp in Hkey, Hcam; now split.
  - intros k Hk. now apply loop_get_other.
Qed.

Lemma loop_untyped (fieldDefs : list FieldDef) (o : Props) :
  (forall f, In f fieldDefs -> typed f = false) -> loop fieldDefs o = (o, true).
Proof.
  intros H. apply loop_settled. intros f Hf canon Hc.
  rewrite (canonicalizer_untyped f (H f Hf)) in Hc. discriminate.
Qed.

Lemma try_fixpoint_untyped (fieldDefs : list FieldDef) (dataIn : JsVal) :
  (forall f, In f fieldDefs -> typed f = false) ->
  try fieldDefs (JObj (fst (try fieldDefs dataIn)))
  = (fst (try fieldDefs dataIn), true).
Proof.
  intros H. unfold tryNormalize. rewrite !(loop_untyped _ _ H). cbn [fst].
  set (a := aliasLoop fieldDefs (spread (or_else dataIn (JObj [])))).
  change (spread (or_else (JObj a) (JObj []))) with a.
  rewrite (aliasLoop_idle fieldDefs a); [reflexivity|].
  intros f Hf. now apply aliasLoop_settled.
Qed.

Lemma normalize_twice (h : gmap nat JsVal) (fieldDefs : list FieldDef) (l : nat) :
  is_Some (h !! l) ->
  (snd (try fieldDefs (deref h l)) = true ->
   try fieldDefs (JObj (fst (try fieldDefs (deref h l))))
   = (fst (try fieldDefs (deref h l)), true)) ->
  normalized normalizeEmail normalizePhoneE164 normalizeUrl normalizeAddress
    (fst (normalize h fieldDefs l)) fieldDefs (snd (normalize h fieldDefs l))
  = normalized normalizeEmail normalizePhoneE164 normalizeUrl normalizeAddress
      h fieldDefs l.
Proof.
  intros Hl Hfix.
  unfold normalized. rewrite !normalize_cases. cbn [fst snd].
  destruct (snd (try fieldDefs (deref h l))) eqn:Hok.
  - assert (E : deref (<[fresh (dom h) := JObj (fst (try fieldDefs (deref h l)))]> h)
                      (fresh (dom h))
                = JObj (fst (try fieldDefs (deref h l)))).
    { unfold deref. now rewrite lookup_insert_eq. }
    rewrite E, (Hfix eq_refl).
    cbn [fst snd]. unfold deref at 1. now rewrite lookup_insert_eq.
  - assert (E : deref (<[fresh (dom h) := JObj (fst (try fieldDefs (deref h l)))]> h) l
                = deref h l).
    { unfold deref. now rewrite deref_insert_fresh. }
    rewrite E, Hok. unfold deref at 1.
    rewrite deref_insert_fresh; [exact E|].
    rewrite deref_insert_fresh by exact Hl. exact Hl.
Qed.

End CanonPass.



Section NormalizeScenarios.
Import Js Normalize.

Lemma normalization_moves_aliases_or_returns_input_witness :
  normalized lowerEmail textPhone keepUrl objectAddress contactStore contactFields 4
  = JObj [("phone", JStr "+15550100"); ("first_name", JStr "Ada");
          ("work_email", JStr "ada@example.com")]
  /\ contactStore !! 4%nat = Some contactPayload
  /\ dataKeys contactFields = true
  /\ obj_get (aliasLoop contactFields (spread contactPayload)) "first_name"
     = JStr "Ada"
  /\ obj_get (aliasLoop contactFields (spread contactPayload)) "firstName"
     = JUndefined
  /\ obj_get (aliasLoop contactFields (spread contactPayload)) "phone"
     = JStr "+15550100".
Proof.
  destruct (normalization_moves_aliases_or_returns_input
              lowerEmail textPhone keepUrl objectAddress
              contactStore contactFields 4 contactPayload eq_refl)
    as [_ Hdata].
  destruct (Hdata eq_refl) as [Hdone [_ [Halias _]]].
  destruct Hdone as [_ Hres]; [vm_compute; reflexivity|].
  assert (Hsnake : snakeKeys contactFields) by (repeat constructor).
  split; [|split; [reflexivity|split; [reflexivity|]]].
  - unfold normalized.
    destruct (normalizeEntryData lowerEmail textPhone keepUrl objectAddress
                contactStore contactFields 4) as [h' r].
    cbn [fst snd] in Hres. rewrite Hres. vm_compute. reflexivity.
  - destruct (Halias Hsnake {| key := "first_name"; type := "text" |})
      as [[Hkey Hcam] _]; [now left | reflexivity|].
    destruct (Halias Hsnake {| key := "phone"; type := "phone" |})
      as [_ [Hphone _]]; [now right; right; left | reflexivity|].
    split; [exact Hkey | split; [exact Hcam | exact Hphone]].
Defined.

(** C8 as the specification words it fails: the input has the alias
    [firstName] and lacks [first_name], yet when the e-mail canonicalizer
    throws, the payload returned is the input itself, alias unmoved. *)
Lemma normalization_keeps_alias_when_canonicalizer_throws :
  let returned :=
    normalized throwingEmail textPhone keepUrl objectAddress
               contactStore contactFields 4 in
  aliasPending (spread contactPayload) "first_name" = true
  /\ returned = contactPayload
  /\ getProp returned "first_name" = JUndefined
  /\ getProp returned "firstName" = JStr "Ada".
Proof. vm_compute. repeat split. Qed.

End NormalizeScenarios.

(* ===================================================================== *)
(** * Properties of slugs *)
(* ===================================================================== *)

Section SlugFacts.
Import Js Title Slug.

Lemma hyphen_not_slugChar : is_slugChar "-" = false.
Proof. reflexivity. Qed.

Lemma eqb_hyphen (c : ascii) : Ascii.eqb c "-" = true -> c = "-"%char.
Proof. apply Ascii.eqb_eq. Qed.

Lemma hyphenate_aux_hyphenated (s : string) :
  forall b, hyphenated b (hyphenate_aux b s) = true.
Proof.
  induction s as [|c r IH]; intros b; [reflexivity|].
  cbn [hyphenate_aux].
  destruct (is_slugChar c) eqn:Ec.
  - cbn [hyphenated].
    destruct (Ascii.eqb c "-") eqn:Eh.
    + apply eqb_hyphen in Eh. subst c. discriminate Ec.
    + rewrite Ec. apply IH.
  - destruct b; [apply IH|].
    cbn [hyphenated]. change (Ascii.eqb "-" "-") with true. apply IH.
Qed.

Lemma hyphenated_weaken (s : string) (b : bool) :
  hyphenated b s = true -> hyphenated false s = true.
Proof.
  destruct s as [|c r]; [reflexivity|]. cbn [hyphenated].
  destruct (Ascii.eqb c "-"); [|tauto].
  intros H. apply andb_true_iff in H as [_ H]. exact H.
Qed.

Lemma dropHyphensStart_hyphenated (s : string) :
  forall b, hyphenated b s = true -> hyphenated true (dropHyphensStart s) = true.
Proof.
  induction s as [|c r IH]; intros b H; [reflexivity|].
  cbn [dropHyphensStart]. cbn [hyphenated] in H.
  destruct (Ascii.eqb c "-") eqn:Eh.
  - apply andb_true_iff in H as [_ H]. exact (IH _ H).
  - cbn [hyphenated]. rewrite Eh. exact H.
Qed.

Lemma dropHyphensEnd_slugBody (s : string) :
  forall p, hyphenated p s = true ->
    dropHyphensEnd s = EmptyString \/ slugBody p (dropHyphensEnd s) = true.
Proof.
  induction s as [|c r IH]; intros p H; [left; reflexivity|].
  cbn [hyphenated] in H. cbn [dropHyphensEnd].
  destruct (Ascii.eqb c "-") eqn:Eh.
  - apply andb_true_iff in H as [Hp H].
    destruct (IH _ H) as [E|B].
    + rewrite E. left. reflexivity.
    + destruct (dropHyphensEnd r) as [|c' r'] eqn:E; [cbn in B; discriminate B|].
      right. cbn [slugBody]. rewrite Eh, Hp. exact B.
  - apply andb_true_iff in H as [Hc H].
    right. destruct (dropHyphensEnd r) as [|c' r'] eqn:E.
    + cbn [slugBody]. rewrite Eh, Hc. reflexivity.
    + destruct (IH _ H) as [E'|B]; [discriminate E'|].
      change (slugBody p (String c (String c' r')))
        with (if Ascii.eqb c "-" then negb p && slugBody true (String c' r')
              else is_slugChar c && slugBody false (String c' r')).
      rewrite Eh, Hc. exact B.
Qed.

Lemma slugify_slugText (v : JsVal) : slugText (slugify v) = true.
Proof.
  unfold slugify, stripHyphens, hyphenate.
  set (t := toLowerCase _).
  pose proof (hyphenate_aux_hyphenated t false) as H1.
  apply dropHyphensStart_hyphenated in H1.
  apply dropHyphensEnd_slugBody in H1.
  destruct H1 as [E|B].
  - rewrite E. reflexivity.
  - destruct (dropHyphensEnd _); [reflexivity|exact B].
Qed.

(** *** What a slug in normal form looks like *)

Lemma slugBody_chars (s : string) :
  forall p c, slugBody p s = true -> hasChar c s = true ->
    is_slugChar c || Ascii.eqb c "-" = true.
Proof.
  induction s as [|x r IH]; intros p c B H; [discriminate H|].
  cbn [slugBody] in B. cbn [hasChar] in H.
  apply orb_true_iff in H as [H|H].
  - apply Ascii.eqb_eq in H. subst x.
    destruct (Ascii.eqb c "-"); [apply orb_true_r|].
    apply andb_true_iff in B as [B _]. rewrite B. reflexivity.
  - destruct (Ascii.eqb x "-"); apply andb_true_iff in B as [_ B]; exact (IH _ _ B H).
Qed.

Lemma slugBody_last (s : string) :
  forall p, slugBody p s = true -> lastChar s <> Some "-"%char.
Proof.
  induction s as [|x r IH]; intros p B; [discriminate|].
  cbn [slugBody] in B.
  destruct (Ascii.eqb x "-") eqn:Eh; apply andb_true_iff in B as [Hx B].
  - destruct r as [|y r']; [discriminate B|]. exact (IH _ B).
  - destruct r as [|y r'].
    + cbn. intros E. injection E as E. subst x. discriminate Eh.
    + exact (IH _ B).
Qed.

Lemma slugBody_no_double (s : string) :
  forall p, slugBody p s = true -> includes s "--" = false.
Proof.
  induction s as [|x r IH]; intros p B; [reflexivity|].
  cbn [slugBody] in B. cbn [includes].
  destruct (Ascii.eqb x "-") eqn:Eh; apply andb_true_iff in B as [Hx B].
  - rewrite (IH _ B), orb_false_r.
    destruct r as [|y r']; [discriminate B|].
    cbn [slugBody] in B. cbn [isPrefix].
    destruct (Ascii.eqb y "-") eqn:Ey; [discriminate B|].
    rewrite (Ascii.eqb_sym "-"%char y), Ey. apply andb_false_r.
  - rewrite (IH _ B), orb_false_r.
    cbn [isPrefix]. rewrite (Ascii.eqb_sym "-"%char x), Eh. reflexivity.
Qed.

Lemma slugBody_first (s : string) :
  slugBody true s = true -> isPrefix "-" s = false.
Proof.
  destruct s as [|x r]; [discriminate|].
  cbn [slugBody isPrefix]. rewrite (Ascii.eqb_sym "-"%char x).
  destruct (Ascii.eqb x "-"); [discriminate|reflexivity].
Qed.

(** *** A slug in normal form is a fixed point of every step *)

Lemma slugChar_not_space (c : ascii) :
  is_slugChar c || Ascii.eqb c "-" = true -> is_space c = false.
Proof.
  unfold is_slugChar, is_lower, is_digit, is_space, code.
  destruct (Ascii.eqb c "-") eqn:Eh.
  - apply Ascii.eqb_eq in Eh. subst c. reflexivity.
  - rewrite orb_false_r. intros H.
    apply orb_true_iff in H as [H|H]; apply andb_true_iff in H as [H1 H2];
      apply Nat.leb_le in H1, H2;
      repeat (apply orb_false_iff; split);
      try (apply andb_false_iff; right; apply Nat.leb_gt; lia);
      apply Nat.eqb_neq; lia.
Qed.

Lemma slugChar_downcase (c : ascii) :
  is_slugChar c || Ascii.eqb c "-" = true -> downcase c = c.
Proof.
  unfold is_slugChar, is_lower, is_digit, downcase, is_upper, code.
  destruct (Ascii.eqb c "-") eqn:Eh.
  - apply Ascii.eqb_eq in Eh. subst c. reflexivity.
  - rewrite orb_false_r. intros H.
    assert (Hu : (65 <=? nat_of_ascii c)%nat && (nat_of_ascii c <=? 90)%nat = false).
    { apply orb_true_iff in H as [H|H]; apply andb_true_iff in H as [H1 H2];
        apply Nat.leb_le in H1, H2; apply andb_false_iff.
      - right. apply Nat.leb_gt. lia.
      - left. apply Nat.leb_gt. lia. }
    assert (Hl : (192 <=? nat_of_ascii c)%nat = false).
    { apply orb_true_iff in H as [H|H]; apply andb_true_iff in H as [H1 H2];
        apply Nat.leb_le in H1, H2; apply Nat.leb_gt; lia. }
    rewrite Hu, Hl. reflexivity.
Qed.

Lemma trimEnd_no_space (s : string) :
  (forall c, hasChar c s = true -> is_space c = false) -> trimEnd s = s.
Proof.
  induction s as [|x r IH]; intros H; [reflexivity|].
  cbn [trimEnd]. rewrite IH.
  - destruct r; [|reflexivity].
    rewrite (H x); [reflexivity|]. cbn. rewrite Ascii.eqb_refl. reflexivity.
  - intros c Hc. apply H. cbn [hasChar]. rewrite Hc. apply orb_true_r.
Qed.

Lemma trim_no_space (s : string) :
  (forall c, hasChar c s = true -> is_space c = false) -> trim s = s.
Proof.
  intros H. unfold trim.
  assert (E : trimStart s = s).
  { destruct s as [|x r]; [reflexivity|]. cbn [trimStart].
    rewrite (H x); [reflexivity|]. cbn. rewrite Ascii.eqb_refl. reflexivity. }
  rewrite E. apply trimEnd_no_space. exact H.
Qed.

Lemma toLowerCase_fixed (s : string) :
  (forall c, hasChar c s = true -> downcase c = c) -> toLowerCase s = s.
Proof.
  induction s as [|x r IH]; intros H; [reflexivity|].
  cbn [toLowerCase]. rewrite IH.
  - rewrite (H x); [reflexivity|]. cbn. rewrite Ascii.eqb_refl. reflexivity.
  - intros c Hc. apply H. cbn [hasChar]. rewrite Hc. apply orb_true_r.
Qed.

Lemma hyphenate_aux_fixed (s : string) :
  forall p b, slugBody p s = true -> (b = true -> p = true) ->
    hyphenate_aux b s = s.
Proof.
  induction s as [|x r IH]; intros p b B Hb; [reflexivity|].
  cbn [slugBody] in B. cbn [hyphenate_aux].
  destruct (Ascii.eqb x "-") eqn:Eh; apply andb_true_iff in B as [Hx B].
  - apply Ascii.eqb_eq in Eh. subst x. cbn [is_slugChar is_lower is_digit code].
    change (is_slugChar "-") with false. cbv iota.
    destruct b.
    + rewrite (Hb eq_refl) in Hx. discriminate Hx.
    + rewrite (IH true true B); [reflexivity|tauto].
  - rewrite Hx. rewrite (IH false false B); [reflexivity|discriminate].
Qed.

Lemma dropHyphensEnd_fixed (s : string) :
  forall p, slugBody p s = true -> dropHyphensEnd s = s.
Proof.
  induction s as [|x r IH]; intros p B; [reflexivity|].
  cbn [slugBody] in B. cbn [dropHyphensEnd].
  destruct (Ascii.eqb x "-") eqn:Eh; apply andb_true_iff in B as [Hx B];
    rewrite (IH _ B); destruct r; try reflexivity.
  discriminate B.
Qed.

Lemma slugText_trim (s : string) : slugText s = true -> trim s = s.
Proof.
  intros H. apply trim_no_space. intros c Hc.
  destruct s as [|x r]; [discriminate Hc|].
  apply slugChar_not_space. exact (slugBody_chars _ _ _ H Hc).
Qed.

Lemma slugText_fixed (s : string) : slugText s = true -> slugify (JStr s) = s.
Proof.
  intros H. unfold slugify.
  assert (E : toStr (or_else (JStr s) (JStr "")) = s).
  { destruct s; reflexivity. }
  rewrite E, (slugText_trim s H).
  destruct s as [|x r]; [reflexivity|].
  cbn [slugText] in H.
  rewrite toLowerCase_fixed.
  2:{ intros c Hc. apply slugChar_downcase. exact (slugBody_chars _ _ _ H Hc). }
  unfold hyphenate. rewrite (hyphenate_aux_fixed _ true false H); [|discriminate].
  unfold stripHyphens.
  assert (E' : dropHyphensStart (String x r) = String x r).
  { cbn [dropHyphensStart]. cbn [slugBody] in H.
    destruct (Ascii.eqb x "-"); [discriminate H|reflexivity]. }
  rewrite E'. exact (dropHyphensEnd_fixed _ _ H).
Qed.

(** X1. Whatever it is given, [slugify] returns a slug in normal form: only
    lower-case letters, digits and hyphens, no hyphen at either end and no
    two hyphens in a row. *)
Theorem slugify_normal_form (v : JsVal) :
  (forall c, hasChar c (slugify v) = true ->
     is_lower c || is_digit c || Ascii.eqb c "-" = true)
  /\ isPrefix "-" (slugify v) = false
  /\ lastChar (slugify v) <> Some "-"%char
  /\ includes (slugify v) "--" = false.
Proof.
  pose proof (slugify_slugText v) as H.
  destruct (slugify v) as [|x r] eqn:E.
  - repeat split; try reflexivity; [intros c Hc; discriminate Hc|discriminate].
  - cbn [slugText] in H. repeat split.
    + intros c Hc. exact (slugBody_chars _ _ _ H Hc).
    + exact (slugBody_first _ H).
    + exact (slugBody_last _ _ H).
    + exact (slugBody_no_double _ _ H).
Qed.

Lemma slugify_normal_form_witness :
  slugify (JStr "  Hello,  World! -- 2024 ") = "hello-world-2024"
  /\ is_lower "w" || is_digit "w" || Ascii.eqb "w" "-" = true.
Proof.
  split; [reflexivity|].
  destruct (slugify_normal_form (JStr "  Hello,  World! -- 2024 ")) as [H _].
  exact (H "w"%char eq_refl).
Defined.

(** X2. [slugify] is idempotent: a slug it produced is returned unchanged
    when it is given again, as the editor does with the slug field and the
    server with the title. *)
Theorem slugify_idempotent (v : JsVal) :
  slugify (JStr (slugify v)) = slugify v.
Proof. apply slugText_fixed, slugify_slugText. Qed.

End SlugFacts.

(* ===================================================================== *)
(** * Properties of identifiers and of the batched user lookup *)
(* ===================================================================== *)

Section UuidFacts.
Import Js Relations Resolution.

Lemma matchPattern_hex (n : nat) (pat : list bool) :
  forall s,
    matchPattern (repeat false n ++ pat) s
    = match takeHex n s with
      | Some r => matchPattern pat r
      | None => false
      end.
Proof.
  induction n as [|n IH]; intros s; [reflexivity|].
  cbn [repeat app takeHex matchPattern].
  destruct s as [|c r]; [reflexivity|].
  destruct (is_hex c); [apply IH|reflexivity].
Qed.

Lemma matchPattern_dash (pat : list bool) (s : string) :
  matchPattern (true :: pat) s
  = match takeDash s with
    | Some r => matchPattern pat r
    | None => false
    end.
Proof.
  destruct s as [|c r]; [reflexivity|].
  cbn [matchPattern takeDash]. destruct (Ascii.eqb c "-"); reflexivity.
Qed.

Lemma matchPattern_group (n : nat) (pat : list bool) (s : string) :
  matchPattern (repeat false n ++ [true] ++ pat) s
  = match takeGroup n s with
    | Some r => matchPattern pat r
    | None => false
    end.
Proof.
  rewrite matchPattern_hex. unfold takeGroup.
  destruct (takeHex n s) as [r|]; [apply matchPattern_dash|reflexivity].
Qed.

Lemma uuidShape_pattern (s : string) : uuidShape s = matchPattern uuidPattern s.
Proof.
  unfold uuidShape, uuidPattern.
  rewrite matchPattern_group. destruct (takeGroup 8 s) as [s1|]; [|reflexivity].
  rewrite matchPattern_group. destruct (takeGroup 4 s1) as [s2|]; [|reflexivity].
  rewrite matchPattern_group. destruct (takeGroup 4 s2) as [s3|]; [|reflexivity].
  rewrite matchPattern_group. destruct (takeGroup 4 s3) as [s4|]; [|reflexivity].
  rewrite <- (app_nil_r (repeat false 12)), matchPattern_hex.
  destruct (takeHex 12 s4) as [[|c r]|]; reflexivity.
Qed.

Lemma matchPattern_spec (pat : list bool) :
  forall s,
    matchPattern pat s = true
    <-> String.length s = List.length pat
        /\ forall i c, String.get i s = Some c ->
             if nth i pat false then c = "-"%char else is_hex c = true.
Proof.
  induction pat as [|d pat IH]; intros s.
  - destruct s as [|c r]; cbn; split; try discriminate; try tauto.
    + intros _. split; [reflexivity|]. discriminate.
    + intros [E _]. discriminate E.
  - destruct s as [|c r]; cbn [matchPattern String.length List.length].
    + split; [discriminate|]. intros [E _]. discriminate E.
    + rewrite andb_true_iff, IH. split.
      * intros [Hc [Hlen Hall]]. split; [now rewrite Hlen|].
        intros [|i] x Hx; cbn in Hx |- *.
        -- injection Hx as <-. destruct d; [now apply Ascii.eqb_eq|exact Hc].
        -- exact (Hall i x Hx).
      * intros [Hlen Hall]. split; [|split].
        -- specialize (Hall O c eq_refl). cbn in Hall.
           destruct d; [now apply Ascii.eqb_eq|exact Hall].
        -- now injection Hlen.
        -- intros i x Hx. exact (Hall (S i) x Hx).
Qed.

Lemma uuidPattern_dashAt (i : nat) : nth i uuidPattern false = dashAt i.
Proof.
  do 36 (destruct i as [|i]; [reflexivity|]). destruct i; reflexivity.
Qed.

(** X3. The shape [isUuid] tests is exactly: 36 characters, a hyphen at the
    positions 8, 13, 18 and 23, and a hexadecimal digit of either case at
    every other position. *)
Theorem uuidShape_positions (s : string) :
  uuidShape s = true
  <-> String.length s = 36%nat
      /\ forall i c, String.get i s = Some c ->
           if dashAt i then c = "-"%char else is_hex c = true.
Proof.
  rewrite uuidShape_pattern, matchPattern_spec.
  change (List.length uuidPattern) with 36%nat.
  split; intros [Hlen Hall]; (split; [exact Hlen|]); intros i c Hc;
    specialize (Hall i c Hc); [rewrite <- uuidPattern_dashAt|rewrite uuidPattern_dashAt];
    exact Hall.
Qed.

Lemma uuidShape_positions_witness :
  String.length ownerId = 36%nat /\ String.get 13 ownerId = Some "-"%char.
Proof.
  destruct (proj1 (uuidShape_positions ownerId) eq_refl) as [Hlen _].
  split; [exact Hlen|reflexivity].
Defined.

Lemma isUuid_text (v : JsVal) :
  isUuid v = true -> uuidShape (trim (toStr v)) = true.
Proof.
  unfold isUuid, or_else. destruct (truthy v); [tauto|]. discriminate.
Qed.

Lemma setAdd_ok (ids : list string) (id : string) :
  idsOk ids -> uuidShape (trim id) = true -> idsOk (setAdd ids id).
Proof.
  intros [Hnd Hall] Hid. unfold setAdd.
  destruct (existsb (String.eqb id) ids) eqn:E; [now split|].
  split.
  - apply NoDup_app. split; [exact Hnd|]. split; [|apply NoDup_singleton].
    intros x Hx Hx'. apply list_elem_of_singleton in Hx'. subst x.
    apply list_elem_of_In in Hx.
    assert (existsb (String.eqb id) ids = true); [|congruence].
    apply existsb_exists. exists id. split; [exact Hx|apply String.eqb_refl].
  - apply Forall_app. split; [exact Hall|]. now constructor.
Qed.

Lemma collectFromValue_ok (ids : list string) (v : JsVal) :
  idsOk ids -> idsOk (collectFromValue ids v).
Proof.
  intros H. unfold collectFromValue.
  assert (Hone : forall ids x, idsOk ids ->
            idsOk (if isUuid x then setAdd ids (toStr x) else ids)).
  { intros ids' x H'. destruct (isUuid x) eqn:E; [|exact H'].
    apply setAdd_ok; [exact H'|now apply isUuid_text]. }
  destruct v; try apply (Hone _ _ H).
  revert ids H. induction items as [|x l IH]; intros ids H; [exact H|].
  cbn [fold_left]. apply IH, Hone, H.
Qed.

Lemma collectFromEntry_ok (userFields : Props) (ids : list string) (entry : Props) :
  idsOk ids -> idsOk (collectFromEntry userFields ids entry).
Proof.
  unfold collectFromEntry. generalize (List.map fst userFields). intros keys.
  revert ids. induction keys as [|k keys IH]; intros ids H; [exact H|].
  cbn [fold_left]. apply IH, collectFromValue_ok, H.
Qed.

(** X4. The ids handed to the batched user lookup are distinct, and each is
    the text of a UUID, white space around it apart. *)
Theorem collectIds_distinct_uuids (userFields : Props) (entryList : list Props) :
  NoDup (collectIds userFields entryList)
  /\ Forall (fun id => uuidShape (trim id) = true) (collectIds userFields entryList).
Proof.
  unfold collectIds.
  assert (H : idsOk []) by (split; constructor).
  revert H. generalize (@nil string).
  induction entryList as [|e l IH]; intros ids H; [exact H|].
  cbn [fold_left]. apply IH, collectFromEntry_ok, H.
Qed.

End UuidFacts.

Section AttachFrame.
Import Js Relations Resolution.

Variable queryUserFields : JsVal -> option (list Props).
Variable queryUsers : list string -> option (list Props).

Lemma attachContext_sameColumns (userFields : Props) (usersByIdOf : JsVal -> JsVal)
    (entry entry' : Props) :
  attachContext userFields usersByIdOf entry = Some entry' ->
  sameColumns entry entry'.
Proof.
  unfold attachContext. intros H.
  destruct (assignProp _ "userFields" _) as [r1|]; [|discriminate H].
  cbn [mbind option_bind] in H.
  destruct (assignProp r1 "usersById" _) as [r2|]; [|discriminate H].
  cbn [mbind option_bind] in H. injection H as <-.
  intros k Hk. apply obj_get_set_ne. congruence.
Qed.

Lemma mapM_sameColumns (userFields : Props) (usersByIdOf : JsVal -> JsVal)
    (entryList out : list Props) :
  mapM (attachContext userFields usersByIdOf) entryList = Some out ->
  Forall2 sameColumns entryList out.
Proof.
  intros H. apply mapM_Some_1 in H.
  induction H as [|e e' l l' He _ IH]; constructor; [|exact IH].
  exact (attachContext_sameColumns _ _ _ _ He).
Qed.

Lemma sameColumns_refl (l : list Props) : Forall2 sameColumns l l.
Proof. induction l; constructor; [intros k _; reflexivity|assumption]. Qed.

Lemma reshape_sameColumns (entries : Entries) (out : list Props) :
  Forall2 sameColumns (asList entries) out ->
  Forall2 sameColumns (asList entries) (asList (reshape entries out)).
Proof.
  destruct entries as [l|e]; cbn [asList reshape]; [intros H; exact H|].
  intros H. inversion H as [|? e' ? l' He Hl]; subst.
  inversion Hl; subst. cbn [hd]. constructor; [exact He|constructor].
Qed.

Lemma attach_sameColumns (typeId : JsVal) (entries out : Entries) :
  attachResolvedUsersToEntries queryUserFields queryUsers typeId entries = Some out ->
  Forall2 sameColumns (asList entries) (asList out).
Proof.
  unfold attachResolvedUsersToEntries.
  destruct (negb (truthy typeId) || Nat.eqb (List.length (asList entries)) 0).
  { intros H. injection H as <-. apply sameColumns_refl. }
  destruct (queryUserFields typeId) as [rows|]; [|discriminate].
  cbn [mbind option_bind].
  destruct (Nat.eqb (List.length rows) 0).
  { intros H. injection H as <-. apply sameColumns_refl. }
  cbv zeta.
  destruct (Nat.eqb (List.length (collectIds (buildUserFields rows) (asList entries))) 0).
  - destruct (mapM _ (asList entries)) as [l|] eqn:E; [|discriminate].
    cbn [mbind option_bind]. intros H. injection H as <-.
    apply reshape_sameColumns. exact (mapM_sameColumns _ _ _ _ E).
  - destruct (queryUsers _) as [users|]; [|discriminate].
    cbn [mbind option_bind].
    destruct (mapM _ (asList entries)) as [l|] eqn:E; [|discriminate].
    cbn [mbind option_bind]. intros H. injection H as <-.
    apply reshape_sameColumns. exact (mapM_sameColumns _ _ _ _ E).
Qed.

(** X5. Relation resolution touches nothing but [_resolved]: when it
    succeeds the caller holds as many entries as before, in the same
    order, and every other property of every entry reads as it did. *)
Theorem attach_changes_only_resolved (typeId : JsVal) (entries out : Entries) :
  attachResolvedUsersToEntries queryUserFields queryUsers typeId entries = Some out ->
  Forall2 sameColumns (asList entries) (asList out).
Proof. apply attach_sameColumns. Qed.

End AttachFrame.

Section AttachFrameScenario.
Import Js Relations Resolution.

Lemma attach_changes_only_resolved_witness :
  sameColumns ownedEntry (withContext (buildUserFields [ownerField]) [] ownedEntry).
Proof.
  pose proof (attach_changes_only_resolved (fun _ => Some [ownerField])
                (fun _ => Some []) (JNum 7) (One ownedEntry)
                (One (withContext (buildUserFields [ownerField]) [] ownedEntry))
                eq_refl) as H.
  apply Forall2_cons_inv_l in H as (out & l & Hout & _ & E).
  injection E as <- _. exact Hout.
Defined.

End AttachFrameScenario.

(* ===================================================================== *)
(** * Properties of row duplication, patches and labels *)
(* ===================================================================== *)

Section ValueInduction.
Import Js.

(** Induction on a value, with the hypothesis for every element of an
    array and every member of an object. *)
Lemma JsVal_nested_ind (P : JsVal -> Prop) :
  P JUndefined -> P JNull -> (forall b, P (JBool b)) -> (forall n, P (JNum n)) ->
  (forall m k, P (JFrac m k)) ->
  (forall s, P (JStr s)) ->
  (forall l, Forall P l -> P (JArr l)) ->
  (forall o, Forall (fun kv => P (snd kv)) o -> P (JObj o)) ->
  forall v, P v.
Proof.
  intros HU HN HB HZ HF HS HA HO.
  fix IH 1. intros [| |b|n|m k|s|l|o];
    [exact HU|exact HN|apply HB|apply HZ|apply HF|apply HS| |].
  - apply HA. induction l as [|x l IHl]; constructor; [apply IH|exact IHl].
  - apply HO. induction o as [|[k x] o IHo]; constructor; [apply IH|exact IHo].
Qed.

End ValueInduction.

Section JsonCopy.
Import Js Title Rows.

Lemma jsonValue_defined (v : JsVal) : is_defined (jsonValue v) = is_defined v.
Proof. destruct v; reflexivity. Qed.

(** The clone has the JSON text of the original. *)
Lemma stringify_jsonValue (v : JsVal) : stringify (jsonValue v) = stringify v.
Proof.
  induction v as [| | | | | |l IH|o IH] using JsVal_nested_ind; try reflexivity.
  - cbn [jsonValue stringify].
    assert (E : List.map (fun e => default "null" (stringify e))
                  (List.map (fun e => if is_defined e then jsonValue e else JNull) l)
                = List.map (fun e => default "null" (stringify e)) l).
    { induction IH as [|x l Hx _ IHl]; [reflexivity|].
      cbn [List.map]. rewrite IHl. f_equal.
      destruct (is_defined x) eqn:E; [now rewrite Hx|]. now destruct x. }
    now rewrite E.
  - cbn [jsonValue stringify].
    match goal with
    | |- Some ("{" +:+ join "," (?m1 (?m2 o)) +:+ "}") = Some ("{" +:+ join "," (?m3 o) +:+ "}") =>
        assert (E : m1 (m2 o) = m3 o)
    end.
    { induction IH as [|[k x] o Hx _ IHo]; [reflexivity|].
      cbn [snd] in Hx. destruct (is_defined x) eqn:E.
      - rewrite Hx. destruct (stringify x); [now rewrite IHo|exact IHo].
      - destruct x; try discriminate E. exact IHo. }
    now rewrite E.
Qed.

Lemma jsonValue_idem (v : JsVal) : jsonValue (jsonValue v) = jsonValue v.
Proof.
  induction v as [| | | | | |l IH|o IH] using JsVal_nested_ind; try reflexivity.
  - cbn [jsonValue]. f_equal.
    induction IH as [|x l Hx _ IHl]; [reflexivity|].
    cbn [List.map]. rewrite IHl. f_equal.
    destruct (is_defined x) eqn:E; [|reflexivity].
    now rewrite jsonValue_defined, E.
  - cbn [jsonValue]. f_equal.
    induction IH as [|[k x] o Hx _ IHo]; [reflexivity|].
    cbn [snd] in Hx. destruct (is_defined x) eqn:E; [|exact IHo].
    rewrite jsonValue_defined, E, Hx. now rewrite IHo.
Qed.

End JsonCopy.

Section RowHandlers.
Import Js Repeater Title Rows.

Lemma rowsOf_rows (value : JsVal) :
  Forall (fun r => truthy r && isObjectType r = true) (rowsOf value).
Proof.
  unfold rowsOf. induction (coerceArray value) as [|x l IH]; constructor; [|exact IH].
  destruct (truthy x && isObjectType x) eqn:E; [exact E|reflexivity].
Qed.

Lemma rowsOf_normal (l : list JsVal) :
  Forall (fun r => truthy r && isObjectType r = true) l -> rowsOf (JArr l) = l.
Proof.
  unfold rowsOf. cbn [coerceArray].
  induction 1 as [|x l Hx _ IH]; [reflexivity|].
  cbn [List.map]. now rewrite Hx, IH.
Qed.

Lemma jsonValue_row (r : JsVal) :
  truthy r && isObjectType r = true ->
  truthy (jsonValue r) && isObjectType (jsonValue r) = true.
Proof.
  destruct r; cbn [truthy isObjectType jsonValue]; rewrite ?andb_false_r;
    try discriminate; reflexivity.
Qed.

Lemma insertAt_length {A} (k : nat) (x : A) (l : list A) :
  List.length (insertAt k x l) = S (List.length l).
Proof.
  unfold insertAt. rewrite length_app. cbn [List.length].
  rewrite length_firstn, length_skipn. lia.
Qed.

Lemma insertAt_before {A} (k j : nat) (x d : A) (l : list A) :
  (j < k)%nat -> (k <= List.length l)%nat -> nth j (insertAt k x l) d = nth j l d.
Proof.
  intros Hj Hk. unfold insertAt.
  rewrite app_nth1 by (rewrite length_firstn; lia).
  rewrite <- (firstn_skipn k l) at 2.
  rewrite app_nth1 by (rewrite length_firstn; lia). reflexivity.
Qed.

Lemma insertAt_at {A} (k : nat) (x d : A) (l : list A) :
  (k <= List.length l)%nat -> nth k (insertAt k x l) d = x.
Proof.
  intros Hk. unfold insertAt.
  rewrite app_nth2 by (rewrite length_firstn; lia).
  rewrite length_firstn, Nat.min_l by lia. now rewrite Nat.sub_diag.
Qed.

Lemma insertAt_after {A} (k j : nat) (x d : A) (l : list A) :
  (k <= j)%nat -> (k <= List.length l)%nat ->
  nth (S j) (insertAt k x l) d = nth j l d.
Proof.
  intros Hj Hk. unfold insertAt.
  rewrite app_nth2 by (rewrite length_firstn; lia).
  rewrite length_firstn, Nat.min_l by lia.
  replace (S j - k)%nat with (S (j - k)) by lia. cbn [nth].
  rewrite <- (firstn_skipn k l) at 2.
  rewrite app_nth2 by (rewrite length_firstn; lia).
  rewrite length_firstn, Nat.min_l by lia. reflexivity.
Qed.

Lemma duplicate_rows (value : JsVal) (i : nat) :
  let clone := jsonValue (or_else (rowAt value i) (JObj [])) in
  rowsOf (JArr (insertAt (S i) clone (rowsOf value)))
  = insertAt (S i) clone (rowsOf value).
Proof.
  cbv zeta. apply rowsOf_normal. unfold insertAt.
  pose proof (rowsOf_rows value) as H.
  apply Forall_app. split; [now apply Forall_take|].
  constructor; [|now apply Forall_drop].
  unfold rowAt. destruct (nth_in_or_default i (rowsOf value) JUndefined) as [Hin|E].
  - rewrite List.Forall_forall in H. specialize (H _ Hin).
    apply andb_true_iff in H as [Ht Ho]. unfold or_else. rewrite Ht.
    apply jsonValue_row. now rewrite Ht, Ho.
  - rewrite E. reflexivity.
Qed.

Lemma duplicateRow_count (field value next : JsVal) (i : nat) :
  duplicateRow field value i = Some next ->
  rowCount next = rowCount value + 1
  /\ (forall hi, maxRows field = Some hi -> dy_ltb (ofInt (rowCount value)) hi = true)
  /\ (forall hi : Z, maxRows field = Some (ofInt hi) -> rowCount next <= hi).
Proof.
  unfold duplicateRow. cbv zeta. intros H.
  assert (Hn : next = JArr (insertAt (S i)
                 (jsonValue (or_else (rowAt value i) (JObj []))) (rowsOf value))).
  { unfold rowAt. destruct (maxRows field) as [hi|];
      [destruct (dy_leb hi (ofInt (rowCount value)))|]; congruence. }
  assert (Hc : rowCount next = rowCount value + 1).
  { subst next. unfold rowCount. rewrite duplicate_rows, insertAt_length. lia. }
  assert (Hbelow : forall hi, maxRows field = Some hi ->
                     dy_ltb (ofInt (rowCount value)) hi = true).
  { intros hi Hmax. rewrite Hmax in H.
    destruct (dy_leb hi (ofInt (rowCount value))) eqn:E; [discriminate H|].
    rewrite dy_leb_not_ltb in E. now apply negb_false_iff in E. }
  split; [exact Hc|]. split; [exact Hbelow|].
  intros hi Hmax. specialize (Hbelow _ Hmax). rewrite dy_ltb_ofInt in Hbelow.
  apply Z.ltb_lt in Hbelow. lia.
Qed.

Lemma handle_withinBounds (field value : JsVal) (h : Handler) :
  (forall lo, minRows field = Some lo -> whole lo) ->
  (forall hi, maxRows field = Some hi -> whole hi) ->
  withinBounds field value -> withinBounds field (handle field value h).
Proof.
  intros Wlo Whi H. destruct h as [|i|i].
  - exact (applyOp_withinBounds field value Append Wlo Whi H).
  - exact (applyOp_withinBounds field value (Remove i) Wlo Whi H).
  - unfold handle. destruct (duplicateRow field value i) as [next|] eqn:E; [|exact H].
    cbn. destruct (duplicateRow_count _ _ _ _ E) as [Hc [_ Hhi]].
    apply (withinBounds_whole field _ Wlo Whi).
    apply (withinBounds_whole field _ Wlo Whi) in H. destruct H as [Hlo _].
    split; [|exact Hhi].
    intros lo Hmin. specialize (Hlo lo Hmin). lia.
Qed.

(** X6. Duplicating an existing row gives one more row: the rows up to
    the duplicated one stay where they were, a copy with the same JSON
    text follows it, and the later rows move down by one. When the row
    count has reached [maxRows] the handler does nothing: a copy is only
    made while the count is below [maxRows], so with a whole [maxRows] the
    copy never takes the row count past it. *)
Theorem duplicate_row_inserts_copy (field value : JsVal) (i : nat) :
  (i < List.length (rowsOf value))%nat ->
  (forall hi, maxRows field = Some hi -> dy_leb hi (ofInt (rowCount value)) = true ->
     duplicateRow field value i = None)
  /\ (forall next, duplicateRow field value i = Some next ->
        rowCount next = rowCount value + 1
        /\ (forall hi, maxRows field = Some hi ->
              dy_ltb (ofInt (rowCount value)) hi = true)
        /\ (forall hi : Z,
              getProp (getFieldConfig field) "maxRows" = JNum hi -> rowCount next <= hi)
        /\ (forall j, (j <= i)%nat -> rowAt next j = rowAt value j)
        /\ rowAt next (S i) = jsonValue (rowAt value i)
        /\ stringify (rowAt next (S i)) = stringify (rowAt value i)
        /\ (forall j, (i < j)%nat -> rowAt next (S j) = rowAt value j)).
Proof.
  intros Hi. split.
  { intros hi Hmax Hfull. unfold duplicateRow. now rewrite Hmax, Hfull. }
  intros next H.
  destruct (duplicateRow_count _ _ _ _ H) as [Hc [Hbelow Hhi]].
  split; [exact Hc|]. split; [exact Hbelow|]. split.
  { intros hi Hcfg. apply Hhi. unfold maxRows, cfg. now rewrite Hcfg. }
  assert (Hn : next = JArr (insertAt (S i)
                 (jsonValue (or_else (rowAt value i) (JObj []))) (rowsOf value))).
  { revert H. unfold duplicateRow, rowAt. cbv zeta.
    destruct (maxRows field) as [hi|];
      [destruct (dy_leb hi (ofInt (rowCount value)))|]; congruence. }
  assert (Hrow : or_else (rowAt value i) (JObj []) = rowAt value i).
  { pose proof (rowsOf_rows value) as Hall. rewrite List.Forall_forall in Hall.
    specialize (Hall (rowAt value i) (nth_In _ _ Hi)).
    apply andb_true_iff in Hall as [Ht _]. unfold or_else. now rewrite Ht. }
  rewrite Hrow in Hn.
  assert (Hrows : rowsOf next = insertAt (S i) (jsonValue (rowAt value i)) (rowsOf value)).
  { subst next. rewrite <- Hrow at 1 2. apply duplicate_rows. }
  unfold rowAt at 1 3 5 7. rewrite Hrows.
  split; [|split; [|split]].
  - intros j Hj. apply insertAt_before; lia.
  - apply insertAt_at. lia.
  - rewrite insertAt_at by lia. apply stringify_jsonValue.
  - intros j Hj. apply insertAt_after; lia.
Qed.

Lemma duplicate_row_inserts_copy_witness :
  let field := JObj [("config", JObj [("maxRows", JNum 3)])] in
  let value := JArr [JObj [("a", JNum 1); ("b", JUndefined)]; JObj [("a", JNum 2)]] in
  duplicateRow field value 0
  = Some (JArr [JObj [("a", JNum 1); ("b", JUndefined)]; JObj [("a", JNum 1)];
                JObj [("a", JNum 2)]])
  /\ rowAt (default value (duplicateRow field value 0)) 1 = JObj [("a", JNum 1)]
  /\ duplicateRow field (default value (duplicateRow field value 0)) 0 = None.
Proof.
  intros field value.
  assert (Hi : (0 < List.length (rowsOf value))%nat) by (vm_compute; lia).
  destruct (duplicate_row_inserts_copy field value 0 Hi) as [_ H].
  split; [reflexivity|].
  destruct (H (JArr [JObj [("a", JNum 1); ("b", JUndefined)]; JObj [("a", JNum 1)];
                     JObj [("a", JNum 2)]]) eq_refl) as [_ [_ [_ [_ [E _]]]]].
  split; [exact E|].
  assert (Hi' : (0 < List.length
                       (rowsOf (default value (duplicateRow field value 0))))%nat)
    by (vm_compute; lia).
  destruct (duplicate_row_inserts_copy field
              (default value (duplicateRow field value 0)) 0 Hi') as [Hfull _].
  apply (Hfull (ofInt 3)); reflexivity.
Defined.

(** X7. When the configured bounds are whole numbers, a row count within
    them stays within them under every sequence of the three handlers that
    change the number of rows: add, remove and duplicate. *)
Theorem handlers_keep_row_bounds (field value : JsVal) (hs : list Handler) :
  (forall lo, minRows field = Some lo -> whole lo) ->
  (forall hi, maxRows field = Some hi -> whole hi) ->
  withinBounds field value -> withinBounds field (handleAll field hs value).
Proof.
  intros Wlo Whi. revert value.
  induction hs as [|h hs IH]; intros value H; [exact H|].
  cbn [handleAll fold_left]. apply IH, handle_withinBounds; assumption.
Qed.

Lemma handlers_keep_row_bounds_witness :
  let field := JObj [("config", JObj [("minRows", JNum 1); ("maxRows", JNum 3)])] in
  withinBounds field
    (handleAll field [OnDuplicate 0; OnDuplicate 1; OnDuplicate 0; OnRemove 0;
                      OnAdd; OnAdd; OnRemove 7]
       (JArr [JObj [("a", JNum 1)]])).
Proof.
  intros field. apply handlers_keep_row_bounds.
  - intros lo [= <-]. now exists 1.
  - intros hi [= <-]. now exists 3.
  - split; intros b [= <-]; reflexivity.
Defined.

End RowHandlers.

Section RowPatch.
Import Js Repeater Rows.

(** X8. A patch of one key of an existing row keeps the number of rows,
    leaves every other row as it was, and in the patched row sets that key
    and no other. *)
Theorem setRow_patches_one_key (value : JsVal) (i : nat) (key : string) (v : JsVal) :
  (i < List.length (rowsOf value))%nat ->
  let next := setRow value i key v in
  List.length (rowsOf next) = List.length (rowsOf value)
  /\ obj_get (spread (rowAt next i)) key = v
  /\ (forall k, k <> key ->
        obj_get (spread (rowAt next i)) k = obj_get (spread (rowAt value i)) k)
  /\ (forall j, j <> i -> rowAt next j = rowAt value j).
Proof.
  intros Hi. cbv zeta. unfold setRow. cbv zeta.
  pose proof Hi as Hlt. apply Nat.ltb_lt in Hlt. rewrite Hlt.
  pose proof (rowsOf_rows value) as Hall.
  assert (Hbase : truthy (rowAt value i) && isObjectType (rowAt value i) = true).
  { rewrite List.Forall_forall in Hall. exact (Hall _ (nth_In _ _ Hi)). }
  fold (rowAt value i). rewrite Hbase.
  set (row := JObj (obj_set (spread (rowAt value i)) key v)).
  assert (Hrows : rowsOf (JArr (<[i := row]> (rowsOf value))) = <[i := row]> (rowsOf value)).
  { apply rowsOf_normal. apply Forall_insert; [exact Hall|reflexivity]. }
  assert (Hat : forall j, rowAt (JArr (<[i := row]> (rowsOf value))) j
                      = nth j (<[i := row]> (rowsOf value)) JUndefined).
  { intros j. unfold rowAt. now rewrite Hrows. }
  assert (Hrow : rowAt (JArr (<[i := row]> (rowsOf value))) i = row).
  { rewrite Hat. apply nth_lookup_Some. now apply list_lookup_insert_eq. }
  rewrite Hrows, Hrow. split; [apply length_insert|].
  split; [apply obj_get_set_eq|]. split.
  - intros k Hk. apply obj_get_set_ne. congruence.
  - intros j Hj. rewrite Hat. unfold rowAt. rewrite !nth_lookup.
    now rewrite list_lookup_insert_ne by congruence.
Qed.

Lemma setRow_patches_one_key_witness :
  let value := JArr [JObj [("a", JNum 1)]; JObj [("a", JNum 2); ("b", JStr "x")]] in
  rowAt (setRow value 1 "a" (JNum 5)) 0 = JObj [("a", JNum 1)]
  /\ obj_get (spread (rowAt (setRow value 1 "a" (JNum 5)) 1)) "b" = JStr "x".
Proof.
  intros value.
  assert (Hi : (1 < List.length (rowsOf value))%nat) by (vm_compute; lia).
  destruct (setRow_patches_one_key value 1 "a" (JNum 5) Hi) as [_ [_ [Hk Hj]]].
  split.
  - rewrite (Hj 0%nat); [reflexivity|lia].
  - rewrite (Hk "b"); [reflexivity|discriminate].
Defined.

End RowPatch.

Section RowLabels.
Import Js Repeater Title Rows.

Lemma replaceHash_literal (n lit rest : string) :
  hasChar "{" lit = false ->
  replaceHash n (lit +:+ rest) = lit +:+ replaceHash n rest.
Proof.
  induction lit as [|c lit IH]; [reflexivity|].
  cbn [hasChar]. intros [Hc Hl]%orb_false_iff.
  rewrite !append_cons. rewrite <- (IH Hl).
  destruct (Ascii.eqb_spec c "{") as [->|Hne]; [discriminate Hc|].
  destruct c as [[] [] [] [] [] [] [] []]; try reflexivity. now contradiction Hne.
Qed.

Lemma replaceHash_none (n s : string) : hasChar "{" s = false -> replaceHash n s = s.
Proof.
  intros H. rewrite <- (append_empty_r s) at 1.
  rewrite (replaceHash_literal n s EmptyString H). apply append_empty_r.
Qed.

Lemma replaceHash_hash (n rest : string) :
  replaceHash n ("{#}" +:+ rest) = n +:+ replaceHash n rest.
Proof. reflexivity. Qed.

(** An opening brace that does not start [{#}] is kept. *)
Lemma replaceHash_brace (n key rest : string) :
  hasChar "{" key = false -> hasChar "}" key = false ->
  nonEmpty key = true -> key <> "#" ->
  replaceHash n (String "{" (key +:+ String "}" rest))
  = String "{" (key +:+ String "}" (replaceHash n rest)).
Proof.
  intros Ho Hc Hne Hk.
  assert (E : replaceHash n (String "{" (key +:+ String "}" rest))
              = String "{" (replaceHash n (key +:+ String "}" rest))).
  { destruct key as [|c key]; [discriminate Hne|].
    rewrite append_cons.
    destruct (Ascii.eqb_spec c "#") as [->|Hc'].
    - destruct key as [|d key]; [now contradiction Hk|].
      rewrite append_cons.
      destruct (Ascii.eqb_spec d "}") as [->|Hd].
      + cbn in Hc. discriminate Hc.
      + destruct d as [[] [] [] [] [] [] [] []]; try reflexivity.
        now contradiction Hd.
    - destruct c as [[] [] [] [] [] [] [] []]; try reflexivity.
      now contradiction Hc'. }
  rewrite E, (replaceHash_literal n key _ Ho). reflexivity.
Qed.

Lemma scanWith_literal (f : string -> string) (lit rest : string) :
  hasChar "{" lit = false ->
  scanWith f None (lit +:+ rest) = lit +:+ scanWith f None rest.
Proof.
  induction lit as [|c lit IH]; [reflexivity|].
  cbn [hasChar]. intros [Hc Hl]%orb_false_iff.
  rewrite !append_cons. cbn [scanWith]. rewrite Hc. now rewrite IH.
Qed.

Lemma scanWith_none (f : string -> string) (s : string) :
  hasChar "{" s = false -> scanWith f None s = s.
Proof.
  intros H. rewrite <- (append_empty_r s) at 1.
  rewrite (scanWith_literal f s EmptyString H). apply append_empty_r.
Qed.

Lemma scanWith_open (f : string -> string) (buf tok rest : string) :
  hasChar "}" tok = false ->
  scanWith f (Some buf) (tok +:+ String "}" rest)
  = if nonEmpty (buf +:+ tok)
    then f (buf +:+ tok) +:+ scanWith f None rest
    else String "{" (String "}" (scanWith f None rest)).
Proof.
  revert buf. induction tok as [|c tok IH]; intros buf.
  - intros _. rewrite append_nil. cbn [scanWith].
    change (Ascii.eqb "}" "}") with true. now rewrite append_empty_r.
  - cbn [hasChar]. intros [Hc Ht]%orb_false_iff.
    rewrite append_cons. cbn [scanWith]. rewrite Hc, (IH _ Ht).
    now rewrite append_assoc, append_cons, append_nil.
Qed.

Lemma hasChar_app (c : ascii) (a b : string) :
  hasChar c (a +:+ b) = hasChar c a || hasChar c b.
Proof.
  induction a as [|x a IH]; [reflexivity|].
  rewrite append_cons. cbn [hasChar]. now rewrite IH, orb_assoc.
Qed.

Lemma uint_no_brace (d : Decimal.uint) :
  hasChar "{" (NilEmpty.string_of_uint d) = false.
Proof. induction d; cbn; auto. Qed.

Lemma rowNumber_no_brace (index : nat) : hasChar "{" (rowNumber index) = false.
Proof.
  unfold rowNumber, Z_to_string.
  destruct (Z.of_nat index + 1); [reflexivity|apply uint_no_brace|].
  rewrite hasChar_app. now rewrite uint_no_brace.
Qed.

Lemma replaceHash_unclosed (n s : string) :
  hasChar "}" s = false -> replaceHash n s = s.
Proof.
  induction s as [|c s IH]; [reflexivity|].
  cbn [hasChar]. intros [Hc Hs]%orb_false_iff.
  assert (E : replaceHash n (String c s) = String c (replaceHash n s)).
  { destruct s as [|d [|e s]]; try (destruct c as [[] [] [] [] [] [] [] []]; reflexivity).
    - destruct c as [[] [] [] [] [] [] [] []]; try reflexivity.
      destruct d as [[] [] [] [] [] [] [] []]; reflexivity.
    - cbn [hasChar] in Hs. apply orb_false_iff in Hs as [_ Hs].
      apply orb_false_iff in Hs as [He _].
      destruct (Ascii.eqb_spec e "}") as [->|Hne]; [discriminate He|].
      destruct c as [[] [] [] [] [] [] [] []]; try reflexivity.
      destruct d as [[] [] [] [] [] [] [] []]; try reflexivity.
      destruct e as [[] [] [] [] [] [] [] []]; try reflexivity.
      now contradiction Hne. }
  rewrite E. now rewrite (IH Hs).
Qed.

Lemma scanWith_unclosed (f : string -> string) (buf tail : string) :
  hasChar "}" tail = false ->
  scanWith f (Some buf) tail = String "{" (buf +:+ tail).
Proof.
  revert buf. induction tail as [|c tail IH]; intros buf.
  - intros _. cbn [scanWith]. now rewrite append_empty_r.
  - cbn [hasChar]. intros [Hc Ht]%orb_false_iff.
    cbn [scanWith]. rewrite Hc, (IH _ Ht).
    now rewrite append_assoc, append_cons, append_nil.
Qed.

Lemma rowLabel_unfold (tpl : string) (row : JsVal) (index : nat) :
  nonEmpty (trim tpl) = true ->
  applyRowLabelTemplate (JStr tpl) row index = fillRowLabel row index (trim tpl).
Proof.
  intros H. unfold applyRowLabelTemplate. cbv zeta.
  assert (E : toStr (or_else (JStr tpl) (JStr "")) = tpl) by now destruct tpl.
  now rewrite E, H.
Qed.

(** X9. The label of a row. A blank template gives "Row n", rows counted
    from 1. Otherwise the label is the trimmed template, filled in from
    left to right, whatever the number of placeholders: text without an
    opening brace is kept as it is; [{#}] gives the row's number; [{key}],
    for a key that holds no brace, gives the text of the key; [{}] and an
    opening brace that is never closed are kept as they are. The text of a
    key is empty when the trimmed key is empty; when the read of the
    trimmed key is a read of the row's data, it is the string form of the
    row's value under that key, the empty text when that value is null or
    undefined. *)
Theorem row_label_substitutes (tpl : string) (row : JsVal) (index : nat) :
  let label := applyRowLabelTemplate (JStr tpl) row index in
  let fill := fillRowLabel row index in
  (nonEmpty (trim tpl) = false -> label = "Row " +:+ rowNumber index)
  /\ (nonEmpty (trim tpl) = true -> label = fill (trim tpl))
  /\ (forall lit, hasChar "{" lit = false -> fill lit = lit)
  /\ (forall lit rest,
        hasChar "{" lit = false ->
        fill (lit +:+ "{#}" +:+ rest) = lit +:+ rowNumber index +:+ fill rest)
  /\ (forall lit key rest,
        hasChar "{" lit = false ->
        hasChar "{" key = false -> hasChar "}" key = false ->
        nonEmpty key = true -> key <> "#" ->
        fill (lit +:+ String "{" (key +:+ String "}" rest))
        = lit +:+ rowText row key +:+ fill rest)
  /\ (forall lit rest,
        hasChar "{" lit = false ->
        fill (lit +:+ "{}" +:+ rest) = lit +:+ "{}" +:+ fill rest)
  /\ (forall lit tail,
        hasChar "{" lit = false -> hasChar "}" tail = false ->
        fill (lit +:+ String "{" tail) = lit +:+ String "{" tail)
  /\ (forall key, nonEmpty (trim key) = false -> rowText row key = EmptyString)
  /\ (forall key,
        nonEmpty (trim key) = true ->
        is_nullish row || readsData row (trim key) = true ->
        rowText row key
        = if is_nullish (optGet row (trim key)) then EmptyString
          else toStr (optGet row (trim key))).
Proof.
  cbv zeta. unfold fillRowLabel.
  split; [|split; [|split; [|split; [|split; [|split; [|split; [|split]]]]]]].
  - intros H. unfold applyRowLabelTemplate. cbv zeta.
    assert (E : toStr (or_else (JStr tpl) (JStr "")) = tpl) by now destruct tpl.
    now rewrite E, H.
  - intros H. now rewrite (rowLabel_unfold _ _ _ H).
  - intros lit Hl. rewrite (replaceHash_none _ _ Hl). now apply scanWith_none.
  - intros lit rest Hl.
    rewrite (replaceHash_literal _ lit _ Hl), replaceHash_hash.
    rewrite (scanWith_literal _ lit _ Hl). f_equal.
    apply scanWith_literal, rowNumber_no_brace.
  - intros lit key rest Hl Hko Hkc Hne Hk.
    rewrite (replaceHash_literal _ lit _ Hl),
      (replaceHash_brace _ key rest Hko Hkc Hne Hk).
    rewrite (scanWith_literal _ lit _ Hl). f_equal.
    cbn [scanWith]. change (Ascii.eqb "{" "{") with true.
    now rewrite (scanWith_open _ EmptyString key _ Hkc), append_nil, Hne.
  - intros lit rest Hl.
    rewrite (replaceHash_literal _ lit _ Hl), (scanWith_literal _ lit _ Hl).
    reflexivity.
  - intros lit tail Hl Ht.
    rewrite (replaceHash_literal _ lit _ Hl), (scanWith_literal _ lit _ Hl).
    f_equal.
    assert (E : replaceHash (rowNumber index) (String "{" tail) = String "{" tail).
    { apply replaceHash_unclosed. cbn [hasChar]. now rewrite Ht. }
    rewrite E. cbn [scanWith]. change (Ascii.eqb "{" "{") with true.
    now rewrite (scanWith_unclosed _ EmptyString tail Ht), append_nil.
  - intros key H. unfold rowText. cbv zeta. now rewrite H.
  - intros key H _. unfold rowText. cbv zeta. now rewrite H.
Qed.

Lemma row_label_substitutes_witness :
  applyRowLabelTemplate (JStr " {#}. { city }, {country}! {} {zip ")
    (JObj [("city", JStr "Oslo")]) 2
  = "3. Oslo, ! {} {zip"
  /\ applyRowLabelTemplate (JStr "   ") (JObj [("city", JStr "Oslo")]) 2 = "Row 3".
Proof.
  destruct (row_label_substitutes " {#}. { city }, {country}! {} {zip "
              (JObj [("city", JStr "Oslo")]) 2)
    as [_ [Hfill [_ [Hnum [Hkey [Hempty [Hopen [_ Htext]]]]]]]].
  destruct (row_label_substitutes "   " (JObj [("city", JStr "Oslo")]) 2)
    as [Hblank _].
  split; [|exact (Hblank eq_refl)].
  rewrite (Hfill eq_refl).
  change (trim " {#}. { city }, {country}! {} {zip ")
    with (EmptyString +:+ "{#}" +:+ ". { city }, {country}! {} {zip").
  rewrite (Hnum EmptyString ". { city }, {country}! {} {zip" eq_refl).
  change ". { city }, {country}! {} {zip"
    with (". " +:+ String "{" (" city " +:+ String "}" ", {country}! {} {zip")).
  rewrite (Hkey ". " " city " ", {country}! {} {zip" eq_refl eq_refl eq_refl eq_refl);
    [|discriminate].
  change ", {country}! {} {zip"
    with (", " +:+ String "{" ("country" +:+ String "}" "! {} {zip")).
  rewrite (Hkey ", " "country" "! {} {zip" eq_refl eq_refl eq_refl eq_refl);
    [|discriminate].
  change "! {} {zip" with ("! " +:+ "{}" +:+ " {zip").
  rewrite (Hempty "! " " {zip" eq_refl).
  change " {zip" with (" " +:+ String "{" "zip").
  rewrite (Hopen " " "zip" eq_refl eq_refl).
  rewrite (Htext " city " eq_refl eq_refl), (Htext "country" eq_refl eq_refl).
  reflexivity.
Defined.

End RowLabels.

(* ===================================================================== *)
(** * More on conditional visibility *)
(* ===================================================================== *)

Section HiddenOnlyByRule.
Import Js Repeater.
Context {N : NumOps}.

Lemma rules_hidden_by_rule (row : JsVal) (ruleList : list JsVal)
    (vis : gmap string bool) (k : string) :
  fold_left (applyRule row) ruleList vis !! k = Some false ->
  vis !! k = Some false
  \/ exists r, In r ruleList /\ decides row r k = true /\ rule_action r = "hide".
Proof.
  revert vis. induction ruleList as [|r rest IH]; intros vis H; [now left|].
  cbn [fold_left] in H. destruct (IH _ H) as [Hv|[r' [Hin Hr']]].
  - rewrite applyRule_lookup in Hv.
    destruct (decides row r k) eqn:Hd; [|now left].
    destruct (negb (String.eqb k "__proto__")); [|now left]. cbn [andb] in Hv.
    right. exists r. split; [now left|]. split; [exact Hd|].
    injection Hv as Hs. unfold shows in Hs. apply negb_false_iff in Hs.
    now apply String.eqb_eq.
  - right. exists r'. split; [now right|exact Hr'].
Qed.

(** X10. Nothing hides a subfield but a rule: a keyed subfield renders no
    cell on a row only when some rule of the repeater matches the row,
    names the subfield's key and has the action ["hide"]. *)
Theorem cell_hidden_only_by_matching_hide_rule
    (field : JsVal) (depth : Z) (value sf : JsVal) (rowIndex : nat) (row : JsVal) :
  nonEmpty (subfieldKey sf) = true ->
  renderSubfieldCell field depth value sf rowIndex row = CellNone ->
  exists r, In r (coerceArray (rules field))
            /\ evalRule row r = true
            /\ names r (subfieldKey sf) = true
            /\ rule_action r = "hide".
Proof.
  intros Hkey Hnone. unfold renderSubfieldCell in Hnone. cbv zeta in Hnone.
  rewrite Hkey in Hnone. cbn [negb] in Hnone.
  destruct (computeSubfieldVisibility (subfields field) (rules field) row
              !! subfieldKey sf) as [[|]|] eqn:Hvis;
    try (destruct (String.eqb (subfieldType sf) "repeater" && negb (canNestMore field depth));
         discriminate Hnone).
  unfold computeSubfieldVisibility in Hvis.
  destruct (rules_hidden_by_rule _ _ _ _ Hvis) as [Hinit|[r [Hin [Hd Ha]]]].
  - rewrite initVisibility_lookup in Hinit.
    destruct (declared (subfields field) (subfieldKey sf)
              && negb (String.eqb (subfieldKey sf) "__proto__")); discriminate Hinit.
  - exists r. unfold decides in Hd. apply andb_true_iff in Hd as [Hm Hn].
    now repeat split.
Qed.

End HiddenOnlyByRule.

Section HiddenOnlyByRuleScenario.
Import Js Repeater.

Lemma cell_hidden_only_by_matching_hide_rule_witness :
  let hideRule := JObj [("ifKey", JStr "kind"); ("op", JStr "equals");
                        ("value", JStr "gift"); ("action", JStr "hide");
                        ("targets", JArr [JStr "price"])] in
  let field := JObj [("config", JObj [("subfields", JArr [JObj [("key", JStr "price")]]);
                                      ("rules", JArr [hideRule])])] in
  let row := JObj [("kind", JStr "gift")] in
  exists r, In r (coerceArray (rules field))
            /\ evalRule (N := JsNumber) row r = true
            /\ names r "price" = true
            /\ rule_action r = "hide".
Proof.
  intros hideRule field row.
  exact (cell_hidden_only_by_matching_hide_rule (N := JsNumber) field 1 (JArr [row])
           (JObj [("key", JStr "price")]) 0 row eq_refl eq_refl).
Defined.

End HiddenOnlyByRuleScenario.

Section OperatorPairs.
Import Js Repeater.
Context {N : NumOps}.

(** X11. The operators come in complementary pairs: on the same row, key
    and comparison value, [not_equals] matches exactly when [equals] does
    not, [not_contains] when [contains] does not, [falsy] when [truthy]
    does not; and where the number comparison [<=] is the negation of the
    converse [<], as it is for numbers that are not [NaN], [gte] matches
    exactly when [lt] does not and [lte] when [gt] does not. *)
Theorem operators_come_in_complementary_pairs (row r r' : JsVal) :
  rule_ifKey r' = rule_ifKey r ->
  rule_value r' = rule_value r ->
  (rule_op r = "equals" -> rule_op r' = "not_equals" ->
     evalRule row r' = negb (evalRule row r))
  /\ (rule_op r = "contains" -> rule_op r' = "not_contains" ->
     evalRule row r' = negb (evalRule row r))
  /\ (rule_op r = "truthy" -> rule_op r' = "falsy" ->
     evalRule row r' = negb (evalRule row r))
  /\ ((forall a b, num_leb b a = negb (num_ltb a b)) ->
      (rule_op r = "lt" -> rule_op r' = "gte" ->
         evalRule row r' = negb (evalRule row r))
      /\ (rule_op r = "gt" -> rule_op r' = "lte" ->
         evalRule row r' = negb (evalRule row r))).
Proof.
  intros Hk Hv.
  assert (Ha : rule_actual row r' = rule_actual row r).
  { unfold rule_actual. now rewrite Hk. }
  unfold evalRule. cbv zeta. rewrite Ha, Hv.
  split; [|split; [|split]].
  - intros -> ->. cbn [String.eqb Ascii.eqb Bool.eqb].
    now destruct (cmp (rule_actual row r) (rule_value r)).
  - intros -> ->. cbn [String.eqb Ascii.eqb Bool.eqb].
    now destruct (cmp (rule_actual row r) (rule_value r)).
  - intros -> ->. cbn [String.eqb Ascii.eqb Bool.eqb].
    now rewrite negb_involutive.
  - intros Hnum. split; intros -> ->; cbn [String.eqb Ascii.eqb Bool.eqb];
      destruct (cmp (rule_actual row r) (rule_value r)) as [sa sb];
      destruct (Number (rule_actual row r)), (Number (rule_value r));
      try apply Hnum; unfold str_leb; try reflexivity.
Qed.

End OperatorPairs.

Section OperatorPairsScenario.
Import Js Repeater.

Lemma operators_come_in_complementary_pairs_witness :
  let row := JObj [("age", JStr "17")] in
  let under := JObj [("ifKey", JStr "age"); ("op", JStr "lt"); ("value", JNum 18)] in
  evalRule (N := JsNumber) row ageRule = negb (evalRule (N := JsNumber) row under).
Proof.
  intros row under.
  destruct (operators_come_in_complementary_pairs (N := JsNumber) row under ageRule
              eq_refl eq_refl) as [_ [_ [_ H]]].
  destruct H as [H _].
  - intros a b. apply lessOrEqual_not_lessThan.
  - apply H; reflexivity.
Defined.

End OperatorPairsScenario.

(* ===================================================================== *)
(** * Properties of paths and of the two title derivations *)
(* ===================================================================== *)

Section Paths.
Import Js Title.

Lemma split_aux_sep (sep : ascii) (q : string) :
  forall p acc,
    split_aux sep acc (p +:+ String sep q)
    = split_aux sep acc p ++ split_aux sep EmptyString q.
Proof.
  induction p as [|c p IH]; intros acc.
  - rewrite append_nil. cbn [split_aux]. now rewrite Ascii.eqb_refl.
  - rewrite append_cons. cbn [split_aux].
    destruct (Ascii.eqb c sep); [now rewrite IH|apply IH].
Qed.

Lemma pathParts_dot (p q : string) :
  pathParts (p +:+ String "." q) = pathParts p ++ pathParts q.
Proof.
  unfold pathParts, split. now rewrite split_aux_sep, List.map_app, List.filter_app.
Qed.

(** X12. Paths compose: reading [p.q] from an object is reading [q] from
    what reading [p] gives, for non-empty [p] and [q]; the same holds of
    the copy of [getByPath] in the entry editor. *)
Theorem getByPath_composes (obj : JsVal) (p q : string) :
  nonEmpty p = true -> nonEmpty q = true ->
  getByPath obj (p +:+ "." +:+ q) = getByPath (getByPath obj p) q
  /\ Editor.getByPath obj (p +:+ "." +:+ q)
     = Editor.getByPath (Editor.getByPath obj p) q.
Proof.
  intros Hp Hq.
  assert (H : getByPath obj (p +:+ "." +:+ q) = getByPath (getByPath obj p) q).
  { unfold getByPath. rewrite Hp, Hq.
    assert (Hpq : nonEmpty (p +:+ "." +:+ q) = true) by now destruct p.
    rewrite Hpq. cbn [negb].
    change ("." +:+ q) with (String "." q).
    now rewrite pathParts_dot, fold_left_app. }
  split; [exact H|exact H].
Qed.

Lemma getByPath_composes_witness :
  let data := JObj [("name", JObj [("first", JStr "Ada")])] in
  getByPath data "name.first" = getByPath (JObj [("first", JStr "Ada")]) "first".
Proof.
  intros data.
  destruct (getByPath_composes data "name" "first" eq_refl eq_refl) as [H _].
  exact H.
Defined.

End Paths.

Section TwoTitleDerivations.
Import Js Title.

(** The two functions differ in the order of their branches only. *)
Lemma editor_asPrettyInline (v : JsVal) : Editor.asPrettyInline v = asPrettyInline v.
Proof. destruct v; reflexivity. Qed.

Lemma editor_scan (data : JsVal) (s : string) :
  forall open,
    Rows.scanWith
      (fun tokenRaw =>
         let token := trim tokenRaw in
         if negb (nonEmpty token) then EmptyString
         else Editor.asPrettyInline (Editor.getByPath data token))
      open s
    = scanTokens data open s.
Proof.
  induction s as [|c s IH]; intros open; [reflexivity|].
  cbn [Rows.scanWith scanTokens]. destruct open as [buf|].
  - destruct (Ascii.eqb c "}"); [|apply IH].
    destruct (nonEmpty buf); rewrite IH; reflexivity.
  - destruct (Ascii.eqb c "{"); now rewrite IH.
Qed.

(** X13. The entry editor and the server derive the same title: for every
    template and every data value the editor's preview is the title the
    server computes in template mode, and so are the pretty-inline
    renderings the two use. *)
Theorem editor_and_server_derive_same_title (template data : JsVal) :
  Editor.deriveTitleFromTemplate template data = deriveTitleFromTemplate template data
  /\ (forall v, Editor.asPrettyInline v = asPrettyInline v)
  /\ (forall path, Editor.getByPath data path = getByPath data path).
Proof.
  split; [|split; [exact editor_asPrettyInline|reflexivity]].
  unfold Editor.deriveTitleFromTemplate, deriveTitleFromTemplate, substitute.
  cbv zeta. now rewrite editor_scan.
Qed.

End TwoTitleDerivations.

Section FieldConfig.
Import Js Repeater.

(** X14. The two copies of [getFieldConfig], in the field input component
    and in the entry editor, agree on every field definition, and what
    they return is always an object (or array), never [null] or
    [undefined]: [config] when it is one, else [options] when it is one,
    else an empty object. *)
Theorem getFieldConfig_total_and_shared (field : JsVal) :
  Editor.getFieldConfig field = getFieldConfig field
  /\ truthy (getFieldConfig field) && isObjectType (getFieldConfig field) = true
  /\ (truthy (optGet field "config") && isObjectType (optGet field "config") = true ->
      getFieldConfig field = optGet field "config")
  /\ (truthy (optGet field "config") && isObjectType (optGet field "config") = false ->
      truthy (optGet field "options") && isObjectType (optGet field "options") = true ->
      getFieldConfig field = optGet field "options")
  /\ (truthy (optGet field "config") && isObjectType (optGet field "config") = false ->
      truthy (optGet field "options") && isObjectType (optGet field "options") = false ->
      getFieldConfig field = JObj []).
Proof.
  unfold Editor.getFieldConfig, getFieldConfig. cbv zeta.
  destruct (truthy (optGet field "config") && isObjectType (optGet field "config")) eqn:Ec;
    destruct (truthy (optGet field "options") && isObjectType (optGet field "options")) eqn:Eo;
    try (apply andb_true_iff in Ec as [Ec1 Ec2]);
    try (apply andb_true_iff in Eo as [Eo1 Eo2]);
    unfold or_else; cbn [truthy]; rewrite ?Ec1, ?Eo1; cbn [truthy];
    rewrite ?Ec1, ?Ec2, ?Eo1, ?Eo2; repeat split; try reflexivity; try discriminate.
Qed.

Lemma getFieldConfig_total_and_shared_witness :
  getFieldConfig (JObj [("config", JStr "{}"); ("options", JObj [("maxRows", JNum 2)])])
  = JObj [("maxRows", JNum 2)].
Proof.
  destruct (getFieldConfig_total_and_shared
              (JObj [("config", JStr "{}"); ("options", JObj [("maxRows", JNum 2)])]))
    as [_ [_ [_ [H _]]]].
  exact (H eq_refl eq_refl).
Defined.

End FieldConfig.

(* ===================================================================== *)
(** * Properties of the entry write routes *)
(* ===================================================================== *)

Section TrimFacts.
Import Js Title.

Lemma trimEnd_idem (s : string) : trimEnd (trimEnd s) = trimEnd s.
Proof.
  induction s as [|c r IH]; [reflexivity|].
  cbn [trimEnd]. destruct (trimEnd r) as [|c' r'] eqn:E.
  - destruct (is_space c) eqn:Ec; [reflexivity|]. cbn [trimEnd]. now rewrite Ec.
  - change (trimEnd (String c (String c' r')))
      with (match trimEnd (String c' r') with
            | EmptyString => if is_space c then EmptyString else String c EmptyString
            | r'' => String c r''
            end).
    now rewrite IH.
Qed.

Lemma trimEnd_head (c : ascii) (r : string) :
  is_space c = false -> exists r', trimEnd (String c r) = String c r'.
Proof.
  intros Hc. cbn [trimEnd]. destruct (trimEnd r) as [|c' r'].
  - rewrite Hc. now exists EmptyString.
  - now exists (String c' r').
Qed.

Lemma trimStart_head (s : string) :
  trimStart s = EmptyString
  \/ exists c r, trimStart s = String c r /\ is_space c = false.
Proof.
  induction s as [|c r IH]; [now left|].
  cbn [trimStart]. destruct (is_space c) eqn:Ec; [exact IH|].
  right. now exists c, r.
Qed.

Lemma trim_idem (s : string) : trim (trim s) = trim s.
Proof.
  unfold trim. destruct (trimStart_head s) as [E|[c [r [E Hc]]]]; rewrite E.
  - reflexivity.
  - destruct (trimEnd_head c r Hc) as [r' E'].
    assert (Hs : trimStart (trimEnd (String c r)) = trimEnd (String c r)).
    { rewrite E'. cbn [trimStart]. now rewrite Hc. }
    rewrite Hs. apply trimEnd_idem.
Qed.

End TrimFacts.

Section Preparation.
Import Js Title Slug Writes.

Lemma trimmedText_trimmed (v : JsVal) (s : string) :
  trimmedText v = Some s -> trimmedNonBlank s.
Proof.
  destruct v; try discriminate. cbn [trimmedText].
  destruct (nonEmpty (trim s0)) eqn:E; [|discriminate].
  intros H. injection H as <-. split; [exact E|apply trim_idem].
Qed.

Lemma deriveTitle_trimmed (template data : JsVal) :
  trim (deriveTitleFromTemplate template data) = deriveTitleFromTemplate template data.
Proof.
  unfold deriveTitleFromTemplate. cbv zeta.
  destruct (negb _); [reflexivity|apply trim_idem].
Qed.

Lemma slugify_trim (v : JsVal) : trim (slugify v) = slugify v.
Proof. apply slugText_trim, slugify_slugText. Qed.

Lemma prepare_title (core body : JsVal) (p : Prepared) :
  prepare core body = Some p ->
  let b := or_else body (JObj []) in
  trimmedText
    (if templateMode core && nonEmpty (derivedTitle core (getProp b "data"))
     then JStr (derivedTitle core (getProp b "data")) else getProp b "title")
  = Some (title p).
Proof.
  unfold prepare. cbv zeta.
  destruct (templateMode core); cbn [andb];
    [destruct (nonEmpty (derivedTitle core _))|];
    destruct (trimmedText _) as [t|]; try discriminate;
    intros H; injection H as <-; reflexivity.
Qed.

Lemma prepare_slug (core body : JsVal) (p : Prepared) :
  prepare core body = Some p ->
  slug p = match trimmedText (getProp (or_else body (JObj [])) "slug") with
           | Some s => s
           | None => slugify (JStr (title p))
           end.
Proof.
  unfold prepare. cbv zeta.
  match goal with
  | |- match trimmedText ?t with _ => _ end = _ -> _ =>
      destruct (trimmedText t) as [safeTitle|]; [|discriminate]
  end.
  intros H. injection H as <-. cbn [slug title].
  set (entrySlug := getProp (or_else body (JObj [])) "slug").
  destruct ((negb (truthy entrySlug) || negb (nonEmpty (trim (toStr entrySlug))))
            && notFalse (Repeater.optGet core "autoSlugFromTitleIfEmpty")) eqn:E;
    [|reflexivity].
  apply andb_true_iff in E as [E _].
  assert (Hnone : trimmedText entrySlug = None).
  { destruct entrySlug; try reflexivity. cbn [trimmedText].
    cbn [truthy toStr] in E. destruct (nonEmpty (trim s)) eqn:Es; [|reflexivity].
    rewrite orb_false_r in E. apply negb_true_iff in E.
    destruct s; [discriminate Es|discriminate E]. }
  rewrite Hnone. cbn [trimmedText]. rewrite slugify_trim.
  now destruct (nonEmpty (slugify (JStr safeTitle))).
Qed.

Lemma prepare_status (core body : JsVal) (p : Prepared) :
  prepare core body = Some p -> trimmedNonBlank (status p).
Proof.
  unfold prepare. cbv zeta.
  match goal with
  | |- match trimmedText ?t with _ => _ end = _ -> _ =>
      destruct (trimmedText t) as [safeTitle|]; [|discriminate]
  end.
  intros H. injection H as <-. cbn [status].
  destruct (trimmedText (getProp (or_else body (JObj [])) "status")) as [s|] eqn:E.
  - exact (trimmedText_trimmed _ _ E).
  - now split.
Qed.

(** X15. What the create and update routes store as title and status is
    never blank and has no white space at its ends. In template mode a
    non-empty derived title replaces whatever title the client sent;
    otherwise the client's title is stored, trimmed; the status is the
    client's, trimmed, or ["draft"]. *)
Theorem prepared_title_and_status (core body : JsVal) (p : Prepared) :
  prepare core body = Some p ->
  let b := or_else body (JObj []) in
  trimmedNonBlank (title p)
  /\ trimmedNonBlank (status p)
  /\ (templateMode core = true ->
      nonEmpty (derivedTitle core (getProp b "data")) = true ->
      title p = derivedTitle core (getProp b "data"))
  /\ (templateMode core = false \/ derivedTitle core (getProp b "data") = EmptyString ->
      trimmedText (getProp b "title") = Some (title p))
  /\ (trimmedText (getProp b "status") = None -> status p = "draft")
  /\ (forall s, trimmedText (getProp b "status") = Some s -> status p = s).
Proof.
  intros H. cbv zeta. pose proof (prepare_title _ _ _ H) as Ht. cbv zeta in Ht.
  split; [exact (trimmedText_trimmed _ _ Ht)|].
  split; [exact (prepare_status _ _ _ H)|].
  split; [|split; [|split]].
  - intros Hm Hd. rewrite Hm, Hd in Ht. cbn [andb trimmedText] in Ht.
    unfold derivedTitle in Ht |- *. rewrite deriveTitle_trimmed in Ht.
    unfold derivedTitle in Hd. rewrite Hd in Ht. now injection Ht.
  - intros [Hm|Hd].
    + now rewrite Hm in Ht.
    + rewrite Hd in Ht. now rewrite andb_false_r in Ht.
  - revert H. unfold prepare. cbv zeta.
    match goal with
    | |- match trimmedText ?t with _ => _ end = _ -> _ =>
        destruct (trimmedText t) as [safeTitle|]; [|discriminate]
    end.
    intros H E. injection H as <-. cbn [status]. now rewrite E.
  - revert H. unfold prepare. cbv zeta.
    match goal with
    | |- match trimmedText ?t with _ => _ end = _ -> _ =>
        destruct (trimmedText t) as [safeTitle|]; [|discriminate]
    end.
    intros H s E. injection H as <-. cbn [status]. now rewrite E.
Qed.

Lemma prepared_title_and_status_witness :
  let core := JObj [("titleMode", JStr "TEMPLATE"); ("titleTemplate", JStr "{city} tour")] in
  let body := JObj [("title", JStr "ignored"); ("status", JStr " live ");
                    ("data", JObj [("city", JStr "Oslo")])] in
  prepare core body = Some {| title := "Oslo tour"; slug := "oslo-tour"; status := "live" |}
  /\ trimmedNonBlank "Oslo tour".
Proof.
  intros core body. split; [reflexivity|].
  exact (proj1 (prepared_title_and_status core body
                  {| title := "Oslo tour"; slug := "oslo-tour"; status := "live" |}
                  eq_refl)).
Defined.

(** X16. The slug the create and update routes store is the client's slug,
    trimmed but not slugified, when that is a text that is not blank, and
    the slugified title in every other case, whether or not the editor
    core switches [autoSlugFromTitleIfEmpty] off. A slug in normal form,
    as the editor sends it, is stored as it is; a slug made from the title
    is in normal form and may be empty. *)
Theorem prepared_slug (core body : JsVal) (p : Prepared) :
  prepare core body = Some p ->
  let sent := getProp (or_else body (JObj [])) "slug" in
  (forall s, trimmedText sent = Some s -> slug p = s)
  /\ (trimmedText sent = None ->
      slug p = slugify (JStr (title p)) /\ slugText (slug p) = true)
  /\ (forall u, sent = JStr u -> nonEmpty u = true -> slugText u = true -> slug p = u).
Proof.
  intros H. cbv zeta. pose proof (prepare_slug _ _ _ H) as Hs.
  split; [|split].
  - intros s E. now rewrite E in Hs.
  - intros E. rewrite E in Hs. split; [exact Hs|]. rewrite Hs. apply slugify_slugText.
  - intros u E Hne Hu. rewrite E in Hs. cbn [trimmedText] in Hs.
    now rewrite (slugText_trim u Hu), Hne in Hs.
Qed.

Lemma prepared_slug_witness :
  let core := JObj [("autoSlugFromTitleIfEmpty", JBool false)] in
  let body := JObj [("title", JStr "Ten Years After"); ("slug", JStr "  ")] in
  exists p, prepare core body = Some p /\ slug p = "ten-years-after".
Proof.
  intros core body.
  exists {| title := "Ten Years After"; slug := "ten-years-after"; status := "draft" |}.
  split; [reflexivity|].
  destruct (prepared_slug core body
              {| title := "Ten Years After"; slug := "ten-years-after"; status := "draft" |}
              eq_refl) as [_ [H _]].
  destruct (H eq_refl) as [E _]. rewrite E. reflexivity.
Defined.

End Preparation.

Ltac status_in := cbn [In]; repeat first [left; reflexivity | right].

Section WriteRoutes.
Import Js Title Slug Writes.

Variable queryTypeBySlug : string -> option (list Props).
Variable queryEditorView : JsVal -> string -> option (list Props).
Variable queryFields : JsVal -> option (list Normalize.FieldDef).
Variable queryUserFields : JsVal -> option (list Props).
Variable queryUsers : list string -> option (list Props).
Variable queryEntryIdBySlug : string -> JsVal -> option (list Props).
Variable insertEntry : JsVal -> string -> string -> string -> JsVal -> Inserted.
Variable updateEntry :
  bool -> string -> JsVal -> string -> string -> string -> JsVal -> Written.
Variable deleteVersions : JsVal -> Written.
Variable deleteEntry : JsVal -> option JsVal -> Written.
Variable toUpperCase : string -> string.
Variable normalizeEmail : JsVal -> option JsVal.
Variable normalizePhoneE164 : JsVal -> string -> option JsVal.
Variable normalizeUrl : JsVal -> option JsVal.
Variable normalizeAddress : JsVal -> option JsVal.

Abbreviation create :=
  (createEntry queryTypeBySlug queryEditorView queryFields queryUserFields queryUsers
     insertEntry toUpperCase normalizeEmail normalizePhoneE164 normalizeUrl
     normalizeAddress).

Abbreviation put :=
  (putEntry queryTypeBySlug queryEditorView queryFields queryUserFields queryUsers
     updateEntry toUpperCase normalizeEmail normalizePhoneE164 normalizeUrl
     normalizeAddress).

Lemma rejected_status (failure : string) (code : JsVal) :
  rejected failure code = SendError 409 "Slug already exists for this content type"
  /\ code = JStr "23505"
  \/ rejected failure code = SendError 500 failure.
Proof.
  destruct code; try (now right). cbn [rejected].
  destruct (String.eqb s "23505") eqn:E; [|now right].
  apply String.eqb_eq in E. subst s. now left.
Qed.

Lemma sendStored_status (okStatus : Z) (failure : string) (typeId : JsVal) (row : Props) :
  (exists out, sendStored queryUserFields queryUsers okStatus failure typeId row
               = SendRow okStatus out)
  \/ sendStored queryUserFields queryUsers okStatus failure typeId row
     = SendError 500 failure.
Proof.
  unfold sendStored. destruct (Relations.attachResolvedUsersToEntries _ _ _ _) as [out|].
  - left. eexists. reflexivity.
  - now right.
Qed.

(** X17. Neither write route stores a blank title: every statement the
    create or the update route has the store accept carries a title and a
    status that are not blank and have no white space at their ends, and
    when the route answers 400 (no title) the store accepted nothing. *)
Theorem write_routes_never_store_blank_title (typeSlug id : string) (user body : JsVal) :
  forall run, run = create typeSlug user body \/ run = put typeSlug id user body ->
    (forall w, In w (writes run) ->
       exists p, stored w = Some p
                 /\ trimmedNonBlank (title p) /\ trimmedNonBlank (status p))
    /\ (forall e, reply run = SendError 400 e -> writes run = []).
Proof.
  intros run Hrun.
  assert (Hp : forall core p, prepare core body = Some p ->
                 trimmedNonBlank (title p) /\ trimmedNonBlank (status p)).
  { intros core p H. split; [|exact (prepare_status _ _ _ H)].
    pose proof (prepare_title _ _ _ H) as Ht. cbv zeta in Ht.
    exact (trimmedText_trimmed _ _ Ht). }
  destruct Hrun as [-> | ->]; [unfold createEntry|unfold putEntry]; cbv zeta;
    (destruct (queryTypeBySlug typeSlug) as [[|t ts]|];
     [split; [intros w []|reflexivity]| |split; [intros w []|reflexivity]]);
    (destruct (prepare _ body) as [p|] eqn:E;
     [|split; [intros w []|reflexivity]]);
    (destruct (queryFields _) as [fieldsRows|];
     [|split; [intros w []|reflexivity]]).
  - destruct (insertEntry _ _ _ _ _) as [row|code]; cbn [writes reply].
    + split.
      * intros w [<-|[]]. exists p. cbn [stored]. destruct p. split; [reflexivity|].
        exact (Hp _ _ E).
      * intros e H.
        destruct (sendStored_status 201 "Failed to create entry" (obj_get t "id") row)
          as [[out Ho]|Ho]; rewrite Ho in H; discriminate H.
    + split; [intros w []|reflexivity].
  - destruct (updateEntry _ _ _ _ _ _ _) as [rows|code]; cbn [writes reply].
    + split.
      * intros w [<-|[]]. exists p. cbn [stored]. destruct p. split; [reflexivity|].
        exact (Hp _ _ E).
      * intros e H. destruct rows as [|row rows]; [discriminate H|].
        destruct (sendStored_status 200 "Failed to update entry" (obj_get t "id") row)
          as [[out Ho]|Ho]; rewrite Ho in H; discriminate H.
    + split; [intros w []|reflexivity].
Qed.

(** X18. The create route answers with one of the statuses 201, 400, 404,
    409 and 500. It answers 409 only when the store rejects the insert
    with the code of a unique violation, and then nothing was stored; it
    answers 201 only after the store accepted exactly one insert, and the
    row it sends is the inserted row apart from [_resolved]. *)
Theorem create_replies (typeSlug : string) (user body : JsVal) :
  let run := create typeSlug user body in
  In (statusOf (reply run)) [201; 400; 404; 409; 500]
  /\ (statusOf (reply run) = 409 ->
      writes run = []
      /\ exists typeId t s st d, insertEntry typeId t s st d = InsertRejected (JStr "23505"))
  /\ (forall sent, reply run = SendRow 201 sent ->
      exists typeId t s st d row,
        writes run = [InsertEntry typeId t s st d]
        /\ insertEntry typeId t s st d = InsertedRow row
        /\ Resolution.sameColumns row sent).
Proof.
  cbv zeta. unfold createEntry. cbv zeta.
  destruct (queryTypeBySlug typeSlug) as [[|t ts]|]; cbn [writes reply statusOf];
    try (split; [status_in|split; [discriminate|discriminate]]).
  destruct (prepare _ body) as [p|]; cbn [writes reply statusOf];
    try (split; [status_in|split; [discriminate|discriminate]]).
  destruct (queryFields _) as [fieldsRows|]; cbn [writes reply statusOf];
    try (split; [status_in|split; [discriminate|discriminate]]).
  destruct (insertEntry _ _ _ _ _) as [row|code] eqn:Ei; cbn [writes reply].
  - unfold sendStored.
    destruct (Relations.attachResolvedUsersToEntries _ _ _ _) as [out|] eqn:Ea;
      cbn [statusOf]; (split; [status_in|split; [discriminate|]]);
      [|discriminate].
    intros sent H. injection H as <-.
    eexists _, _, _, _, _, row. split; [reflexivity|]. split; [exact Ei|].
    pose proof (attach_sameColumns _ _ _ _ _ Ea) as Hc.
    cbn [Relations.asList] in Hc.
    apply Forall2_cons_inv_l in Hc as (r' & l' & Hr & _ & E). now rewrite E.
  - destruct (rejected_status "Failed to create entry" code) as [[-> ->] | ->];
      cbn [statusOf]; (split; [status_in|split; [|discriminate]]).
    + intros _. split; [reflexivity|]. eexists _, _, _, _, _. exact Ei.
    + discriminate.
Qed.

Abbreviation deleteTyped :=
  (deleteTypedEntry queryTypeBySlug queryEntryIdBySlug deleteVersions deleteEntry).

Abbreviation deleteById := (deleteEntryById deleteVersions deleteEntry).

Lemma no_writes_order (r : Reply) :
  (forall pre w post entryId,
     writes {| writes := []; reply := r |} = pre ++ w :: post ->
     deletesEntry entryId w -> In (DeleteVersions entryId) pre)
  /\ (writes {| writes := []; reply := r |} = []).
Proof.
  split; [|reflexivity]. intros [|? ?] ? ? ? H; discriminate H.
Qed.

Lemma two_deletes_order (entryId : JsVal) (typeId : option JsVal) :
  forall pre w post id,
    [DeleteVersions entryId; DeleteEntry entryId typeId] = pre ++ w :: post ->
    deletesEntry id w -> In (DeleteVersions id) pre.
Proof.
  intros pre w post id H [tid ->].
  destruct pre as [|w1 [|w2 pre]]; cbn in H.
  - discriminate H.
  - inversion H; subst. now left.
  - injection H as _ _ H. now destruct pre.
Qed.

Lemma one_delete_order (entryId : JsVal) :
  forall pre w post id,
    [DeleteVersions entryId] = pre ++ w :: post ->
    deletesEntry id w -> In (DeleteVersions id) pre.
Proof.
  intros pre w post id H [tid ->].
  destruct pre as [|w1 pre]; cbn in H; [discriminate H|].
  injection H as _ H. now destruct pre.
Qed.

Lemma deleteBoth_order (entryId typeId : JsVal) :
  let run := deleteBoth deleteVersions deleteEntry entryId typeId in
  (forall pre w post id, writes run = pre ++ w :: post ->
     deletesEntry id w -> In (DeleteVersions id) pre)
  /\ (reply run = SendOk ->
      writes run = [DeleteVersions entryId; DeleteEntry entryId (Some typeId)]).
Proof.
  cbv zeta. unfold deleteBoth.
  destruct (deleteVersions entryId) as [vs|c]; cbn [writes reply].
  2:{ split; [apply (no_writes_order SendOk)|discriminate]. }
  destruct (deleteEntry entryId (Some typeId)) as [del|c]; cbn [writes reply].
  - split; [apply two_deletes_order|reflexivity].
  - split; [apply one_delete_order|discriminate].
Qed.

(** X19. Deleting an entry deletes its version history first: in both
    delete routes, whenever the store accepts the statement that deletes
    an entry it has accepted the deletion of that entry's versions before,
    and a reply of success means both were accepted. When the entry is
    addressed by a slug that no entry of the content type has, the route
    answers 404 and nothing is deleted. *)
Theorem delete_removes_versions_first (typeSlug id : string) :
  (forall run, run = deleteTyped typeSlug id \/ run = deleteById id ->
     (forall pre w post entryId, writes run = pre ++ w :: post ->
        deletesEntry entryId w -> In (DeleteVersions entryId) pre)
     /\ (reply run = SendOk ->
         exists entryId typeId,
           writes run = [DeleteVersions entryId; DeleteEntry entryId typeId]))
  /\ (forall t ts,
        Relations.isUuid (JStr id) = false ->
        queryTypeBySlug typeSlug = Some (t :: ts) ->
        queryEntryIdBySlug id (obj_get t "id") = Some [] ->
        deleteTyped typeSlug id = {| writes := []; reply := SendError 404 "Not found" |}).
Proof.
  assert (Hboth : forall entryId typeId,
            (forall pre w post id,
               writes (deleteBoth deleteVersions deleteEntry entryId typeId)
               = pre ++ w :: post ->
               deletesEntry id w -> In (DeleteVersions id) pre)
            /\ (reply (deleteBoth deleteVersions deleteEntry entryId typeId) = SendOk ->
                exists e tid,
                  writes (deleteBoth deleteVersions deleteEntry entryId typeId)
                  = [DeleteVersions e; DeleteEntry e tid])).
  { intros entryId typeId.
    destruct (deleteBoth_order entryId typeId) as [Ho Hs].
    split; [exact Ho|]. intros H. eexists _, _. exact (Hs H). }
  split.
  - intros run [-> | ->].
    + unfold deleteTypedEntry.
      destruct (queryTypeBySlug typeSlug) as [[|t ts]|];
        try (split; [apply (no_writes_order SendOk)|discriminate]).
      destruct (Relations.isUuid (JStr id)); [apply Hboth|].
      destruct (queryEntryIdBySlug id (obj_get t "id")) as [[|e es]|];
        try (split; [apply (no_writes_order SendOk)|discriminate]).
      apply Hboth.
    + unfold deleteEntryById.
      destruct (deleteVersions (JStr id)) as [vs|c]; cbn [writes reply].
      2:{ split; [apply (no_writes_order SendOk)|discriminate]. }
      destruct (deleteEntry (JStr id) None) as [del|c]; cbn [writes reply].
      * split; [apply two_deletes_order|]. intros _. eexists _, _. reflexivity.
      * split; [apply one_delete_order|discriminate].
  - intros t ts Hu Ht He. unfold deleteTypedEntry. now rewrite Ht, Hu, He.
Qed.

End WriteRoutes.

Section WriteScenarios.
Import Js Writes.

Lemma write_routes_never_store_blank_title_witness :
  writes (postWith None (JObj [("title", JStr "   ")])) = [].
Proof.
  destruct (write_routes_never_store_blank_title
              oneType (fun _ _ => Some []) (fun _ => Some [])
              (fun _ => Some []) (fun _ => Some [])
              (fun _ t s st d =>
                 InsertedRow [("title", JStr t); ("slug", JStr s); ("status", JStr st)])
              (fun _ _ _ _ _ _ _ => Returned [])
              (fun r => r) Normalize.lowerEmail Normalize.textPhone Normalize.keepUrl
              Normalize.objectAddress "post" "x" JNull (JObj [("title", JStr "   ")])
              (postWith None (JObj [("title", JStr "   ")])) (or_introl eq_refl))
    as [_ H].
  exact (H "Title is required" eq_refl).
Defined.

Lemma create_replies_witness :
  writes (postWith (Some (JStr "23505")) (JObj [("title", JStr "Hello")])) = []
  /\ reply (postWith (Some (JStr "23505")) (JObj [("title", JStr "Hello")]))
     = SendError 409 "Slug already exists for this content type".
Proof.
  destruct (create_replies
              oneType (fun _ _ => Some []) (fun _ => Some [])
              (fun _ => Some []) (fun _ => Some [])
              (fun _ t s st d => InsertRejected (JStr "23505"))
              (fun r => r) Normalize.lowerEmail Normalize.textPhone Normalize.keepUrl
              Normalize.objectAddress "post" JNull (JObj [("title", JStr "Hello")]))
    as [_ [H _]].
  split; [exact (proj1 (H eq_refl))|reflexivity].
Defined.

Lemma delete_removes_versions_first_witness :
  deleteTypedEntry oneType (fun _ _ => Some []) (fun _ => Returned [])
    (fun _ _ => Returned []) "post" "no-such-entry"
  = {| writes := []; reply := SendError 404 "Not found" |}.
Proof.
  destruct (delete_removes_versions_first
              oneType (fun _ _ => Some []) (fun _ => Returned [])
              (fun _ _ => Returned []) "post" "no-such-entry") as [_ H].
  exact (H [("id", JNum 7)] [] eq_refl eq_refl eq_refl).
Defined.

End WriteScenarios.

(* ===================================================================== *)
(** * Properties of the view builder helpers and of layout rows *)
(* ===================================================================== *)

Section ViewSections.
Import Js Views.

Lemma normalizeFrom_length (l : list JsVal) :
  forall idx secs, normalizeFrom idx l = Some secs -> List.length secs = List.length l.
Proof.
  induction l as [|s r IH]; intros idx secs; cbn [normalizeFrom].
  - intros [= <-]. reflexivity.
  - destruct (normalizeSection idx s) as [s'|]; [|discriminate].
    destruct (normalizeFrom (S idx) r) as [r'|] eqn:E; [|discriminate].
    intros [= <-]. cbn [List.length]. now rewrite (IH _ _ E).
Qed.

Lemma normalizeFrom_each (l : list JsVal) :
  forall idx secs s', normalizeFrom idx l = Some secs -> In s' secs ->
    exists i s, normalizeSection i s = Some s'.
Proof.
  induction l as [|s r IH]; intros idx secs s'; cbn [normalizeFrom].
  - intros [= <-] [].
  - destruct (normalizeSection idx s) as [s0|] eqn:Es; [|discriminate].
    destruct (normalizeFrom (S idx) r) as [r'|] eqn:E; [|discriminate].
    intros [= <-] [<-|Hin]; [now exists idx, s|].
    exact (IH _ _ _ E Hin).
Qed.

Lemma sectionFields_trimmed (s : JsVal) :
  Forall (fun k => nonEmpty k = true /\ trim k = k) (sectionFields s).
Proof.
  unfold sectionFields. destruct (getProp s "fields"); try constructor.
  induction items as [|f fs IH]; [constructor|].
  cbn [List.map List.filter].
  destruct (nonEmpty (trim _)) eqn:E; [|exact IH].
  constructor; [|exact IH]. split; [exact E|apply trim_idem].
Qed.

Lemma sectionFields_fixed (ks : list string) (o : Props) :
  Forall (fun k => nonEmpty k = true /\ trim k = k) ks ->
  obj_get o "fields" = JArr (List.map JStr ks) ->
  sectionFields (JObj o) = ks.
Proof.
  intros Hks Ho. unfold sectionFields. cbn [getProp]. rewrite Ho. clear Ho.
  induction Hks as [|k ks [Hne Htr] _ IH]; [reflexivity|].
  cbn [List.map List.filter].
  assert (E : trim (toStr (or_else (normalizeFieldKey (JStr k)) (JStr ""))) = k).
  { unfold normalizeFieldKey. cbn [truthy]. rewrite Hne. cbn [negb].
    unfold or_else. cbn [truthy]. rewrite Hne. exact Htr. }
  rewrite E, Hne. f_equal. exact IH.
Qed.

Lemma or_else_truthy (a b : JsVal) : truthy b = true -> truthy (or_else a b) = true.
Proof. intros H. unfold or_else. now destruct (truthy a) eqn:E. Qed.

Lemma or_else_idem (a b : JsVal) : or_else (or_else a b) b = or_else a b.
Proof.
  unfold or_else. destruct (truthy a) eqn:Ea; [now rewrite Ea|].
  now destruct (truthy b).
Qed.

Lemma normalizeSection_fixed (i j : nat) (s s' : JsVal) :
  normalizeSection i s = Some s' -> normalizeSection j s' = Some s'.
Proof.
  unfold normalizeSection at 1. destruct (is_nullish s); [discriminate|].
  intros [= <-]. unfold normalizeSection. cbn [is_nullish].
  match goal with
  | |- context [sectionFields (JObj ?o)] =>
      assert (Hf : sectionFields (JObj o) = sectionFields s)
        by (apply sectionFields_fixed; [apply sectionFields_trimmed|reflexivity]);
      rewrite Hf
  end.
  cbn [getProp obj_get String.eqb Ascii.eqb Bool.eqb].
  assert (Hid : forall a d d', truthy (JStr d) = true ->
                  or_else (or_else a (JStr d)) (JStr d') = or_else a (JStr d)).
  { intros a d d' Hd. pose proof (or_else_truthy a (JStr d) Hd) as Ht.
    generalize dependent (or_else a (JStr d)). intros x Hx.
    unfold or_else. now rewrite Hx. }
  rewrite (Hid _ ("widget-" +:+ ordinal i)), (Hid _ ("Widget " +:+ ordinal i)),
    (Hid _ "one-column") by reflexivity.
  now rewrite or_else_idem.
Qed.

Lemma normalizeFrom_fixed (l : list JsVal) :
  forall idx secs, normalizeFrom idx l = Some secs ->
    forall idx', normalizeFrom idx' secs = Some secs.
Proof.
  induction l as [|s r IH]; intros idx secs; cbn [normalizeFrom].
  - intros [= <-] idx'. reflexivity.
  - destruct (normalizeSection idx s) as [s0|] eqn:Es; [|discriminate].
    destruct (normalizeFrom (S idx) r) as [r'|] eqn:E; [|discriminate].
    intros [= <-] idx'. cbn [normalizeFrom].
    now rewrite (normalizeSection_fixed _ idx' _ _ Es), (IH _ _ E (S idx')).
Qed.

(** X20. What [normalizeSections] returns is already normal: normalizing
    it again changes nothing. It keeps the number of sections, gives every
    section an id and a title, and reduces each section's fields to texts
    that are not blank and have no white space at their ends. *)
Theorem normalizeSections_normal (rawSections : JsVal) (secs : list JsVal) :
  normalizeSections rawSections = Some secs ->
  normalizeSections (JArr secs) = Some secs
  /\ (forall l, rawSections = JArr l -> List.length secs = List.length l)
  /\ (forall s, In s secs ->
        truthy (getProp s "id") = true
        /\ truthy (getProp s "title") = true
        /\ exists keys,
             getProp s "fields" = JArr (List.map JStr keys)
             /\ Forall (fun k => nonEmpty k = true /\ trim k = k) keys).
Proof.
  unfold normalizeSections. intros H.
  destruct (or_else rawSections (JArr [])) as [| | | | | |l|] eqn:El; try discriminate.
  split; [|split].
  - cbn [or_else truthy]. exact (normalizeFrom_fixed _ _ _ H 0%nat).
  - intros l' ->. cbn in El. injection El as <-. exact (normalizeFrom_length _ _ _ H).
  - intros s Hin. destruct (normalizeFrom_each _ _ _ _ H Hin) as [i [s0 Hs]].
    unfold normalizeSection in Hs. destruct (is_nullish s0); [discriminate|].
    injection Hs as <-. cbn [getProp obj_get String.eqb Ascii.eqb Bool.eqb].
    split; [now apply or_else_truthy|]. split; [now apply or_else_truthy|].
    exists (sectionFields s0). split; [reflexivity|apply sectionFields_trimmed].
Qed.

Lemma normalizeSections_normal_witness :
  normalizeSections
    (JArr [JObj [("id", JStr "widget-1"); ("title", JStr "Contact");
                 ("description", JStr ""); ("layout", JStr "one-column");
                 ("fields", JArr [JStr "email"; JStr "phone"])]])
  = Some [JObj [("id", JStr "widget-1"); ("title", JStr "Contact");
                ("description", JStr ""); ("layout", JStr "one-column");
                ("fields", JArr [JStr "email"; JStr "phone"])]].
Proof.
  exact (proj1 (normalizeSections_normal
                  (JArr [JObj [("title", JStr "Contact");
                               ("fields", JArr [JObj [("field_key", JStr " email ")];
                                                JNull; JStr "phone"])]])
                  _ eq_refl)).
Defined.

End ViewSections.

Section ViewChoice.
Import Js Views.
Variable jsonParse : string -> option JsVal.

Lemma hasSections_truthy (v : JsVal) : hasSections jsonParse v = true -> truthy v = true.
Proof.
  destruct v; try reflexivity; intros H; exfalso; revert H;
    unfold hasSections, getRawSectionsFromView; cbv zeta;
    cbn [Repeater.optGet is_nullish getProp normalizeConfig truthy negb arrayOr
         obj_get List.length Nat.eqb index_of_key parse_digits String.eqb
         Ascii.eqb Bool.eqb];
    discriminate.
Qed.

(** X21. [pickBestViewBySlug] returns [null] when no view has the slug,
    compared without regard to case; otherwise it returns one of the
    views that have it, and one that holds sections whenever some view
    with that slug does. *)
Theorem pickBestViewBySlug_prefers_sections (views : list JsVal) (slug : JsVal) :
  let target := toLowerCase (toStr (or_else slug (JStr ""))) in
  ((forall v, In v views -> slugKey v <> target) ->
     pickBestViewBySlug jsonParse (JArr views) slug = Some JNull)
  /\ (forall v, In v views -> slugKey v = target ->
        exists r, pickBestViewBySlug jsonParse (JArr views) slug = Some r
                  /\ In r views /\ slugKey r = target
                  /\ (hasSections jsonParse v = true -> hasSections jsonParse r = true)).
Proof.
  cbv zeta. unfold pickBestViewBySlug. cbv zeta. cbn [or_else truthy].
  set (target := toLowerCase (toStr (or_else slug (JStr "")))).
  set (matches := List.filter (fun v => String.eqb (slugKey v) target) views).
  assert (Hm : forall v, In v matches <-> In v views /\ slugKey v = target).
  { intros v. unfold matches. rewrite List.filter_In. now rewrite String.eqb_eq. }
  split.
  - intros Hno. destruct matches as [|first rest] eqn:E; [reflexivity|].
    exfalso. destruct (proj1 (Hm first) (or_introl eq_refl)) as [Hin Hs].
    exact (Hno _ Hin Hs).
  - intros v Hin Hs. pose proof (proj2 (Hm v) (conj Hin Hs)) as Hv.
    destruct matches as [|first rest] eqn:E; [destruct Hv|].
    eexists. split; [reflexivity|].
    destruct (List.find (hasSections jsonParse) (first :: rest)) as [w|] eqn:Ef.
    + apply List.find_some in Ef as [Hw Hsec].
      change (default JUndefined (Some w)) with w.
      unfold or_else. rewrite (hasSections_truthy w Hsec).
      apply Hm in Hw as [Hw1 Hw2]. now repeat split.
    + change (default JUndefined None) with JUndefined.
      change (or_else JUndefined first) with first.
      destruct (proj1 (Hm first) (or_introl eq_refl)) as [Hf1 Hf2].
      repeat split; try assumption.
      intros Hsec. exfalso.
      pose proof (List.find_none _ _ Ef v Hv) as Hn. congruence.
Qed.

End ViewChoice.

Section ViewChoiceScenario.
Import Js Views.

Lemma pickBestViewBySlug_prefers_sections_witness :
  let empty := JObj [("slug", JStr "Main")] in
  let full := JObj [("slug", JStr "main"); ("config", JObj [("sections", JArr [JObj []])])] in
  pickBestViewBySlug (fun _ => None) (JArr [empty; full]) (JStr "MAIN") = Some full.
Proof.
  intros empty full.
  destruct (pickBestViewBySlug_prefers_sections (fun _ => None) [empty; full] (JStr "MAIN"))
    as [_ H].
  destruct (H full) as [r [Hr [Hin [_ Hsec]]]]; [right; now left|reflexivity|].
  specialize (Hsec eq_refl).
  destruct Hin as [<-|[<-|[]]]; [vm_compute in Hsec; discriminate Hsec|exact Hr].
Defined.

End ViewChoiceScenario.
Section LayoutRows.
Import Js Layout.

Lemma keyedField_keyed (f g : JsVal) :
  keyedField f = Some g -> truthy (getProp g "key") = true.
Proof.
  unfold keyedField. destruct (negb (truthy f)); [discriminate|].
  destruct (truthy (or_else (getProp f "field_key") (getProp f "key"))) eqn:E;
    [|discriminate].
  intros [= <-]. cbn [getProp]. now rewrite obj_get_set_eq.
Qed.

Lemma fieldsOf_keyed (contentType f : JsVal) :
  In f (fieldsOf contentType) -> truthy (getProp f "key") = true.
Proof.
  unfold fieldsOf. intros H. apply list_elem_of_In in H.
  apply list_elem_of_omap in H as (f0 & _ & Hf). exact (keyedField_keyed _ _ Hf).
Qed.

Lemma buildFieldsByKey_lookup (fields : list JsVal) (k : string) :
  obj_get (buildFieldsByKey fields) k = JUndefined
  \/ In (obj_get (buildFieldsByKey fields) k) fields.
Proof.
  unfold buildFieldsByKey.
  assert (H : forall (acc : Props) (seen : list JsVal),
            (obj_get acc k = JUndefined \/ In (obj_get acc k) (seen ++ fields)) ->
            let out := fold_left
                         (fun fieldsByKey f =>
                            if truthy f && truthy (getProp f "key")
                            then obj_set fieldsByKey (toStr (getProp f "key")) f
                            else fieldsByKey) fields acc in
            obj_get out k = JUndefined \/ In (obj_get out k) (seen ++ fields)).
  { induction fields as [|f fs IH]; intros acc seen Hacc; [exact Hacc|].
    cbn [fold_left]. cbv zeta.
    replace (seen ++ f :: fs) with ((seen ++ [f]) ++ fs) by now rewrite <- app_assoc.
    apply IH. rewrite <- app_assoc. cbn [app].
    destruct (truthy f && truthy (getProp f "key")); [|exact Hacc].
    rewrite obj_get_set. destruct (String.eqb _ k); [|exact Hacc].
    right. apply in_or_app. right. now left. }
  exact (H [] [] (or_introl eq_refl)).
Qed.

Lemma columnsOf_nonzero (sec : JsVal) : exists n, columnsOf sec = JNum n /\ n <> 0.
Proof.
  unfold columnsOf.
  assert (H : exists n,
            match getProp sec "layout" with
            | JStr l =>
                if includes l "three" then JNum 3
                else if includes l "two" then JNum 2 else JNum 1
            | _ => JNum 1
            end = JNum n /\ n <> 0).
  { destruct (getProp sec "layout"); try (now exists 1).
    destruct (includes s "three"); [now exists 3|].
    destruct (includes s "two"); [now exists 2|now exists 1]. }
  destruct (getProp sec "columns"); try exact H.
  destruct (n =? 0) eqn:E; [exact H|].
  exists n. split; [reflexivity|]. now apply Z.eqb_neq.
Qed.

Lemma rowOf_def (fieldsByKey : Props) (ref : JsVal) (row : Row) :
  rowOf fieldsByKey ref = Some row ->
  exists key,
    truthy key = true
    /\ def row = or_else (obj_get fieldsByKey (toStr key))
                         (JObj [("key", key); ("type", JStr "builtin")]).
Proof.
  unfold rowOf.
  destruct ref; cbv zeta;
    match goal with
    | |- (if negb (truthy ?key) || negb ?visible then _ else _) = _ -> _ =>
        destruct (truthy key) eqn:Ek; [|intros H; discriminate H];
        destruct visible; [|intros H; discriminate H];
        intros H; injection H as <-; exists key; split; [exact Ek|reflexivity]
    end.
Qed.

Lemma rows_keyed (contentType : JsVal) (refs : list JsVal) (row : Row) :
  In row (omap (rowOf (buildFieldsByKey (fieldsOf contentType))) refs) ->
  truthy (getProp (def row) "key") = true
  /\ (In (def row) (fieldsOf contentType) \/ getProp (def row) "type" = JStr "builtin").
Proof.
  intros H. apply list_elem_of_In in H.
  apply list_elem_of_omap in H as (ref & _ & Hrow).
  destruct (rowOf_def _ _ _ Hrow) as [key [Hk ->]].
  destruct (buildFieldsByKey_lookup (fieldsOf contentType) (toStr key)) as [E|Hin].
  - rewrite E. cbn. split; [exact Hk|now right].
  - unfold or_else.
    destruct (truthy (obj_get _ (toStr key))) eqn:Et.
    + split; [exact (fieldsOf_keyed _ _ Hin)|now left].
    + cbn. split; [exact Hk|now right].
Qed.

(** X22. Every cell of the compiled layout has a usable definition. When
    no field of the content type is keyed [__proto__] and no field
    reference of the view configuration names a member of
    [Object.prototype], each row carries a definition with a key, which is
    either a keyed field of the content type or the placeholder of type
    ["builtin"] for a key the content type does not have, and every
    section has a number of columns that is not zero. *)
Theorem layout_rows_have_keyed_definitions
    (contentType viewConfig : JsVal) (layout : list Section_) :
  forallb dataField (fieldsOf contentType) = true ->
  forallb dataRef (refsOf viewConfig) = true ->
  buildLayoutFromView contentType viewConfig = Some layout ->
  forall s, In s layout ->
    (exists n, columns s = JNum n /\ n <> 0)
    /\ forall row, In row (rows s) ->
         truthy (getProp (def row) "key") = true
         /\ (In (def row) (fieldsOf contentType)
             \/ getProp (def row) "type" = JStr "builtin").
Proof.
  intros _ _. unfold buildLayoutFromView.
  destruct (negb (truthy contentType)); [intros [= <-] s []|]. cbv zeta.
  destruct (compileSections _ _) as [sections|] eqn:Ec; [|discriminate].
  assert (Hcompiled : forall s, In s sections ->
            (exists n, columns s = JNum n /\ n <> 0)
            /\ forall row, In row (rows s) ->
                 truthy (getProp (def row) "key") = true
                 /\ (In (def row) (fieldsOf contentType)
                     \/ getProp (def row) "type" = JStr "builtin")).
  { intros s Hin.
    destruct (compileSections_origin _ _ _ _ Ec Hin) as [sec [_ Hs]].
    unfold compileSection in Hs. destruct (is_nullish sec); [discriminate|].
    destruct (iterate _) as [refs|]; [|discriminate].
    destruct (omap _ refs) as [|r0 more] eqn:Erows; [discriminate|].
    injection Hs as <-. cbn [columns rows]. split; [apply columnsOf_nonzero|].
    intros row Hrow. apply (rows_keyed contentType refs). now rewrite Erows. }
  destruct (_ && _ && _).
  - intros [= <-] s Hin. apply in_app_or in Hin as [Hin|[<-|[]]];
      [now apply Hcompiled|].
    cbn [allFieldsSection columns rows]. split; [now exists 1|].
    intros row Hrow. apply List.in_map_iff in Hrow as [d [<- Hd]]. cbn [def].
    split; [exact (fieldsOf_keyed _ _ Hd)|now left].
  - intros [= <-]. exact Hcompiled.
Qed.

Lemma layout_rows_have_keyed_definitions_witness :
  let contentType := JObj [("fields", JArr [JObj [("field_key", JStr "email")]])] in
  let viewConfig :=
    JObj [("sections",
           JArr [JObj [("layout", JStr "two-column");
                       ("fields", JArr [JStr "email"; JStr "title"])]])] in
  let placeholder := JObj [("key", JStr "title"); ("type", JStr "builtin")] in
  In placeholder (fieldsOf contentType) \/ getProp placeholder "type" = JStr "builtin".
Proof.
  intros contentType viewConfig placeholder.
  pose (s := {| id := JStr "section"; title := JStr "Section"; columns := JNum 2;
                rows := [ {| def := JObj [("field_key", JStr "email"); ("key", JStr "email")];
                             width := JNum 1 |};
                          {| def := placeholder; width := JNum 1 |} ] |}).
  destruct (layout_rows_have_keyed_definitions contentType viewConfig [s]
              eq_refl eq_refl eq_refl s (or_introl eq_refl)) as [_ H].
  exact (proj2 (H {| def := placeholder; width := JNum 1 |} (or_intror (or_introl eq_refl)))).
Defined.

End LayoutRows.

(* ===================================================================== *)
(** * Properties of subfield configuration *)
(* ===================================================================== *)

Section SubfieldConfig.
Import Js Builder.

Lemma lookup_In {A} (k : string) (l : list (string * A)) (v : A) :
  lookup k l = Some v -> In v (List.map snd l).
Proof.
  induction l as [|[k' v'] r IH]; [discriminate|].
  cbn [lookup List.map snd]. destruct (String.eqb k' k).
  - intros [= <-]. now left.
  - intros H. right. now apply IH.
Qed.

Lemma schemaOf_labels (type : JsVal) (schema : list (string * string)) :
  schemaOf type = Own schema ->
  Forall (fun e => nonEmpty (snd e) = true) schema.
Proof.
  unfold schemaOf. cbv zeta.
  destruct (lookup _ SUBFIELD_MAP) as [entries|] eqn:E.
  2:{ destruct (objectPrototypeMember _); discriminate. }
  intros [= <-]. apply lookup_In in E. cbn in E.
  destruct E as [<-|[<-|[<-|[<-|[<-|[]]]]]]; repeat constructor.
Qed.

Lemma ensureRow_key (subfields : Props) (k d : string) :
  nonEmpty d = true ->
  obj_has (ensureRow subfields (k, d)) k = true
  /\ normalRow (obj_get (ensureRow subfields (k, d)) k).
Proof.
  intros Hd. unfold ensureRow. cbv zeta.
  rewrite obj_has_set, String.eqb_refl, obj_get_set_eq. split; [reflexivity|].
  destruct (getProp _ "label") as [| | | | |l| |];
    try (eexists _, _; split; [reflexivity|exact Hd]).
  destruct (nonEmpty l) eqn:E; eexists _, _; (split; [reflexivity|]);
    [exact E|exact Hd].
Qed.

Lemma ensureRow_other (subfields : Props) (k d k' : string) :
  k <> k' ->
  obj_has (ensureRow subfields (k, d)) k' = obj_has subfields k'
  /\ obj_get (ensureRow subfields (k, d)) k' = obj_get subfields k'.
Proof.
  intros Hne. unfold ensureRow. cbv zeta.
  rewrite obj_has_set, obj_get_set_ne by exact Hne.
  apply String.eqb_neq in Hne. now rewrite Hne.
Qed.

Lemma ensureRows_normal (schema : list (string * string)) :
  Forall (fun e => nonEmpty (snd e) = true) schema ->
  forall subfields k,
    In k (List.map fst schema)
    \/ (obj_has subfields k = true /\ normalRow (obj_get subfields k)) ->
    obj_has (fold_left ensureRow schema subfields) k = true
    /\ normalRow (obj_get (fold_left ensureRow schema subfields) k).
Proof.
  induction 1 as [|[k0 d0] rest Hd _ IH]; intros subfields k Hk.
  - destruct Hk as [[]|Hk]. exact Hk.
  - cbn [fold_left]. apply IH. cbn [List.map fst In] in Hk. cbn [snd] in Hd.
    destruct (String.eqb_spec k0 k) as [->|Hne].
    + right. now apply ensureRow_key.
    + destruct Hk as [[E|Hin]|Hold]; [contradiction|now left|].
      right. destruct (ensureRow_other subfields k0 d0 k Hne) as [-> ->]. exact Hold.
Qed.

Lemma normalRow_fixed (subfields : Props) (k d : string) :
  obj_has subfields k = true -> normalRow (obj_get subfields k) ->
  ensureRow subfields (k, d) = subfields.
Proof.
  intros Hhas [b [l [E Hl]]]. unfold ensureRow. cbv zeta. rewrite E.
  cbn [or_else truthy getProp obj_get String.eqb Ascii.eqb Bool.eqb is_defined].
  rewrite Hl. rewrite <- E. now apply obj_set_same.
Qed.

Lemma ensureRows_fixed (schema : list (string * string)) (subfields : Props) :
  (forall k, In k (List.map fst schema) ->
     obj_has subfields k = true /\ normalRow (obj_get subfields k)) ->
  fold_left ensureRow schema subfields = subfields.
Proof.
  induction schema as [|[k d] rest IH]; intros H; [reflexivity|].
  cbn [fold_left]. destruct (H k (or_introl eq_refl)) as [Hhas Hrow].
  rewrite (normalRow_fixed _ _ _ Hhas Hrow). apply IH.
  intros k' Hk'. apply H. now right.
Qed.

Lemma schemaHas_key (schema : list (string * string)) (k : string) :
  In k (List.map fst schema) -> schemaHas schema k = true.
Proof.
  intros H. unfold schemaHas. apply orb_true_iff. left.
  apply existsb_exists. apply List.in_map_iff in H as [e [He Hin]].
  exists e. split; [exact Hin|]. now apply String.eqb_eq.
Qed.

Lemma prune_get (schema : list (string * string)) (subfields : Props) (k : string) :
  schemaHas schema k = true ->
  obj_has (prune schema subfields) k = obj_has subfields k
  /\ obj_get (prune schema subfields) k = obj_get subfields k.
Proof.
  intros Hk. unfold prune.
  induction subfields as [|[k0 v0] r [IH1 IH2]]; [now split|].
  cbn [List.filter fst]. destruct (schemaHas schema k0) eqn:E0.
  - cbn [obj_has obj_get]. rewrite IH1, IH2. now split.
  - cbn [obj_has obj_get]. destruct (String.eqb_spec k0 k) as [->|Hne]; [congruence|].
    now split.
Qed.

Lemma prune_has (schema : list (string * string)) (subfields : Props) (k : string) :
  obj_has (prune schema subfields) k = true -> schemaHas schema k = true.
Proof.
  unfold prune. induction subfields as [|[k0 v0] r IH]; [discriminate|].
  cbn [List.filter fst]. destruct (schemaHas schema k0) eqn:E0; [|exact IH].
  cbn [obj_has]. destruct (String.eqb_spec k0 k) as [->|Hne]; [now intros _|exact IH].
Qed.

Lemma prune_idem (schema : list (string * string)) (subfields : Props) :
  prune schema (prune schema subfields) = prune schema subfields.
Proof.
  unfold prune. induction subfields as [|[k0 v0] r IH]; [reflexivity|].
  cbn [List.filter fst]. destruct (schemaHas schema k0) eqn:E0; [|exact IH].
  cbn [List.filter fst]. now rewrite E0, IH.
Qed.

Lemma normalized_rows (schema : list (string * string)) (subfields : Props) (k : string) :
  Forall (fun e => nonEmpty (snd e) = true) schema ->
  In k (List.map fst schema) ->
  obj_has (prune schema (fold_left ensureRow schema subfields)) k = true
  /\ normalRow (obj_get (prune schema (fold_left ensureRow schema subfields)) k).
Proof.
  intros Hd Hk.
  destruct (prune_get schema (fold_left ensureRow schema subfields) k
              (schemaHas_key _ _ Hk)) as [-> ->].
  apply ensureRows_normal; [exact Hd|now left].
Qed.

(** The result for a type with a schema, on a [subfields] that is not an
    array. *)
Lemma normalize_own (config type : JsVal) (schema : list (string * string))
    (out : JsVal) :
  schemaOf type = Own schema ->
  normalizeSubfieldsConfig config type = Value out ->
  exists base subfields,
    out = JObj (obj_set base "subfields"
                  (JObj (prune schema (fold_left ensureRow schema subfields))))
    /\ base = (if truthy config && Relations.isObjectType config
               then spread config else []).
Proof.
  intros Hs. unfold normalizeSubfieldsConfig. cbv zeta. rewrite Hs.
  destruct (if truthy (obj_get _ "subfields") && _ then _ else _);
    try discriminate.
  intros [= <-]. now eexists _, _.
Qed.

(** X23. For a field type with subfields, the normalized configuration
    has a [subfields] object that holds, for every subfield key of the
    type, a row [{ show, label }] with a boolean and a non-empty label;
    it holds no other key, the names inherited from [Object.prototype]
    apart, which the pruning loop does not delete; and every other
    property of the configuration is kept. *)
Theorem normalized_subfields_match_schema (config type : JsVal)
    (schema : list (string * string)) (out : JsVal) :
  schemaOf type = Own schema ->
  normalizeSubfieldsConfig config type = Value out ->
  exists subfields,
    getProp out "subfields" = JObj subfields
    /\ (forall k, In k (List.map fst schema) ->
          obj_has subfields k = true /\ normalRow (obj_get subfields k))
    /\ (forall k, obj_has subfields k = true ->
          In k (List.map fst schema) \/ objectPrototypeMember k = true)
    /\ (forall k, k <> "subfields" ->
          getProp out k
          = obj_get (if truthy config && Relations.isObjectType config
                     then spread config else []) k).
Proof.
  intros Hs Hout.
  destruct (normalize_own _ _ _ _ Hs Hout) as [base [sub [-> Hbase]]].
  eexists. cbn [getProp]. rewrite obj_get_set_eq. split; [reflexivity|].
  split; [|split].
  - intros k Hk. apply normalized_rows; [exact (schemaOf_labels _ _ Hs)|exact Hk].
  - intros k Hk. apply prune_has in Hk. unfold schemaHas in Hk.
    apply orb_true_iff in Hk as [Hk|Hk]; [left|now right].
    apply existsb_exists in Hk as [e [Hin He]]. apply String.eqb_eq in He.
    subst k. now apply List.in_map.
  - intros k Hk. rewrite <- Hbase. apply obj_get_set_ne. congruence.
Qed.

Lemma normalized_subfields_match_schema_witness :
  exists subfields,
    getProp (JObj [("help", JStr "Legal name");
                   ("subfields",
                    JObj [("title", JObj [("show", JBool false); ("label", JStr "Title")]);
                          ("first", JObj [("show", JBool true); ("label", JStr "Given")]);
                          ("middle", JObj [("show", JBool true); ("label", JStr "Middle")]);
                          ("last", JObj [("show", JBool true); ("label", JStr "Last")]);
                          ("suffix", JObj [("show", JBool true); ("label", JStr "Suffix")])])])
            "subfields" = JObj subfields
    /\ normalRow (obj_get subfields "first").
Proof.
  destruct (normalized_subfields_match_schema
              (JObj [("help", JStr "Legal name");
                     ("subfields",
                      JObj [("nick", JStr "x");
                            ("title", JObj [("show", JNum 0)]);
                            ("first", JObj [("label", JStr "Given")])])])
              (JStr "Name") _ _ eq_refl eq_refl) as [sub [Hsub [Hrows _]]].
  exists sub. split; [exact Hsub|].
  apply Hrows. right. now left.
Defined.

(** X24. [normalizeSubfieldsConfig] is idempotent: the configuration it
    returns is returned unchanged when normalized again for the same
    type, as the subfield controls do before each update. *)
Theorem normalizeSubfieldsConfig_idempotent (config type out : JsVal) :
  normalizeSubfieldsConfig config type = Value out ->
  normalizeSubfieldsConfig out type = Value out.
Proof.
  destruct (schemaOf type) as [schema| |] eqn:Hs.
  - intros Hout.
    destruct (normalize_own _ _ _ _ Hs Hout) as [base [sub [-> _]]].
    unfold normalizeSubfieldsConfig. cbv zeta. rewrite Hs.
    cbn [truthy Relations.isObjectType andb spread].
    rewrite obj_get_set_eq. cbn [truthy Relations.isObjectType andb].
    set (S := prune schema (fold_left ensureRow schema sub)).
    assert (Hfix : fold_left ensureRow schema S = S).
    { apply ensureRows_fixed. intros k Hk.
      apply normalized_rows; [exact (schemaOf_labels _ _ Hs)|exact Hk]. }
    assert (Hp : prune schema S = S) by (unfold S; apply prune_idem).
    rewrite Hfix, Hp. do 2 f_equal.
    rewrite <- (obj_get_set_eq base "subfields" (JObj S)) at 2.
    apply obj_set_same. now rewrite obj_has_set, String.eqb_refl.
  - unfold normalizeSubfieldsConfig. cbv zeta. rewrite Hs. discriminate.
  - unfold normalizeSubfieldsConfig. cbv zeta. rewrite Hs.
    intros [= <-]. cbn [truthy Relations.isObjectType andb spread]. reflexivity.
Qed.

Lemma normalizeSubfieldsConfig_idempotent_witness :
  normalizeSubfieldsConfig
    (JObj [("subfields",
            JObj [("caption", JObj [("show", JBool false); ("label", JStr "Caption")]);
                  ("title", JObj [("show", JBool true); ("label", JStr "Title")]);
                  ("credit", JObj [("show", JBool true); ("label", JStr "Credit")])])])
    (JStr "video")
  = Value
      (JObj [("subfields",
              JObj [("caption", JObj [("show", JBool false); ("label", JStr "Caption")]);
                    ("title", JObj [("show", JBool true); ("label", JStr "Title")]);
                    ("credit", JObj [("show", JBool true); ("label", JStr "Credit")])])]).
Proof.
  exact (normalizeSubfieldsConfig_idempotent
           (JObj [("subfields", JObj [("caption", JObj [("show", JBool false)])])])
           (JStr "video") _ eq_refl).
Defined.

End SubfieldConfig.

(* ===================================================================== *)
(** * Properties of choices and user selection *)
(* ===================================================================== *)

Section ChoiceFacts.
Import Js Inputs.




End ChoiceFacts.

Section UserPicker.
Import Js Inputs.

(** A list of texts that are not empty, as [normalizeUserIds] returns. *)
Lemma currentIds_texts (value : JsVal) :
  Forall (fun x => exists s, x = JStr s /\ nonEmpty s = true) (currentIds value).
Proof.
  unfold currentIds, normalizeUserIds. destruct value; try constructor.
  - destruct (nonEmpty (trim s)) eqn:E; [|constructor].
    constructor; [now exists (trim s)|constructor].
  - induction items as [|x l IH]; [constructor|].
    cbn [List.map List.filter]. destruct (truthy (JStr (toStr x))) eqn:E; [|exact IH].
    constructor; [now exists (toStr x)|exact IH].
Qed.

Lemma currentIds_fixed (l : list JsVal) :
  Forall (fun x => exists s, x = JStr s /\ nonEmpty s = true) l ->
  currentIds (JArr l) = l.
Proof.
  intros H. unfold currentIds, normalizeUserIds.
  induction H as [|x l [s [-> Hs]] _ IH]; [reflexivity|].
  cbn [List.map List.filter toStr truthy]. rewrite Hs. f_equal. exact IH.
Qed.

Lemma sameValue_text (x : JsVal) (s : string) :
  sameValue x (JStr s) = true <-> x = JStr s.
Proof.
  destruct x; cbn [sameValue]; split; try discriminate.
  - intros H. apply String.eqb_eq in H. now subst.
  - intros [= ->]. apply String.eqb_refl.
Qed.

Lemma filter_absent (l : list JsVal) (s : string) :
  ~ In (JStr s) l -> List.filter (fun x => negb (sameValue x (JStr s))) l = l.
Proof.
  induction l as [|x l IH]; intros H; [reflexivity|].
  cbn [List.filter]. destruct (sameValue x (JStr s)) eqn:E.
  - apply sameValue_text in E. subst x. exfalso. apply H. now left.
  - cbn [negb]. f_equal. apply IH. intros Hin. apply H. now right.
Qed.

(** X26. In a picker of several users, with a user id that is a text and
    not empty: selecting does nothing exactly when the id is selected
    already, and otherwise appends it; removing it again gives back the
    selection as it was; and after removing an id it is not selected any
    more while every other id is selected exactly as before. *)
Theorem user_picker_select_then_remove (value : JsVal) (s : string) :
  nonEmpty s = true ->
  (selectUser value true (JStr s) = None <-> In (JStr s) (currentIds value))
  /\ (forall next, selectUser value true (JStr s) = Some next ->
        currentIds next = currentIds value ++ [JStr s]
        /\ removeUser next true (JStr s) = Some (JArr (currentIds value)))
  /\ (forall next, removeUser value true (JStr s) = Some next ->
        ~ In (JStr s) (currentIds next)
        /\ forall x, x <> JStr s -> (In x (currentIds next) <-> In x (currentIds value))).
Proof.
  intros Hs. unfold selectUser, removeUser. cbn [truthy]. rewrite Hs. cbn [negb].
  pose proof (currentIds_texts value) as Htexts.
  assert (Hnew : Forall (fun x => exists t, x = JStr t /\ nonEmpty t = true)
                   (currentIds value ++ [JStr s])).
  { apply Forall_app. split; [exact Htexts|]. constructor; [now exists s|constructor]. }
  split; [|split].
  - destruct (existsb _ (currentIds value)) eqn:E.
    + split; [intros _|reflexivity].
      apply existsb_exists in E as [x [Hin Hx]]. apply sameValue_text in Hx. now subst.
    + split; [discriminate|]. intros Hin.
      assert (existsb (fun x => sameValue x (JStr s)) (currentIds value) = true);
        [|congruence].
      apply existsb_exists. exists (JStr s). split; [exact Hin|].
      now apply sameValue_text.
  - intros next. destruct (existsb _ (currentIds value)) eqn:E; [discriminate|].
    intros [= <-]. rewrite (currentIds_fixed _ Hnew). split; [reflexivity|].
    do 2 f_equal. rewrite List.filter_app. cbn [List.filter].
    assert (Eid : sameValue (JStr s) (JStr s) = true) by now apply sameValue_text.
    rewrite Eid. cbn [negb]. rewrite app_nil_r. apply filter_absent.
    intros Hin.
    assert (existsb (fun x => sameValue x (JStr s)) (currentIds value) = true);
      [|congruence].
    apply existsb_exists. exists (JStr s). split; [exact Hin|exact Eid].
  - intros next [= <-].
    assert (Hkept : Forall (fun x => exists t, x = JStr t /\ nonEmpty t = true)
                      (List.filter (fun x => negb (sameValue x (JStr s)))
                                   (currentIds value))).
    { apply List.Forall_forall. intros x Hx. apply List.filter_In in Hx as [Hx _].
      rewrite List.Forall_forall in Htexts. now apply Htexts. }
    rewrite (currentIds_fixed _ Hkept). split.
    + intros Hin. apply List.filter_In in Hin as [_ Hin].
      assert (Eid : sameValue (JStr s) (JStr s) = true) by now apply sameValue_text.
      now rewrite Eid in Hin.
    + intros x Hx. rewrite List.filter_In. split; [now intros [Hin _]|].
      intros Hin. split; [exact Hin|]. apply negb_true_iff.
      destruct (sameValue x (JStr s)) eqn:E; [|reflexivity].
      apply sameValue_text in E. contradiction.
Qed.

Lemma user_picker_select_then_remove_witness :
  selectUser (JArr [JStr "u1"; JStr "u2"]) true (JStr "u3")
  = Some (JArr [JStr "u1"; JStr "u2"; JStr "u3"])
  /\ removeUser (JArr [JStr "u1"; JStr "u2"; JStr "u3"]) true (JStr "u3")
     = Some (JArr [JStr "u1"; JStr "u2"]).
Proof.
  destruct (user_picker_select_then_remove (JArr [JStr "u1"; JStr "u2"]) "u3" eq_refl)
    as [_ [H _]].
  split; [reflexivity|].
  exact (proj2 (H (JArr [JStr "u1"; JStr "u2"; JStr "u3"]) eq_refl)).
Defined.

End UserPicker.

(* ===================================================================== *)
(** * Properties of the authentication middleware *)
(* ===================================================================== *)

Section AuthFacts.
Import Js Title Auth.
Variable verify : string -> option JsVal.

Lemma stripPrefix_app (p s : string) : stripPrefix p (p +:+ s) = Some s.
Proof.
  induction p as [|c p IH]; [now destruct s|].
  rewrite append_cons. cbn [stripPrefix]. now rewrite Ascii.eqb_refl.
Qed.

Lemma segment_app (seg rest : string) :
  hasChar "/" seg = false ->
  segment (seg +:+ String "/" rest) = (seg, String "/" rest).
Proof.
  induction seg as [|c seg IH]; [reflexivity|].
  cbn [hasChar]. intros [Hc Hs]%orb_false_iff.
  rewrite append_cons. cbn [segment]. rewrite Hc, (IH Hs). reflexivity.
Qed.

Lemma gizmoPublic_suffix (before s : string) :
  gizmoPublicAt s = true -> gizmoPublic (before +:+ s) = true.
Proof.
  intros H. induction before as [|c before IH].
  - rewrite append_nil. destruct s; cbn [gizmoPublic]; now rewrite H.
  - rewrite append_cons. cbn [gizmoPublic]. rewrite IH. apply orb_true_r.
Qed.

Lemma gizmoPublicAt_pack (seg after : string) :
  nonEmpty seg = true -> hasChar "/" seg = false ->
  gizmoPublicAt ("/api/gizmos/" +:+ seg +:+ "/public/" +:+ after) = true.
Proof.
  intros Hne Hs. unfold gizmoPublicAt. rewrite stripPrefix_app.
  change ("/public/" +:+ after) with (String "/" ("public/" +:+ after)).
  rewrite (segment_app seg _ Hs). rewrite Hne.
  change (String "/" ("public/" +:+ after)) with ("/public" +:+ String "/" after).
  now rewrite stripPrefix_app.
Qed.

(** X27. The middleware asks for a token except on public paths. It hands
    a request on without looking at the token when the path starts with
    [/public/] or when [/api/gizmos/<pack>/public/] occurs anywhere in the
    URL, the query string included; every other request without an
    authorization header is answered 401; and a request is handed on with
    a user only when the second word of the header verifies to that user. *)
Theorem auth_asks_for_token_except_public (req : Request) :
  (isPrefix "/public/" (path req) = true \/ gizmoPublic (url req) = true ->
     authMiddleware verify req = Next None)
  /\ (forall before seg after,
        url req = before +:+ "/api/gizmos/" +:+ seg +:+ "/public/" +:+ after ->
        nonEmpty seg = true -> hasChar "/" seg = false ->
        authMiddleware verify req = Next None)
  /\ (isPrefix "/public/" (path req) = false -> gizmoPublic (url req) = false ->
      authorization req = None ->
      authMiddleware verify req = Unauthorized "No token provided")
  /\ (forall user, authMiddleware verify req = Next (Some user) ->
        exists header, authorization req = Some header
                       /\ verify (tokenOf header) = Some user).
Proof.
  unfold authMiddleware. split; [|split; [|split]].
  - intros [H|H]; [now rewrite H|].
    rewrite H. now destruct (isPrefix "/public/" (path req)).
  - intros before seg after Hurl Hne Hs.
    rewrite Hurl, (gizmoPublic_suffix before _ (gizmoPublicAt_pack seg after Hne Hs)).
    now destruct (isPrefix "/public/" (path req)).
  - intros Hp Hg Ha. now rewrite Hp, Hg, Ha.
  - intros user. destruct (isPrefix "/public/" (path req)); [discriminate|].
    destruct (gizmoPublic (url req)); [discriminate|].
    destruct (authorization req) as [header|]; [|discriminate].
    destruct (negb (nonEmpty header)); [discriminate|]. cbv zeta.
    destruct (negb (nonEmpty (tokenOf header))); [discriminate|].
    destruct (verify (tokenOf header)) as [decoded|] eqn:E; [|discriminate].
    intros [= <-]. now exists header.
Qed.

End AuthFacts.

Section AuthScenarios.
Import Js Auth.

Lemma auth_asks_for_token_except_public_witness :
  authMiddleware (fun _ => None)
    {| url := "/api/content/post?next=/api/gizmos/maps/public/";
       path := "/api/content/post"; authorization := None |}
  = Next None
  /\ authMiddleware (fun _ => None)
       {| url := "/api/content/post"; path := "/api/content/post";
          authorization := None |}
     = Unauthorized "No token provided".
Proof.
  split.
  - destruct (auth_asks_for_token_except_public (fun _ => None)
                {| url := "/api/content/post?next=/api/gizmos/maps/public/";
                   path := "/api/content/post"; authorization := None |})
      as [_ [H _]].
    exact (H "/api/content/post?next=" "maps" "" eq_refl eq_refl eq_refl).
  - destruct (auth_asks_for_token_except_public (fun _ => None)
                {| url := "/api/content/post"; path := "/api/content/post";
                   authorization := None |}) as [_ [_ [H _]]].
    exact (H eq_refl eq_refl eq_refl).
Defined.

End AuthScenarios.

(* ===================================================================== *)
(** * Properties of the list display of field values *)
(* ===================================================================== *)

Section ListDisplayFacts.
Import Js ListDisplay.

Variable fmtDateISO : string -> JsVal -> JsVal -> option JsVal.
Variable fmtDateTimeUTC : JsVal -> JsVal -> JsVal -> option JsVal.
Variable fmtTimeShortLower : string -> JsVal -> option JsVal.

Abbreviation formatWith' := (formatWith fmtDateISO fmtDateTimeUTC fmtTimeShortLower).
Abbreviation format' := (format fmtDateISO fmtDateTimeUTC fmtTimeShortLower).

Lemma collectParts_ext (nested nested' : JsVal -> JsVal -> option JsVal)
    (subfields : list JsVal) (r : JsVal) (keys : list string) :
  (forall d x, nested d x = nested' d x) ->
  forall parts,
    collectParts nested subfields r keys parts
    = collectParts nested' subfields r keys parts.
Proof.
  intros H. induction keys as [|k rest IH]; intros parts; [reflexivity|].
  cbn [collectParts]. cbv zeta. destruct (empty _); [apply IH|].
  rewrite H. destruct (nested' _ _) as [piece|]; [|reflexivity].
  destruct (2 <=? _)%nat; [reflexivity|apply IH].
Qed.

Lemma summarizeFrom_ext (nested nested' : JsVal -> JsVal -> option JsVal)
    (subfields : list JsVal) (pickKeys : list string) (rows : list JsVal) :
  (forall d x, nested d x = nested' d x) ->
  forall idx,
    summarizeFrom nested subfields pickKeys idx rows
    = summarizeFrom nested' subfields pickKeys idx rows.
Proof.
  intros H. induction rows as [|row rest IH]; intros idx; [reflexivity|].
  cbn [summarizeFrom]. unfold summarizeRow. cbv zeta.
  rewrite (collectParts_ext nested nested' subfields _ pickKeys H), IH.
  reflexivity.
Qed.

Lemma summarizeFrom_length (nested : JsVal -> JsVal -> option JsVal)
    (subfields : list JsVal) (pickKeys : list string) (rows : list JsVal) :
  forall idx shown,
    summarizeFrom nested subfields pickKeys idx rows = Some shown ->
    List.length shown = List.length rows.
Proof.
  induction rows as [|row rest IH]; intros idx shown; cbn [summarizeFrom].
  - intros [= <-]. reflexivity.
  - destruct (summarizeRow _ _ _ _ _) as [s|]; [|discriminate].
    destruct (summarizeFrom _ _ _ _ rest) as [more|] eqn:E; [|discriminate].
    intros [= <-]. cbn [List.length]. now rewrite (IH _ _ E).
Qed.

Lemma formatWith_ext (self self' : Z -> Z -> Z -> JsVal -> JsVal -> option JsVal)
    (labelLimit depth maxDepth : Z) (fieldDef rawValue : JsVal) :
  ((maxDepth <? depth) = false ->
   forall d x, self 2 (depth + 1) maxDepth d x = self' 2 (depth + 1) maxDepth d x) ->
  formatWith' self labelLimit depth maxDepth fieldDef rawValue
  = formatWith' self' labelLimit depth maxDepth fieldDef rawValue.
Proof.
  intros H. unfold formatWith. cbv zeta.
  destruct (empty rawValue); [reflexivity|].
  destruct (String.eqb (typeOf fieldDef) "repeater"); [|reflexivity].
  destruct (Repeater.coerceArray rawValue) as [|row rows]; [reflexivity|].
  destruct (maxDepth <? depth) eqn:E; [reflexivity|].
  now rewrite (summarizeFrom_ext _ _ _ _ _ (H eq_refl)).
Qed.

Lemma callsNeeded_deeper (depth maxDepth : Z) :
  (maxDepth <? depth) = false ->
  callsNeeded depth maxDepth = S (callsNeeded (depth + 1) maxDepth).
Proof.
  intros H. apply Z.ltb_ge in H. unfold callsNeeded.
  replace (maxDepth - (depth + 1) + 1) with (maxDepth - depth) by lia.
  replace (maxDepth - depth + 1) with (Z.succ (maxDepth - depth)) by lia.
  rewrite Z2Nat.inj_succ by lia. reflexivity.
Qed.

Lemma format_enough (n : nat) :
  forall m labelLimit depth maxDepth fieldDef rawValue,
    (callsNeeded depth maxDepth <= n)%nat -> (callsNeeded depth maxDepth <= m)%nat ->
    format' n labelLimit depth maxDepth fieldDef rawValue
    = format' m labelLimit depth maxDepth fieldDef rawValue.
Proof.
  induction n as [|n IH]; intros m labelLimit depth maxDepth fieldDef rawValue Hn Hm.
  - destruct (maxDepth <? depth) eqn:E.
    + destruct m; cbn [format]; apply formatWith_ext; congruence.
    + rewrite (callsNeeded_deeper _ _ E) in Hn. lia.
  - destruct (maxDepth <? depth) eqn:E.
    + destruct m; cbn [format]; apply formatWith_ext; congruence.
    + rewrite (callsNeeded_deeper _ _ E) in Hn, Hm.
      destruct m as [|m]; [lia|]. cbn [format]. apply formatWith_ext.
      intros _ d x. apply IH; lia.
Qed.

Lemma format_unfold (n : nat) (labelLimit depth maxDepth : Z) (fieldDef rawValue : JsVal) :
  exists self,
    format' n labelLimit depth maxDepth fieldDef rawValue
    = formatWith' self labelLimit depth maxDepth fieldDef rawValue.
Proof. destruct n; eexists; reflexivity. Qed.

Lemma sliceTo_length {A} (n : Z) (l : list A) :
  0 <= n ->
  List.length (sliceTo n l) = Z.to_nat (Z.min n (Z.of_nat (List.length l))).
Proof.
  intros Hn. unfold sliceTo. cbv zeta.
  assert (E : (n <? 0) = false) by (apply Z.ltb_ge; lia).
  rewrite E, length_firstn. lia.
Qed.

Lemma formatFieldValueForList_options
    (labelLimit depth maxDepth : Z) (fieldDef rawValue : JsVal) :
  formatFieldValueForList fmtDateISO fmtDateTimeUTC fmtTimeShortLower
    fieldDef rawValue (options labelLimit depth maxDepth)
  = format' (callsNeeded depth maxDepth) labelLimit depth maxDepth fieldDef rawValue.
Proof. reflexivity. Qed.

(** X28. The text a list shows for a repeater is bounded in depth and in
    length. A call at depth [d] makes nested calls at most
    [maxDepth - d + 1] levels deep: any larger bound on the nesting gives
    the result of the function. An empty value gives the empty text. At a
    depth beyond [maxDepth] the rows are not looked into: the text is
    "(n rows)". Within [maxDepth], with a label limit that is not
    negative, the text holds one summary for each of the first
    [labelLimit] rows and counts the others in "+k more". *)
Theorem list_display_is_bounded
    (labelLimit depth maxDepth : Z) (fieldDef rawValue : JsVal) :
  let result :=
    formatFieldValueForList fmtDateISO fmtDateTimeUTC fmtTimeShortLower
      fieldDef rawValue (options labelLimit depth maxDepth) in
  (forall n, (callsNeeded depth maxDepth <= n)%nat ->
     format' n labelLimit depth maxDepth fieldDef rawValue = result)
  /\ (empty rawValue = true -> result = Some (JStr ""))
  /\ (forall rows,
        typeOf fieldDef = "repeater" -> rawValue = JArr rows -> rows <> [] ->
        let count := Z.of_nat (List.length rows) in
        (maxDepth < depth ->
           result = Some (JStr ("(" +:+ Z_to_string count +:+ " rows)")))
        /\ (depth <= maxDepth -> 0 <= labelLimit ->
            forall out,
              result = Some out ->
              exists shown,
                List.length shown = Z.to_nat (Z.min labelLimit count)
                /\ out = JStr (if labelLimit <? count
                               then join " | " shown +:+ " | +"
                                    +:+ Z_to_string (count - labelLimit) +:+ " more"
                               else join " | " shown))).
Proof.
  intros result. subst result. rewrite formatFieldValueForList_options.
  split; [|generalize (callsNeeded depth maxDepth) as n; intros n; split].
  - intros n Hn. apply format_enough; [exact Hn|lia].
  - intros He. destruct (format_unfold n labelLimit depth maxDepth fieldDef rawValue)
      as [self ->].
    unfold formatWith. cbv zeta. now rewrite He.
  - intros rows Ht -> Hrows count.
    destruct (format_unfold n labelLimit depth maxDepth fieldDef (JArr rows))
      as [self ->].
    unfold formatWith. cbv zeta. rewrite Ht.
    assert (He : empty (JArr rows) = false) by now destruct rows.
    rewrite He. cbn [String.eqb Ascii.eqb Bool.eqb Repeater.coerceArray].
    destruct rows as [|row rest] eqn:Er; [contradiction|]. rewrite <- Er.
    assert (Hc : Z.of_nat (List.length rows) = count) by now rewrite Er.
    split.
    + intros Hd. apply Z.ltb_lt in Hd. rewrite Hd, Hc. reflexivity.
    + intros Hd Hl out. apply Z.ltb_ge in Hd. rewrite Hd.
      destruct (summarizeFrom _ _ _ _ _) as [shown|] eqn:Es; [|discriminate].
      intros [= <-]. exists shown.
      pose proof (summarizeFrom_length _ _ _ _ _ _ Es) as Hlen.
      rewrite sliceTo_length in Hlen by exact Hl. rewrite Hc in Hlen |- *.
      split; [exact Hlen|]. rewrite Hlen. f_equal.
      destruct (labelLimit <? count) eqn:E.
      * apply Z.ltb_lt in E.
        replace (count - Z.of_nat (Z.to_nat (Z.min labelLimit count)))
          with (count - labelLimit) by lia.
        assert (Hm : (0 <? count - labelLimit) = true) by (apply Z.ltb_lt; lia).
        now rewrite Hm.
      * apply Z.ltb_ge in E.
        replace (count - Z.of_nat (Z.to_nat (Z.min labelLimit count))) with 0 by lia.
        reflexivity.
Qed.

End ListDisplayFacts.

Section ListDisplayScenario.
Import Js ListDisplay.

Lemma list_display_is_bounded_witness :
  let field := JObj [("type", JStr "repeater")] in
  let rows := [JObj [("a", JNum 1)]; JObj [("a", JNum 2)]; JObj [("a", JNum 3)]] in
  formatFieldValueForList plainDate plainDateTime plainTime field (JArr rows)
    (options 3 3 2)
  = Some (JStr "(3 rows)")
  /\ format plainDate plainDateTime plainTime 5 2 1 2 field (JArr rows)
     = Some (JStr "Row 1 | Row 2 | +1 more").
Proof.
  intros field rows.
  destruct (list_display_is_bounded plainDate plainDateTime plainTime 3 3 2 field
              (JArr rows)) as [_ [_ H]].
  destruct (H rows eq_refl eq_refl) as [Hdeep _]; [discriminate|].
  split; [apply Hdeep; lia|].
  destruct (list_display_is_bounded plainDate plainDateTime plainTime 2 1 2 field
              (JArr rows)) as [Henough _].
  rewrite (Henough 5%nat); [reflexivity|vm_compute; lia].
Defined.

End ListDisplayScenario.
